(* ===== verification/_CoqProject ===== *)
-Q . S2P
Prelude.v
Span.v
Objects.v
Context.v
Scenarios.v
Spec.v
Invariants.v
Reachable.v
Isolation.v
Units.v
Steps.v
Threads.v
Race.v
Robust.v
Stack.v
Mirror.v
Typing.v
Drain.v
Scoped.v
