(* ===== verification/Prelude.v ===== *)
(** * Verification of ddtrace's trace context (src/ddtrace/context.py)

    ** The program

    [src/ddtrace/context.py] defines one class, [Context]: the mutable
    record a tracer keeps per logical trace.  It remembers which [Span]
    is currently active, which span is the local root of the trace, and
    the metadata that crosses process boundaries (trace id, active span
    id, sampling priority, origin).  Instrumentation code creates a
    context (empty, or seeded from an inbound header), calls [add_span]
    when a span starts and [close_span] when it finishes, assigns the
    two properties [sampling_priority] and [dd_origin], and hands a
    [clone] to another thread or task.  Its collaborators are [Span]
    ([ddtrace/span.py], not part of the sources) and two string
    constants of [ddtrace/constants.py].

    ** How the program is modelled

    Python objects are mutable and shared: the context points at spans,
    a span points back at its context and at its parent, and the caller
    keeps its own variables for all of them.  The model therefore has an
    object store, [world] (file [Objects]): a finite map from span
    references to [Span] records and one from context references to
    [Context] records.  References are compared by identity.  A method
    is a computation in a state-and-exception monad over the store
    ([M world A], this file): it returns [Ok v] or [Raise e] together
    with the store it leaves, so what a method has written before it
    raises is kept, as in Python.  Attribute reads and writes go
    through the store ([getattr_ctx], [setattr_ctx], [getattr_span],
    [setattr_span]); reading an attribute of [None] raises
    [AttributeError].  Values are [None], integers and strings
    ([value]); truth-value testing ([if span:]) and [is not None] are
    kept apart ([truthy], [is_None]), since 0 and the empty string are
    false but not [None].

    Correspondence with the code, file [Context] (one definition per
    method, same names; line numbers of context.py):
    - [__init__], [new]: lines 13-24, the seven attributes as the
      record [Context] of [Objects];
    - [sampling_priority], [sampling_priority_setter]: lines 26-34;
    - [dd_origin], [dd_origin_setter]: lines 36-44; each setter reads
      [self._local_root_span] twice, in the test and in the
      assignment, as the code does;
    - [trace_id], [span_id]: lines 46-54;
    - [clone]: lines 56-64, the assignment of line 63 included;
    - [get_current_root_span], [get_current_span]: lines 66-81;
    - [_set_current_span]: lines 83-89;
    - [add_span]: lines 91-101; [close_span]: lines 103-109.
    The statements of a method are kept in their order, so an exception
    leaves the store as the statements before it made it.

    ** Files

    - [Prelude] (this file): values, truth, exceptions, the monad with
      its notation (scope [py_scope]), [try ... finally] and laws,
      lemmas on maps (fresh keys, the same write to two maps), the hint
      databases [py] and the tactics of symbolic execution.
    - [Span]: references, the interface [TagKeys] to the constants
      module with its instance [ddtrace_keys], the record [Span] with
      the six attributes the context uses.
    - [Objects]: the record [Context], the store, attribute access
      through references, allocation; the tactics [py_eval], [py_done]
      and [py_run] that run a method on a symbolic store.
    - [Context]: the methods, and for each of them a theorem giving its
      outcome and the whole store after it on every branch: span
      without and with parent, local root or not, root span present or
      not for the setters, [None] passed for the span (C1-C11); value
      isolation of a clone in both directions (C20).
    - [Scenarios]: short programs over the methods, as a test suite
      runs them, and their results for every store of the stated shape
      (C28, C30); two uses the class does not detect, a context used
      after its trace has ended and a root span closed before its child
      (C29, C31); the handoff of a clone to a unit that continues the
      trace under a span of the original (C36).
    - [Spec]: the calls a program can make ([call], [run_call]), the
      closedness the runtime guarantees (a reference denotes an
      object), and the closed form [spec_call] of the methods: each
      call as one atomic update of the store by pure functions on
      records ([activate], [end_trace], [add_span_ctx],
      [add_span_span], [close_span_ctx]).  [spec_call] is read off the
      code, not off the specification document: it keeps what the code
      does where the two differ (the half-done reset of
      [close_span(None)], [None] written by the setters, the ids taken
      from the parent on close).  [run_call_spec]: on closed stores the
      methods and their closed form agree, outcome and store.
    - [Invariants]: the order "the store has grown" between stores with
      its [Proper] instances, the invariant [world_inv] of the store
      (no dangling reference; an active span fixes the active span id;
      a local root span has no parent; [_trace_root_span_id] is
      [None]) and that every transition preserves it.
    - [Reachable]: the step relation [step], the stores [reachable] by
      callers of a given kind, executable runs of lists of calls, the
      class [CtxInvariant] of invariants of one context.  Refinement
      along executions (C12), the invariants on every reachable store
      (C13-C15), absence of stuck calls (C16), identity of spans
      (C17).  [_trace_root_span_id] is a dead attribute
      ([reachable_trace_root_span_id]).
    - [Isolation]: frame properties, which context and which span a
      call may write (C18).
    - [Units]: execution units that share the store.  Every context
      and every span belongs to one unit ([owns], [confined]); a
      schedule is a list of calls tagged with the unit that makes them.
      Whatever the schedule, a unit sees the outcomes and ends with the
      objects of its own calls run alone (C22), so the final store does
      not depend on the schedule ([schedule_independent]).
    - [Steps]: the methods once more, as programs of single attribute
      accesses ([prog], one constructor per kind of access, the rest of
      the method as continuation), so that a call can be interrupted.
      [interp] runs a program without interruption and gives back the
      method of [Context] ([interp_call]); [pstep] is one turn.
    - [Threads]: a pool of threads over one store; the scheduler gives
      the turns ([tick], [run_pool]).  Under the ownership of [Units] a
      thread that gets the turns its calls need completes them with the
      outcomes and the objects of the methods run alone, wherever the
      scheduler switches (C23); the pool is serializable
      ([threads_serializable]).  A call takes at most fifteen turns in
      any store ([cost_call_le] of [Steps], C37), so fifteen turns per
      call are always enough.
    - [Race]: without ownership the class is not thread safe: two
      overlapping calls of [add_span] on one context leave it with the
      current span of one thread and the identifiers of the other, a
      store no sequence of whole calls reaches (C24); a setter whose
      two reads of [_local_root_span] are separated by a [close_span]
      of the root raises [AttributeError] and loses the value, which no
      sequential order of the two calls does (C25).
    - [Robust]: what no race breaks.  [robust] is the invariant of the
      store without the agreement of the current span with the ids of
      its context; [safe] says of a program that each of its accesses
      succeeds and keeps the store [robust] in every store other
      threads may have made in between, with rules per access and a
      tactic that follows a method ([safe_call]).  Any calls, on shared
      objects, under any schedule, allocation included, keep the store
      [robust], lose no object, change the identity of no span and
      never fail on a reference (C26).
    - [Stack]: the contract towards a tracer that nests its spans.  An
      abstract machine (a list of open spans with push and pop), the
      representation relation [repr] between a context and a stack,
      and the simulation: the context follows the stack under any
      interleaving with other calls and the getters return its top
      and bottom (C27).
    - [Mirror]: the root span carries the sampling priority and origin
      of its context, under every call that does not write that span
      from another context (C32); the premise is needed: a span added
      to two contexts as root span carries the metadata of the second
      only (C21).
    - [Typing]: the types the documentation relies on (integers for
      identifiers and priorities, strings for the origin and in [meta],
      integers in [metrics]) are kept by every execution whose calls
      respect them; [None] enters the tags of a span only if a caller
      assigns it to one of the two properties (C33).  The type of
      identifiers is a parameter.
    - [Scoped]: a span opened and closed around a traced block
      ([add_span], the block, [close_span] in a [finally]).  The round
      trip: the context is exactly as before when the block leaves it
      as it found it, so scoped spans nest (C19).
    - [Drain]: the loop of a client that closes the current span until
      there is none; the loop is written here, it is neither in the
      sources nor in the specification, and it only calls
      [get_current_span] and [close_span].  The parent links of every
      reachable store are
      well founded ([rooted]), so the loop terminates within as many
      iterations as the store has spans (C34); on a context that
      follows the stack discipline it ends the trace (C35).

    ** What the theorems assume

    The theorems of [Context] and [Scenarios] hold for every store
    that contains the objects named in their hypotheses; nothing else
    is assumed of it.  The theorems on executions start from a store
    that satisfies [world_inv] (the empty store does) and require of
    each call that the objects passed to it exist ([call_closed]),
    which Python guarantees.  [None] passed where a span is expected is
    part of the model ([CallAddSpan self None], [CallCloseSpan self
    None]); callers that never do so are the callers [proper_call].
    Spans belong to the environment: [Span] is not part of the
    sources.  The executions assume of it what [CallNewSpan] says: a
    span is created with a parent that already exists (or none), with
    empty [meta] and [metrics] and no context, its ids and its parent
    never change, and nothing but the context writes it.  The
    invariant that a local root span has no parent (C14) and the
    termination of [drain] (C34) rest on this.  The programs of
    [Scenarios], [Scoped], [Stack] and [Drain] are callers written for
    the theorems; none of them is code of the repository.
    The theorems of [Units] and [Threads] assume that every call is
    made by the unit that owns its context and that a span is added to
    a context of its own unit; a span may be closed on any context.
    They need no invariant of the store beyond that ownership.  The
    first theorem of [Race] assumes two distinct spans that have
    parents, the second a context whose local root span has no parent.
    The theorem of [Robust] assumes no ownership: it starts from a
    [robust] store (every reachable store is one) and calls whose
    arguments exist.
    All theorems are parametric in the two tag keys.

    ** Bounds

    No method of the class loops or recurses, so the methods need no
    fuel: every method is a total function on stores, and the runs of
    call lists recurse on the list.  The only loop is the client loop
    [drain] of file [Drain], which takes fuel and reports whether it
    ended or ran out; C34 shows that any fuel above the number of spans
    in the store is enough in every reachable store, C35 that one more
    than the depth of the stack is enough under the stack discipline.
    A program of [Steps] is a finite tree, so a call takes finitely
    many turns: [cost] counts them along the run of the call alone, and
    C23 asks of the schedule that it gives a thread at least that many
    turns, wherever they fall.  C37 bounds them: at most fifteen per
    call (fourteen accesses and the return), reached by [add_span] of a
    root span on a context with origin and sampling priority.
    Without reachability the loop need not end: a store in which a span
    is its own parent makes it run forever, and no program builds such
    a store.  Identifiers and priorities are unbounded integers, as in
    Python; neither the code nor the specification gives them a width.
    The number of objects is not bounded: a new object takes a fresh
    reference.

    ** What is not modelled

    - [Span] beyond the six attributes the context touches, and its
      own methods: the span is an external collaborator; its record is
      written from the uses in context.py.
    - The module-level logger (context.py line 9): no method uses it.
    - Concurrency below the attribute access: a thread switch falls
      between two reads or writes of an attribute ([Steps], [Threads]),
      not inside one.  The update of a dictionary ([span.meta[k] = v])
      is one access: Python reads the attribute [meta], which yields
      the dictionary object, and stores the item into that object in
      place under the interpreter lock; since the context never
      rebinds [meta] or [metrics], a switch between the two leaves the
      same dictionary, and the update is that of the record.  The
      seven assignments of [__init__] are one allocation: the object
      is not shared before the constructor returns.  The schedules of
      [Units] and of the atomicity theorem of [Threads] hold no call
      that allocates: the reference a new object gets depends on the
      order of allocation, so a thread alone and a thread in the pool
      name the new object differently.  [Robust] has no such limit.
    - Values other than [None], integers and strings, and user-defined
      [__eq__] or [__bool__] on spans: [Span] defines neither, so a
      span is truthy and compares by identity. *)

From stdpp Require Export base option gmap strings.
From Stdlib Require Export ZArith.

(** ** Python values

    The scalar values the context stores and forwards without looking
    inside them: [None], integers (trace and span ids, sampling
    priorities) and strings (the origin tag). *)

Inductive value : Type :=
| VNone
| VInt (n : Z)
| VStr (s : string).

#[export] Instance value_eq_dec : EqDecision value.
Proof. solve_decision. Defined.

#[export] Instance value_inhabited : Inhabited value := populate VNone.

(** [x is None] *)
Definition is_None (v : value) : bool :=
  match v with VNone => true | _ => false end.

(** Python's truth-value testing, [if x:]. *)
Class Truthy (A : Type) := truthy : A -> bool.
#[global] Hint Mode Truthy ! : typeclass_instances.

#[export] Instance value_truthy : Truthy value := fun v =>
  match v with
  | VNone => false
  | VInt n => negb (Z.eqb n 0)
  | VStr s => negb (String.eqb s "")
  end.

(** A variable that holds [None] or an object without [__bool__] and
    [__len__]: only [None] is false. *)
#[export] Instance option_truthy {A} : Truthy (option A) := fun o =>
  match o with Some _ => true | None => false end.

(** [a == b] on [None] or objects that do not define [__eq__]: identity. *)
Definition py_eq {A} `{EqDecision A} (a b : option A) : bool :=
  bool_decide (a = b).

(** ** Exceptions and results *)

Inductive exn : Type :=
| AttributeError (attr : string)   (* attribute access on [None] *)
| InvalidReference.                (* a reference to no object: never
                                      built by Python, a stuck model state *)

#[export] Instance exn_eq_dec : EqDecision exn.
Proof. solve_decision. Defined.

Inductive result (A : Type) : Type :=
| Ok (a : A)
| Raise (e : exn).
Arguments Ok {A} a.
Arguments Raise {A} e.

Definition is_Ok {A} (r : result A) : bool :=
  match r with Ok _ => true | Raise _ => false end.

(** ** The monad of methods

    A method is a function from the state before the call to its outcome
    and the state after it.  The state survives an exception: what a
    method wrote before it raised stays written, as in Python. *)

Definition M (St A : Type) : Type := St -> result A * St.

Section monad.
Context {St : Type}.

Definition ret {A} (a : A) : M St A := fun w => (Ok a, w).

Definition bind {A B} (c : M St A) (k : A -> M St B) : M St B := fun w =>
  match c w with
  | (Ok a, w') => k a w'
  | (Raise e, w') => (Raise e, w')
  end.

Definition raise {A} (e : exn) : M St A := fun w => (Raise e, w).

Definition gets {A} (f : St -> A) : M St A := fun w => (Ok (f w), w).

Definition modify (f : St -> St) : M St unit := fun w => (Ok tt, f w).

(** [if b: c] with no [else]. *)
Definition when (b : bool) (c : M St unit) : M St unit :=
  if b then c else ret tt.

(** [try: c finally: h]: the handler runs whatever the outcome of [c];
    the outcome of [c] is the outcome of the block, unless the handler
    raises. *)
Definition finally {A} (c : M St A) (h : M St unit) : M St A := fun w =>
  let '(r, w1) := c w in
  match h w1 with
  | (Ok _, w2) => (r, w2)
  | (Raise e, w2) => (Raise e, w2)
  end.

(** The state after a call, whatever its outcome. *)
Definition exec {A} (c : M St A) (w : St) : St := snd (c w).

(** The outcome of a call. *)
Definition eval {A} (c : M St A) (w : St) : result A := fst (c w).

End monad.

Declare Scope py_scope.
Delimit Scope py_scope with py.
Notation "x <- c ;; k" := (bind c (fun x => k))
  (at level 100, c at next level, k at level 200, right associativity) : py_scope.
Notation "c ;; k" := (bind c (fun _ => k))
  (at level 100, k at level 200, right associativity) : py_scope.
Open Scope py_scope.

(** ** Laws of the monad and run lemmas *)

Section monad_laws.
Context {St : Type}.
Implicit Types w : St.

Lemma bind_ret_l {A B} (a : A) (k : A -> M St B) w :
  (x <- ret a ;; k x) w = k a w.
Proof. reflexivity. Qed.

Lemma bind_ret_r {A} (c : M St A) w :
  (x <- c ;; ret x) w = c w.
Proof. unfold bind, ret. by destruct (c w) as [[]]. Qed.

Lemma bind_assoc {A B C} (c : M St A) (k : A -> M St B) (h : B -> M St C) w :
  (y <- (x <- c ;; k x) ;; h y) w = (x <- c ;; y <- k x ;; h y) w.
Proof. unfold bind. by destruct (c w) as [[]]. Qed.

Lemma bind_raise {A B} (e : exn) (k : A -> M St B) w :
  (x <- raise e ;; k x) w = (Raise e, w).
Proof. reflexivity. Qed.

Lemma run_bind_Ok {A B} (c : M St A) (k : A -> M St B) w a w' :
  c w = (Ok a, w') -> (x <- c ;; k x) w = k a w'.
Proof. unfold bind. by intros ->. Qed.

Lemma run_bind_Raise {A B} (c : M St A) (k : A -> M St B) w e w' :
  c w = (Raise e, w') -> (x <- c ;; k x) w = (Raise e, w').
Proof. unfold bind. by intros ->. Qed.

(** A sequence succeeds exactly when both halves do. *)
Lemma run_bind_inv {A B} (c : M St A) (k : A -> M St B) w b w2 :
  (x <- c ;; k x) w = (Ok b, w2) <->
  exists a w1, c w = (Ok a, w1) /\ k a w1 = (Ok b, w2).
Proof.
  unfold bind. split.
  - destruct (c w) as [[a|e] w1]; [eauto | discriminate].
  - by intros (a & w1 & -> & ?).
Qed.

(** The same facts in the shape symbolic execution applies them: the
    outcome of the whole is the outcome of the continuation. *)
Lemma run_seq {A B} (c : M St A) (k : A -> M St B) w a w1 res :
  c w = (Ok a, w1) -> k a w1 = res -> (x <- c ;; k x) w = res.
Proof. intros Hc <-. by apply run_bind_Ok. Qed.

Lemma run_when_true (b : bool) (c : M St unit) w res :
  b = true -> c w = res -> when b c w = res.
Proof. by intros -> <-. Qed.

Lemma run_when_false (b : bool) (c : M St unit) w :
  b = false -> when b c w = (Ok tt, w).
Proof. by intros ->. Qed.

Lemma run_if_true {A} (b : bool) (c1 c2 : M St A) w res :
  b = true -> c1 w = res -> (if b then c1 else c2) w = res.
Proof. by intros -> <-. Qed.

Lemma run_if_false {A} (b : bool) (c1 c2 : M St A) w res :
  b = false -> c2 w = res -> (if b then c1 else c2) w = res.
Proof. by intros -> <-. Qed.

Lemma run_finally {A} (c : M St A) (h : M St unit) w r w1 w2 :
  c w = (r, w1) -> h w1 = (Ok tt, w2) -> finally c h w = (r, w2).
Proof. unfold finally. by intros -> ->. Qed.

Lemma eval_intro {A} (c : M St A) w res w' : c w = (res, w') -> eval c w = res.
Proof. unfold eval. by intros ->. Qed.

Lemma exec_intro {A} (c : M St A) w res w' : c w = (res, w') -> exec c w = w'.
Proof. unfold exec. by intros ->. Qed.

Lemma when_true (c : M St unit) : when true c = c.
Proof. reflexivity. Qed.

Lemma when_false (c : M St unit) : when false c = ret tt.
Proof. reflexivity. Qed.

End monad_laws.

(** ** Facts on values shared by the components *)

Lemma is_None_true v : is_None v = true <-> v = VNone.
Proof. destruct v; simpl; split; congruence. Qed.

Lemma is_None_false v : is_None v = false <-> v <> VNone.
Proof. destruct v; simpl; split; congruence. Qed.

Lemma truthy_not_None (v : value) : truthy v = true -> v <> VNone.
Proof. by destruct v. Qed.

Lemma truthy_Some {A} (x : A) : truthy (Some x) = true.
Proof. reflexivity. Qed.

Lemma truthy_None {A} : truthy (@None A) = false.
Proof. reflexivity. Qed.

Lemma truthy_option {A} (o : option A) : truthy o = true <-> is_Some o.
Proof. destruct o; split; first [done | by intros []]. Qed.

Lemma py_eq_true {A} `{EqDecision A} (a b : option A) :
  py_eq a b = true <-> a = b.
Proof. unfold py_eq. by rewrite bool_decide_eq_true. Qed.

Lemma py_eq_false {A} `{EqDecision A} (a b : option A) :
  py_eq a b = false <-> a <> b.
Proof. unfold py_eq. by rewrite bool_decide_eq_false. Qed.

Lemma py_eq_refl {A} `{EqDecision A} (a : option A) : py_eq a a = true.
Proof. by apply py_eq_true. Qed.

(** ** Facts on stores *)

(** Allocation at a fresh key leaves every object in place. *)
Lemma lookup_insert_fresh `{Countable K, Infinite K} {A} (m : gmap K A) k x y :
  m !! k = Some x -> <[fresh (dom m) := y]> m !! k = Some x.
Proof.
  intros Hk. rewrite lookup_insert_ne; [done|].
  intros Heq. apply (is_fresh (dom m)). rewrite Heq. apply elem_of_dom. by eexists.
Qed.

Lemma fresh_ne `{Countable K, Infinite K} {A} (m : gmap K A) k x :
  m !! k = Some x -> fresh (dom m) <> k.
Proof.
  intros Hk Heq. apply (is_fresh (dom m)). rewrite Heq. apply elem_of_dom.
  by eexists.
Qed.

Lemma lookup_fresh `{Countable K, Infinite K} {A} (m : gmap K A) :
  m !! fresh (dom m) = None.
Proof. apply not_elem_of_dom, is_fresh. Qed.

(** Two maps that agree at a key still agree there after the same
    write to both. *)
Lemma lookup_insert_agree `{Countable K} {A} (m1 m2 : gmap K A) i x j :
  m1 !! j = m2 !! j -> <[i := x]> m1 !! j = <[i := x]> m2 !! j.
Proof.
  intros Hj. destruct (decide (i = j)) as [->|];
    [by rewrite !lookup_insert_eq | by rewrite !lookup_insert_ne].
Qed.

Lemma lookup_alter_agree `{Countable K} {A} (f : A -> A) (m1 m2 : gmap K A) i j :
  m1 !! j = m2 !! j -> alter f i m1 !! j = alter f i m2 !! j.
Proof.
  intros Hj. destruct (decide (i = j)) as [->|];
    [by rewrite !lookup_alter_eq, Hj | by rewrite !lookup_alter_ne].
Qed.

(** ** Automation *)

Create HintDb py discriminated.
Create Rewrite HintDb py.
#[export] Hint Rewrite @truthy_Some @truthy_None @py_eq_refl @when_true @when_false : py.

(** The head constant of an application. *)
Ltac head_of t :=
  lazymatch t with
  | ?f _ => head_of f
  | _ => t
  end.

(** Rewrite with every equation of the context whose left-hand side
    occurs in the goal and is not a variable. *)
Ltac rewrite_hyps :=
  repeat match goal with
  | H : ?x = _ |- context [?x] => tryif is_var x then fail else rewrite H
  end.

(** Decide a condition ([b = true] or [b = false]) from the equations of
    the context. *)
Ltac py_cond :=
  cbn; rewrite_hyps; cbn;
  first
    [ reflexivity
    | apply py_eq_refl
    | apply py_eq_false; congruence
    | apply py_eq_true; congruence
    | apply negb_true_iff, py_eq_false; congruence
    | apply is_None_false; congruence
    | apply negb_true_iff, is_None_false; congruence ].

(** Case analysis on the scrutinee of the first [match] or [if] of the goal. *)
Ltac case_goal :=
  match goal with
  | |- context [match ?x with _ => _ end] => destruct x eqn:?
  end.
