(* ===== verification/Span.v ===== *)
(** * Span: the collaborator of the context

    [ddtrace/span.py] and [ddtrace/constants.py] are not part of the
    sources; this file models what [context.py] uses of them: object
    references, the two tag keys, and the six attributes of a span that
    the context reads or writes ([trace_id], [span_id], [_parent],
    [meta], [metrics], [_context]). *)

From S2P Require Import Prelude.

(** ** References

    The identity of a [Span] object and of a [Context] object.  Two
    references are equal exactly when they denote the same object
    (Python's [is]). *)

Record sref : Type := SRef { sref_id : positive }.
Record cref : Type := CRef { cref_id : positive }.

#[export] Instance sref_eq_dec : EqDecision sref.
Proof. solve_decision. Defined.
#[export] Instance cref_eq_dec : EqDecision cref.
Proof. solve_decision. Defined.

#[export] Instance sref_countable : Countable sref.
Proof. by apply (inj_countable' sref_id SRef); intros []. Defined.
#[export] Instance cref_countable : Countable cref.
Proof. by apply (inj_countable' cref_id CRef); intros []. Defined.

#[export] Program Instance sref_infinite : Infinite sref :=
  inj_infinite SRef (fun r => Some (sref_id r)) _.
Next Obligation. done. Qed.
#[export] Program Instance cref_infinite : Infinite cref :=
  inj_infinite CRef (fun r => Some (cref_id r)) _.
Next Obligation. done. Qed.

(** ** The constants module

    [context.py] imports [ORIGIN_KEY] and [SAMPLING_PRIORITY_KEY] and
    never looks at their contents: the development is parametric in
    them. *)

Class TagKeys : Type := {
  ORIGIN_KEY : string;
  SAMPLING_PRIORITY_KEY : string;
}.

(** The values the library ships. *)
Definition ddtrace_keys : TagKeys :=
  {| ORIGIN_KEY := "_dd.origin";
     SAMPLING_PRIORITY_KEY := "_sampling_priority_v1" |}.

(** ** Span objects *)

Record Span : Type := mkSpan {
  trace_id : value;
  span_id : value;
  _parent : option sref;
  meta : gmap string value;
  metrics : gmap string value;
  _context : option cref;
}.

#[export] Instance Span_eq_dec : EqDecision Span.
Proof. solve_decision. Defined.

(** Attribute and item assignment. *)

Definition set_meta (f : gmap string value -> gmap string value) (s : Span) : Span :=
  {| trace_id := trace_id s; span_id := span_id s; _parent := _parent s;
     meta := f (meta s); metrics := metrics s; _context := _context s |}.

Definition set_metrics (f : gmap string value -> gmap string value) (s : Span) : Span :=
  {| trace_id := trace_id s; span_id := span_id s; _parent := _parent s;
     meta := meta s; metrics := f (metrics s); _context := _context s |}.

Definition set__context (c : option cref) (s : Span) : Span :=
  {| trace_id := trace_id s; span_id := span_id s; _parent := _parent s;
     meta := meta s; metrics := metrics s; _context := c |}.

(** [d[k] = v] *)
Definition setitem (k : string) (v : value) (d : gmap string value) : gmap string value :=
  <[k := v]> d.

(** A span as its constructor leaves it: ids and parent given, no tags,
    no context yet. *)
Definition Span__init__ (tid sid : value) (parent : option sref) : Span :=
  {| trace_id := tid; span_id := sid; _parent := parent;
     meta := ∅; metrics := ∅; _context := None |}.

(** ** Lemmas on the setters *)

Lemma setitem_lookup k v d : setitem k v d !! k = Some v.
Proof. apply lookup_insert_eq. Qed.

Lemma setitem_lookup_ne k k' v d : k <> k' -> setitem k v d !! k' = d !! k'.
Proof. apply lookup_insert_ne. Qed.

Lemma setitem_setitem k v v' d : setitem k v (setitem k v' d) = setitem k v d.
Proof. apply insert_insert_eq. Qed.

Lemma Span_eta s :
  {| trace_id := trace_id s; span_id := span_id s; _parent := _parent s;
     meta := meta s; metrics := metrics s; _context := _context s |} = s.
Proof. by destruct s. Qed.

#[export] Hint Unfold set_meta set_metrics set__context : py.
#[export] Hint Rewrite setitem_lookup setitem_setitem Span_eta : py.
