(* ===== verification/Objects.v ===== *)
(** * The object graph: contexts, spans and the store that holds them

    The attributes of a [Context] object (assigned in [Context.__init__],
    context.py lines 18-24), the store of all [Span] and [Context]
    objects, and attribute access through a reference.  A span and a
    context point at each other, and several variables may hold the same
    span: methods therefore read and write objects in the store, they
    never copy them. *)

From S2P Require Import Prelude Span.

(** ** Context objects: one field per attribute *)

Record Context : Type := mkContext {
  _active_span : option sref;
  _trace_root_span_id : value;
  _local_root_span : option sref;
  _trace_id : value;
  _active_span_id : value;
  _sampling_priority : value;
  _dd_origin : value;
}.

#[export] Instance Context_eq_dec : EqDecision Context.
Proof. solve_decision. Defined.

(** Attribute assignment [self.f = v], one function per attribute. *)

Definition set__active_span (v : option sref) (c : Context) : Context :=
  {| _active_span := v; _trace_root_span_id := _trace_root_span_id c;
     _local_root_span := _local_root_span c; _trace_id := _trace_id c;
     _active_span_id := _active_span_id c;
     _sampling_priority := _sampling_priority c; _dd_origin := _dd_origin c |}.

Definition set__trace_root_span_id (v : value) (c : Context) : Context :=
  {| _active_span := _active_span c; _trace_root_span_id := v;
     _local_root_span := _local_root_span c; _trace_id := _trace_id c;
     _active_span_id := _active_span_id c;
     _sampling_priority := _sampling_priority c; _dd_origin := _dd_origin c |}.

Definition set__local_root_span (v : option sref) (c : Context) : Context :=
  {| _active_span := _active_span c; _trace_root_span_id := _trace_root_span_id c;
     _local_root_span := v; _trace_id := _trace_id c;
     _active_span_id := _active_span_id c;
     _sampling_priority := _sampling_priority c; _dd_origin := _dd_origin c |}.

Definition set__trace_id (v : value) (c : Context) : Context :=
  {| _active_span := _active_span c; _trace_root_span_id := _trace_root_span_id c;
     _local_root_span := _local_root_span c; _trace_id := v;
     _active_span_id := _active_span_id c;
     _sampling_priority := _sampling_priority c; _dd_origin := _dd_origin c |}.

Definition set__active_span_id (v : value) (c : Context) : Context :=
  {| _active_span := _active_span c; _trace_root_span_id := _trace_root_span_id c;
     _local_root_span := _local_root_span c; _trace_id := _trace_id c;
     _active_span_id := v;
     _sampling_priority := _sampling_priority c; _dd_origin := _dd_origin c |}.

Definition set__sampling_priority (v : value) (c : Context) : Context :=
  {| _active_span := _active_span c; _trace_root_span_id := _trace_root_span_id c;
     _local_root_span := _local_root_span c; _trace_id := _trace_id c;
     _active_span_id := _active_span_id c;
     _sampling_priority := v; _dd_origin := _dd_origin c |}.

Definition set__dd_origin (v : value) (c : Context) : Context :=
  {| _active_span := _active_span c; _trace_root_span_id := _trace_root_span_id c;
     _local_root_span := _local_root_span c; _trace_id := _trace_id c;
     _active_span_id := _active_span_id c;
     _sampling_priority := _sampling_priority c; _dd_origin := v |}.

(** ** The store *)

Record world : Type := World {
  spans : gmap sref Span;
  ctxs : gmap cref Context;
}.

Definition empty_world : world := {| spans := ∅; ctxs := ∅ |}.

Definition upd_ctxs (f : gmap cref Context -> gmap cref Context) (w : world) : world :=
  {| spans := spans w; ctxs := f (ctxs w) |}.

Definition upd_spans (f : gmap sref Span -> gmap sref Span) (w : world) : world :=
  {| spans := f (spans w); ctxs := ctxs w |}.

(** ** Attribute access through a reference *)

(** [self.f], [self] a context. *)
Definition getattr_ctx {A} (self : cref) (f : Context -> A) : M world A := fun w =>
  match ctxs w !! self with
  | Some c => (Ok (f c), w)
  | None => (Raise InvalidReference, w)
  end.

(** [self.f = v], [self] a context. *)
Definition setattr_ctx (self : cref) (upd : Context -> Context) : M world unit := fun w =>
  match ctxs w !! self with
  | Some c => (Ok tt, upd_ctxs <[self := upd c]> w)
  | None => (Raise InvalidReference, w)
  end.

(** A new context object: a reference no object has yet. *)
Definition alloc_ctx (c : Context) : M world cref := fun w =>
  let r := fresh (dom (ctxs w)) in (Ok r, upd_ctxs <[r := c]> w).

(** [span.attr], where [span] holds [None] or a span: reading an
    attribute of [None] raises [AttributeError]. *)
Definition getattr_span {A} (span : option sref) (attr : string) (f : Span -> A)
    : M world A := fun w =>
  match span with
  | None => (Raise (AttributeError attr), w)
  | Some r =>
      match spans w !! r with
      | Some s => (Ok (f s), w)
      | None => (Raise InvalidReference, w)
      end
  end.

(** [span.attr = v] and [span.attr[k] = v]. *)
Definition setattr_span (span : option sref) (attr : string) (upd : Span -> Span)
    : M world unit := fun w =>
  match span with
  | None => (Raise (AttributeError attr), w)
  | Some r =>
      match spans w !! r with
      | Some s => (Ok tt, upd_spans <[r := upd s]> w)
      | None => (Raise InvalidReference, w)
      end
  end.

(** A new span object. *)
Definition alloc_span (s : Span) : M world sref := fun w =>
  let r := fresh (dom (spans w)) in (Ok r, upd_spans <[r := s]> w).

(** ** Run lemmas: what each access does on a store that holds the object *)

Section run.
Implicit Types (w : world) (self : cref) (r : sref) (c : Context) (s : Span).

Lemma getattr_ctx_run {A} self (f : Context -> A) w c :
  ctxs w !! self = Some c -> getattr_ctx self f w = (Ok (f c), w).
Proof. unfold getattr_ctx. by intros ->. Qed.

Lemma setattr_ctx_run self upd w c :
  ctxs w !! self = Some c ->
  setattr_ctx self upd w = (Ok tt, upd_ctxs <[self := upd c]> w).
Proof. unfold setattr_ctx. by intros ->. Qed.

Lemma getattr_span_run {A} r attr (f : Span -> A) w s :
  spans w !! r = Some s -> getattr_span (Some r) attr f w = (Ok (f s), w).
Proof. unfold getattr_span. by intros ->. Qed.

Lemma setattr_span_run r attr upd w s :
  spans w !! r = Some s ->
  setattr_span (Some r) attr upd w = (Ok tt, upd_spans <[r := upd s]> w).
Proof. unfold setattr_span. by intros ->. Qed.

Lemma getattr_span_None {A} attr (f : Span -> A) w :
  getattr_span None attr f w = (Raise (AttributeError attr), w).
Proof. reflexivity. Qed.

Lemma setattr_span_None attr upd w :
  setattr_span None attr upd w = (Raise (AttributeError attr), w).
Proof. reflexivity. Qed.

End run.

(** ** Stores after updates *)

Lemma ctxs_upd_ctxs f w : ctxs (upd_ctxs f w) = f (ctxs w).
Proof. reflexivity. Qed.
Lemma spans_upd_ctxs f w : spans (upd_ctxs f w) = spans w.
Proof. reflexivity. Qed.
Lemma ctxs_upd_spans f w : ctxs (upd_spans f w) = ctxs w.
Proof. reflexivity. Qed.
Lemma spans_upd_spans f w : spans (upd_spans f w) = f (spans w).
Proof. reflexivity. Qed.

Lemma upd_ctxs_upd_ctxs f g w : upd_ctxs f (upd_ctxs g w) = upd_ctxs (f ∘ g) w.
Proof. reflexivity. Qed.
Lemma upd_spans_upd_spans f g w : upd_spans f (upd_spans g w) = upd_spans (f ∘ g) w.
Proof. reflexivity. Qed.

Lemma world_eq w w' : spans w = spans w' -> ctxs w = ctxs w' -> w = w'.
Proof. destruct w, w'; simpl; congruence. Qed.

Lemma Context_eta c :
  {| _active_span := _active_span c; _trace_root_span_id := _trace_root_span_id c;
     _local_root_span := _local_root_span c; _trace_id := _trace_id c;
     _active_span_id := _active_span_id c;
     _sampling_priority := _sampling_priority c; _dd_origin := _dd_origin c |} = c.
Proof. by destruct c. Qed.

#[export] Hint Unfold set__active_span set__trace_root_span_id set__local_root_span
  set__trace_id set__active_span_id set__sampling_priority set__dd_origin : py.

#[export] Hint Rewrite ctxs_upd_ctxs spans_upd_ctxs ctxs_upd_spans spans_upd_spans
  Context_eta : py.

(** ** Symbolic execution

    [py_eval] proves [c w = res], where [res] may be left open, for a
    method [c] and a store [w] of which the hypotheses say which objects
    it holds and which way the conditions go.  It follows the method
    statement by statement: a sequence runs its first half and continues
    in the state that half left, an attribute access reads the store
    through the hypotheses and the writes already made, a method call is
    unfolded.  [py_done] then compares the store reached with the store
    claimed. *)

Ltac py_ne :=
  first [ congruence
        | eapply fresh_ne; eassumption
        | apply not_eq_sym; eapply fresh_ne; eassumption ].

Ltac py_lookup :=
  cbn [spans ctxs upd_ctxs upd_spans];
  repeat first
    [ rewrite insert_insert_eq
    | rewrite lookup_insert_eq
    | rewrite lookup_insert_ne by py_ne
    | match goal with H : _ !! _ = _ |- _ => rewrite H end ];
  try reflexivity.

(** Attributes of records built by the setters. *)
Ltac py_values :=
  cbn [_active_span _trace_root_span_id _local_root_span _trace_id
       _active_span_id _sampling_priority _dd_origin
       set__active_span set__trace_root_span_id set__local_root_span
       set__trace_id set__active_span_id set__sampling_priority set__dd_origin
       Span.trace_id Span.span_id _parent meta metrics _context
       set_meta set_metrics set__context].

Ltac py_eval :=
  lazymatch goal with
  | |- bind _ _ _ = _ =>
      first [ eapply run_seq; [py_eval | cbv beta; py_values; py_eval]
            | eapply run_bind_Raise; py_eval ]
  | |- ret _ _ = _ => reflexivity
  | |- raise _ _ = _ => reflexivity
  | |- when _ _ _ = _ =>
      first [ eapply run_when_true; [py_cond | py_eval]
            | eapply run_when_false; py_cond ]
  | |- (if _ then _ else _) _ = _ =>
      first [ eapply run_if_true; [py_cond | py_eval]
            | eapply run_if_false; [py_cond | py_eval] ]
  | |- getattr_ctx _ _ _ = _ => eapply getattr_ctx_run; py_lookup
  | |- setattr_ctx _ _ _ = _ => eapply setattr_ctx_run; py_lookup
  | |- getattr_span None _ _ _ = _ => reflexivity
  | |- setattr_span None _ _ _ = _ => reflexivity
  | |- getattr_span _ _ _ _ = _ =>
      first [ eapply getattr_span_run; py_lookup
            | progress rewrite_hyps; py_eval ]
  | |- setattr_span _ _ _ _ = _ =>
      first [ eapply setattr_span_run; py_lookup
            | progress rewrite_hyps; py_eval ]
  | |- alloc_ctx _ _ = _ => reflexivity
  | |- alloc_span _ _ = _ => reflexivity
  | |- ?c _ = _ => let h := head_of c in progress unfold h; py_eval
  end.

(** Two stores are equal when they hold the same objects. *)
Ltac py_done :=
  first
    [ reflexivity
    | try (f_equal; []);
      apply world_eq; cbn;
      rewrite ?insert_insert_eq;
      autounfold with py; cbn;
      rewrite_hyps; autorewrite with py; try reflexivity ].

Ltac py_run := etrans; [py_eval | py_done].
