(* ===== verification/Context.v ===== *)
(** * Context: the methods of [ddtrace.context.Context]

    One definition per method of the class (context.py lines 12-109),
    written in the monad of the prelude over the store of [Objects], and
    the theorems that say what each method does on every branch, the
    exceptions included.  The examples at the end run the methods by
    computation. *)

From S2P Require Import Prelude Span Objects.

Section methods.
Context {keys : TagKeys}.
Implicit Types (self : cref) (span : option sref) (v : value).

(** ** Construction (lines 13-24) *)

(** The attributes [__init__] assigns. *)
Definition __init__ (trace_id span_id sampling_priority dd_origin : value) : Context :=
  {| _active_span := None;
     _trace_root_span_id := VNone;
     _local_root_span := None;
     _trace_id := trace_id;
     _active_span_id := span_id;
     _sampling_priority := sampling_priority;
     _dd_origin := dd_origin |}.

(** The expression [Context(trace_id=.., span_id=.., ..)]: a new object
    initialised by [__init__].  An omitted argument is [VNone]. *)
Definition new (trace_id span_id sampling_priority dd_origin : value) : M world cref :=
  alloc_ctx (__init__ trace_id span_id sampling_priority dd_origin).

(** ** Properties (lines 26-54) *)

Definition sampling_priority self : M world value :=
  getattr_ctx self _sampling_priority.

Definition sampling_priority_setter self v : M world unit :=
  root <- getattr_ctx self _local_root_span ;;
  when (truthy root)
    (root' <- getattr_ctx self _local_root_span ;;
     setattr_span root' "metrics" (set_metrics (setitem SAMPLING_PRIORITY_KEY v))) ;;
  setattr_ctx self (set__sampling_priority v).

Definition dd_origin self : M world value :=
  getattr_ctx self _dd_origin.

Definition dd_origin_setter self v : M world unit :=
  root <- getattr_ctx self _local_root_span ;;
  when (truthy root)
    (root' <- getattr_ctx self _local_root_span ;;
     setattr_span root' "meta" (set_meta (setitem ORIGIN_KEY v))) ;;
  setattr_ctx self (set__dd_origin v).

Definition trace_id self : M world value :=
  getattr_ctx self _trace_id.

Definition span_id self : M world value :=
  getattr_ctx self _active_span_id.

(** ** clone (lines 56-64) *)

Definition clone self : M world cref :=
  tid <- getattr_ctx self _trace_id ;;
  sid <- getattr_ctx self _active_span_id ;;
  p <- sampling_priority self ;;
  o <- dd_origin self ;;
  new_ctx <- new tid sid p o ;;
  sid' <- getattr_ctx self _active_span_id ;;
  setattr_ctx new_ctx (set__active_span_id sid') ;;
  ret new_ctx.

(** ** Current spans (lines 66-89) *)

Definition get_current_root_span self : M world (option sref) :=
  getattr_ctx self _local_root_span.

Definition get_current_span self : M world (option sref) :=
  getattr_ctx self _active_span.

Definition _set_current_span self span : M world unit :=
  setattr_ctx self (set__active_span span) ;;
  if truthy span then
    tid <- getattr_span span "trace_id" Span.trace_id ;;
    setattr_ctx self (set__trace_id tid) ;;
    sid <- getattr_span span "span_id" Span.span_id ;;
    setattr_ctx self (set__active_span_id sid)
  else
    setattr_ctx self (set__active_span_id VNone).

(** ** add_span (lines 91-101) *)

Definition add_span self span : M world unit :=
  parent <- getattr_span span "_parent" _parent ;;
  when (negb (truthy parent))
    (setattr_ctx self (set__local_root_span span) ;;
     o <- dd_origin self ;;
     when (negb (is_None o))
       (o' <- dd_origin self ;;
        setattr_span span "meta" (set_meta (setitem ORIGIN_KEY o'))) ;;
     p <- sampling_priority self ;;
     when (negb (is_None p))
       (p' <- sampling_priority self ;;
        setattr_span span "metrics" (set_metrics (setitem SAMPLING_PRIORITY_KEY p')))) ;;
  _set_current_span self span ;;
  setattr_span span "_context" (set__context (Some self)).

(** ** close_span (lines 103-109) *)

Definition close_span self span : M world unit :=
  root <- getattr_ctx self _local_root_span ;;
  when (py_eq span root)
    (setattr_ctx self (set__local_root_span None) ;;
     setattr_ctx self (set__trace_root_span_id VNone) ;;
     setattr_ctx self (set__trace_id VNone)) ;;
  parent <- getattr_span span "_parent" _parent ;;
  _set_current_span self parent.

(** ** Specification vocabulary *)

(** The dictionary [d] after a value seeded on the context was mirrored
    under key [k]: nothing is written for [None]. *)
Definition mirror (k : string) (v : value) (d : gmap string value) : gmap string value :=
  if is_None v then d else setitem k v d.

End methods.

(** ** What each method does

    Every theorem of this section gives the outcome of one call and the
    whole store after it, under hypotheses that say which objects the
    store holds and which branch is taken.  Objects the right-hand side
    does not mention are untouched. *)

Section behaviour.
Context {keys : TagKeys}.
Implicit Types (w : world) (self : cref) (r p : sref) (c : Context) (s : Span)
  (v : value).

(** C1. [add_span] on a span without parent makes it the local root and
    the active span of the context, takes the trace id and the active
    span id from it, mirrors the origin and the sampling priority seeded
    on the context into its [meta] and [metrics] (nothing is written for
    [None]; 0 and the empty string are written), and points the span
    back at the context. *)
Theorem add_span_root w self r c s :
  ctxs w !! self = Some c ->
  spans w !! r = Some s ->
  _parent s = None ->
  add_span self (Some r) w =
    (Ok tt,
     {| spans :=
          <[r := {| Span.trace_id := Span.trace_id s;
                    Span.span_id := Span.span_id s;
                    _parent := None;
                    meta := mirror ORIGIN_KEY (_dd_origin c) (meta s);
                    metrics :=
                      mirror SAMPLING_PRIORITY_KEY (_sampling_priority c) (metrics s);
                    _context := Some self |}]> (spans w);
        ctxs :=
          <[self := {| _active_span := Some r;
                       _trace_root_span_id := _trace_root_span_id c;
                       _local_root_span := Some r;
                       _trace_id := Span.trace_id s;
                       _active_span_id := Span.span_id s;
                       _sampling_priority := _sampling_priority c;
                       _dd_origin := _dd_origin c |}]> (ctxs w) |}).
Proof.
  intros Hc Hs Hp.
  destruct (_dd_origin c) eqn:Ho, (_sampling_priority c) eqn:Hp'; py_run.
Qed.

(** C2. [close_span] on the local root span ends the trace locally: the
    root, the trace id, the active span and the active span id are all
    cleared; the sampling priority and the origin stay, and no span is
    written. *)
Theorem close_span_root w self r c s :
  ctxs w !! self = Some c ->
  spans w !! r = Some s ->
  _local_root_span c = Some r ->
  _parent s = None ->
  close_span self (Some r) w =
    (Ok tt,
     {| spans := spans w;
        ctxs :=
          <[self := {| _active_span := None;
                       _trace_root_span_id := VNone;
                       _local_root_span := None;
                       _trace_id := VNone;
                       _active_span_id := VNone;
                       _sampling_priority := _sampling_priority c;
                       _dd_origin := _dd_origin c |}]> (ctxs w) |}).
Proof. intros Hc Hs Hr Hp. py_run. Qed.

(** C3. [close_span] on a span that is not the local root and has a
    parent makes the parent the active span again: the active span id and
    the trace id become the parent's, the local root stays. *)
Theorem close_span_restores_parent w self r p c s sp :
  ctxs w !! self = Some c ->
  spans w !! r = Some s ->
  _local_root_span c <> Some r ->
  _parent s = Some p ->
  spans w !! p = Some sp ->
  close_span self (Some r) w =
    (Ok tt,
     {| spans := spans w;
        ctxs :=
          <[self := {| _active_span := Some p;
                       _trace_root_span_id := _trace_root_span_id c;
                       _local_root_span := _local_root_span c;
                       _trace_id := Span.trace_id sp;
                       _active_span_id := Span.span_id sp;
                       _sampling_priority := _sampling_priority c;
                       _dd_origin := _dd_origin c |}]> (ctxs w) |}).
Proof. intros Hc Hs Hr Hp Hsp. py_run. Qed.

(** C4. [add_span] on a span that has a parent makes it the active span
    and takes its ids; the local root of the context is unchanged and
    nothing is mirrored into the span, which only gets its back
    reference to the context. *)
Theorem add_span_child w self r p c s :
  ctxs w !! self = Some c ->
  spans w !! r = Some s ->
  _parent s = Some p ->
  add_span self (Some r) w =
    (Ok tt,
     {| spans :=
          <[r := {| Span.trace_id := Span.trace_id s;
                    Span.span_id := Span.span_id s;
                    _parent := Some p;
                    meta := meta s;
                    metrics := metrics s;
                    _context := Some self |}]> (spans w);
        ctxs :=
          <[self := {| _active_span := Some r;
                       _trace_root_span_id := _trace_root_span_id c;
                       _local_root_span := _local_root_span c;
                       _trace_id := Span.trace_id s;
                       _active_span_id := Span.span_id s;
                       _sampling_priority := _sampling_priority c;
                       _dd_origin := _dd_origin c |}]> (ctxs w) |}).
Proof. intros Hc Hs Hp. py_run. Qed.

(** C5. Assigning [sampling_priority] while the context has a local root
    span stores the value on the context and writes it, whatever it is,
    into the root span's [metrics] under [SAMPLING_PRIORITY_KEY]. *)
Theorem sampling_priority_setter_mirrors w self r c s v :
  ctxs w !! self = Some c ->
  _local_root_span c = Some r ->
  spans w !! r = Some s ->
  sampling_priority_setter self v w =
    (Ok tt,
     {| spans :=
          <[r := {| Span.trace_id := Span.trace_id s;
                    Span.span_id := Span.span_id s;
                    _parent := _parent s;
                    meta := meta s;
                    metrics := <[SAMPLING_PRIORITY_KEY := v]> (metrics s);
                    _context := _context s |}]> (spans w);
        ctxs :=
          <[self := {| _active_span := _active_span c;
                       _trace_root_span_id := _trace_root_span_id c;
                       _local_root_span := Some r;
                       _trace_id := _trace_id c;
                       _active_span_id := _active_span_id c;
                       _sampling_priority := v;
                       _dd_origin := _dd_origin c |}]> (ctxs w) |}).
Proof. intros Hc Hr Hs. py_run. Qed.

(** C6. Assigning [dd_origin] while the context has a local root span
    stores the value on the context and writes it into the root span's
    [meta] under [ORIGIN_KEY]. *)
Theorem dd_origin_setter_mirrors w self r c s v :
  ctxs w !! self = Some c ->
  _local_root_span c = Some r ->
  spans w !! r = Some s ->
  dd_origin_setter self v w =
    (Ok tt,
     {| spans :=
          <[r := {| Span.trace_id := Span.trace_id s;
                    Span.span_id := Span.span_id s;
                    _parent := _parent s;
                    meta := <[ORIGIN_KEY := v]> (meta s);
                    metrics := metrics s;
                    _context := _context s |}]> (spans w);
        ctxs :=
          <[self := {| _active_span := _active_span c;
                       _trace_root_span_id := _trace_root_span_id c;
                       _local_root_span := Some r;
                       _trace_id := _trace_id c;
                       _active_span_id := _active_span_id c;
                       _sampling_priority := _sampling_priority c;
                       _dd_origin := v |}]> (ctxs w) |}).
Proof. intros Hc Hr Hs. py_run. Qed.

(** C7. Without a local root span the two setters only store the value
    on the context: no span is written. *)
Theorem setters_without_root w self c v :
  ctxs w !! self = Some c ->
  _local_root_span c = None ->
  sampling_priority_setter self v w =
    (Ok tt, {| spans := spans w;
               ctxs := <[self := set__sampling_priority v c]> (ctxs w) |}) /\
  dd_origin_setter self v w =
    (Ok tt, {| spans := spans w;
               ctxs := <[self := set__dd_origin v c]> (ctxs w) |}).
Proof. intros Hc Hr. split; py_run. Qed.

(** C8. [clone] returns a new context object that carries the trace id,
    the active span id, the sampling priority and the origin of the
    original and no reference to a span; the original and every span are
    left as they were. *)
Theorem clone_snapshot w self c :
  ctxs w !! self = Some c ->
  clone self w =
    (Ok (fresh (dom (ctxs w))),
     {| spans := spans w;
        ctxs :=
          <[fresh (dom (ctxs w)) :=
              {| _active_span := None;
                 _trace_root_span_id := VNone;
                 _local_root_span := None;
                 _trace_id := _trace_id c;
                 _active_span_id := _active_span_id c;
                 _sampling_priority := _sampling_priority c;
                 _dd_origin := _dd_origin c |}]> (ctxs w) |}).
Proof. intros Hc. py_run. Qed.

(** C9. A context built by the constructor answers its getters with the
    seeds it was given and has neither an active span nor a local root
    span. *)
Theorem new_seeds tid sid prio orig w :
  (self <- new tid sid prio orig ;;
   a <- trace_id self ;;
   b <- span_id self ;;
   x <- sampling_priority self ;;
   y <- dd_origin self ;;
   cur <- get_current_span self ;;
   root <- get_current_root_span self ;;
   ret (a, b, x, y, cur, root)) w =
    (Ok (tid, sid, prio, orig, None, None),
     upd_ctxs <[fresh (dom (ctxs w)) := __init__ tid sid prio orig]> w).
Proof. py_run. Qed.

(** C10. [close_span(None)] raises [AttributeError] when it reads
    [span._parent], after the comparison with the local root: on a
    context without local root span the comparison [None == None] holds
    and the trace id is already cleared when the exception leaves the
    method; with a local root span nothing is written. *)
Theorem close_span_None_raises w self c :
  ctxs w !! self = Some c ->
  close_span self None w =
    (Raise (AttributeError "_parent"),
     match _local_root_span c with
     | None =>
         {| spans := spans w;
            ctxs := <[self := {| _active_span := _active_span c;
                                 _trace_root_span_id := VNone;
                                 _local_root_span := None;
                                 _trace_id := VNone;
                                 _active_span_id := _active_span_id c;
                                 _sampling_priority := _sampling_priority c;
                                 _dd_origin := _dd_origin c |}]> (ctxs w) |}
     | Some _ => w
     end).
Proof.
  intros Hc. destruct (_local_root_span c) eqn:Hr; py_run.
Qed.

(** C11. [add_span(None)] raises [AttributeError] on its first
    statement and writes nothing. *)
Theorem add_span_None_raises w self :
  add_span self None w = (Raise (AttributeError "_parent"), w).
Proof. by py_eval. Qed.

(** C20. Value isolation of a clone, in both directions.  After
    [clone], assigning the sampling priority and the origin of the
    original, which may mirror them into its root span, leaves the
    values of the clone as they were copied; and assigning them on the
    clone changes neither the original nor any span, even when the
    original has a root span: the clone has none, so nothing is
    mirrored. *)
Theorem clone_isolation w self c v o :
  ctxs w !! self = Some c ->
  ((forall r, _local_root_span c = Some r -> is_Some (spans w !! r)) ->
   eval (c2 <- clone self ;;
         sampling_priority_setter self v ;;
         dd_origin_setter self o ;;
         p2 <- sampling_priority c2 ;;
         o2 <- dd_origin c2 ;;
         ret (p2, o2)) w =
     Ok (_sampling_priority c, _dd_origin c)) /\
  (c2 <- clone self ;;
   sampling_priority_setter c2 v ;;
   dd_origin_setter c2 o ;;
   ret c2) w =
    (Ok (fresh (dom (ctxs w))),
     {| spans := spans w;
        ctxs := <[fresh (dom (ctxs w)) :=
                    __init__ (_trace_id c) (_active_span_id c) v o]> (ctxs w) |}).
Proof.
  intros Hc. split; [|by py_run]. intros Hr.
  destruct (_local_root_span c) as [r|] eqn:Hroot;
    [destruct (Hr r eq_refl) as [s Hs]|];
    eapply eval_intro; py_eval.
Qed.

End behaviour.

(** ** Example runs

    A store with one context seeded with a sampling priority and an
    origin, a second context rebuilt from the headers of a remote caller,
    a root span and a child of it; the stores the methods lead to from
    there.  The library's own tag keys are used. *)

Section examples.
#[local] Existing Instance ddtrace_keys.

Definition ex_self : cref := CRef 1.
Definition ex_remote : cref := CRef 2.
Definition ex_root : sref := SRef 1.
Definition ex_child : sref := SRef 2.

Definition ex_root_span : Span := Span__init__ (VInt 42) (VInt 1) None.
Definition ex_child_span : Span := Span__init__ (VInt 42) (VInt 2) (Some ex_root).
Definition ex_ctx : Context := __init__ VNone VNone (VInt 2) (VStr "synthetics").
Definition ex_remote_ctx : Context := __init__ (VInt 42) (VInt 7) VNone VNone.

Definition ex_w0 : world :=
  {| spans := {[ ex_root := ex_root_span; ex_child := ex_child_span ]};
     ctxs := {[ ex_self := ex_ctx; ex_remote := ex_remote_ctx ]} |}.

(** The root span once [ex_self] has activated it. *)
Definition ex_root_span' : Span :=
  {| Span.trace_id := VInt 42; Span.span_id := VInt 1; _parent := None;
     meta := {[ "_dd.origin" := VStr "synthetics" ]};
     metrics := {[ "_sampling_priority_v1" := VInt 2 ]};
     _context := Some ex_self |}.

(** [ex_self] with the given active span and span id, inside the trace. *)
Definition ex_ctx_at (active : sref) (sid : Z) : Context :=
  {| _active_span := Some active; _trace_root_span_id := VNone;
     _local_root_span := Some ex_root; _trace_id := VInt 42;
     _active_span_id := VInt sid;
     _sampling_priority := VInt 2; _dd_origin := VStr "synthetics" |}.

(** After [add_span(root)]. *)
Definition ex_w1 : world :=
  {| spans := {[ ex_root := ex_root_span'; ex_child := ex_child_span ]};
     ctxs := {[ ex_self := ex_ctx_at ex_root 1; ex_remote := ex_remote_ctx ]} |}.

(** After [add_span(child)]. *)
Definition ex_w2 : world :=
  {| spans := {[ ex_root := ex_root_span';
                 ex_child := set__context (Some ex_self) ex_child_span ]};
     ctxs := {[ ex_self := ex_ctx_at ex_child 2; ex_remote := ex_remote_ctx ]} |}.

(** After [close_span(child)]. *)
Definition ex_w3 : world :=
  {| spans := spans ex_w2;
     ctxs := {[ ex_self := ex_ctx_at ex_root 1; ex_remote := ex_remote_ctx ]} |}.

(** After [close_span(root)]. *)
Definition ex_w4 : world :=
  {| spans := spans ex_w2;
     ctxs := {[ ex_self := ex_ctx; ex_remote := ex_remote_ctx ]} |}.

Lemma add_span_root_witness :
  add_span ex_self (Some ex_root) ex_w0 = (Ok tt, ex_w1).
Proof.
  exact (add_span_root ex_w0 ex_self ex_root ex_ctx ex_root_span
           eq_refl eq_refl eq_refl).
Defined.

Lemma add_span_child_witness :
  add_span ex_self (Some ex_child) ex_w1 = (Ok tt, ex_w2).
Proof.
  exact (add_span_child ex_w1 ex_self ex_child ex_root (ex_ctx_at ex_root 1)
           ex_child_span eq_refl eq_refl eq_refl).
Defined.

Lemma close_span_restores_parent_witness :
  close_span ex_self (Some ex_child) ex_w2 = (Ok tt, ex_w3).
Proof.
  refine (close_span_restores_parent ex_w2 ex_self ex_child ex_root
            (ex_ctx_at ex_child 2) (set__context (Some ex_self) ex_child_span)
            ex_root_span' eq_refl eq_refl _ eq_refl eq_refl).
  discriminate.
Defined.

Lemma close_span_root_witness :
  close_span ex_self (Some ex_root) ex_w3 = (Ok tt, ex_w4).
Proof.
  exact (close_span_root ex_w3 ex_self ex_root (ex_ctx_at ex_root 1) ex_root_span'
           eq_refl eq_refl eq_refl eq_refl).
Defined.

Lemma sampling_priority_setter_mirrors_witness :
  sampling_priority_setter ex_self (VInt 0) ex_w1 =
    (Ok tt,
     {| spans := {[ ex_root := set_metrics (fun _ => {[ "_sampling_priority_v1" := VInt 0 ]})
                                 ex_root_span';
                    ex_child := ex_child_span ]};
        ctxs := {[ ex_self := set__sampling_priority (VInt 0) (ex_ctx_at ex_root 1);
                   ex_remote := ex_remote_ctx ]} |}).
Proof.
  exact (sampling_priority_setter_mirrors ex_w1 ex_self ex_root (ex_ctx_at ex_root 1)
           ex_root_span' (VInt 0) eq_refl eq_refl eq_refl).
Defined.

Lemma dd_origin_setter_mirrors_witness :
  dd_origin_setter ex_self (VStr "rum") ex_w1 =
    (Ok tt,
     {| spans := {[ ex_root := set_meta (fun _ => {[ "_dd.origin" := VStr "rum" ]})
                                 ex_root_span';
                    ex_child := ex_child_span ]};
        ctxs := {[ ex_self := set__dd_origin (VStr "rum") (ex_ctx_at ex_root 1);
                   ex_remote := ex_remote_ctx ]} |}).
Proof.
  exact (dd_origin_setter_mirrors ex_w1 ex_self ex_root (ex_ctx_at ex_root 1)
           ex_root_span' (VStr "rum") eq_refl eq_refl eq_refl).
Defined.

Lemma setters_without_root_witness :
  sampling_priority_setter ex_remote (VInt 1) ex_w0 =
    (Ok tt, {| spans := spans ex_w0;
               ctxs := {[ ex_self := ex_ctx;
                          ex_remote := __init__ (VInt 42) (VInt 7) (VInt 1) VNone ]} |}) /\
  dd_origin_setter ex_remote (VInt 1) ex_w0 =
    (Ok tt, {| spans := spans ex_w0;
               ctxs := {[ ex_self := ex_ctx;
                          ex_remote := __init__ (VInt 42) (VInt 7) VNone (VInt 1) ]} |}).
Proof.
  exact (setters_without_root ex_w0 ex_remote ex_remote_ctx (VInt 1) eq_refl eq_refl).
Defined.

Lemma clone_snapshot_witness :
  clone ex_self ex_w2 =
    (Ok (CRef 3),
     {| spans := spans ex_w2;
        ctxs := {[ ex_self := ex_ctx_at ex_child 2; ex_remote := ex_remote_ctx;
                   CRef 3 := __init__ (VInt 42) (VInt 2) (VInt 2) (VStr "synthetics") ]} |}).
Proof. exact (clone_snapshot ex_w2 ex_self (ex_ctx_at ex_child 2) eq_refl). Defined.

Lemma close_span_None_raises_witness :
  close_span ex_remote None ex_w0 =
    (Raise (AttributeError "_parent"),
     {| spans := spans ex_w0;
        ctxs := {[ ex_self := ex_ctx;
                   ex_remote := __init__ VNone (VInt 7) VNone VNone ]} |}).
Proof. exact (close_span_None_raises ex_w0 ex_remote ex_remote_ctx eq_refl). Defined.

Lemma clone_isolation_witness :
  eval (c2 <- clone ex_self ;;
        sampling_priority_setter ex_self (VInt 0) ;;
        dd_origin_setter ex_self VNone ;;
        p2 <- sampling_priority c2 ;;
        o2 <- dd_origin c2 ;;
        ret (p2, o2)) ex_w1 =
    Ok (VInt 2, VStr "synthetics") /\
  (c2 <- clone ex_self ;;
   sampling_priority_setter c2 (VInt 0) ;;
   dd_origin_setter c2 VNone ;;
   ret c2) ex_w1 =
    (Ok (CRef 3),
     {| spans := spans ex_w1;
        ctxs := <[CRef 3 := __init__ (VInt 42) (VInt 1) (VInt 0) VNone]> (ctxs ex_w1) |}).
Proof.
  destruct (clone_isolation ex_w1 ex_self (ex_ctx_at ex_root 1) (VInt 0) VNone eq_refl)
    as [H1 H2].
  split; [apply H1 | exact H2]. intros r [= <-]. by eexists.
Defined.

End examples.
