(* ===== verification/Scenarios.v ===== *)
(** * Scenarios: the programs a test suite of the context runs

    Each definition is a short program over the methods of [Context]
    that ends by reading what a test would assert on; each theorem gives
    its result for every store, every context and every span that meet
    the stated shape, not for one input.  Two programs are uses the
    class does not detect: a root span closed before its child, and a
    context used again after its trace has ended.  The last program is
    the handoff of a clone to another execution unit that continues the
    trace under the current span of the original. *)

From S2P Require Import Prelude Span Objects Context.

Section programs.
Context {keys : TagKeys}.
Implicit Types (self : cref) (root child : sref) (v : value).

(** [span.metrics.get(k)] and [span.meta.get(k)]. *)
Definition span_metric (r : sref) (k : string) : M world (option value) :=
  m <- getattr_span (Some r) "metrics" metrics ;; ret (m !! k).

Definition span_tag (r : sref) (k : string) : M world (option value) :=
  m <- getattr_span (Some r) "meta" meta ;; ret (m !! k).

(** A root span, a child span, the child closed. *)
Definition nested_spans self root child : M world (option sref * option sref) :=
  add_span self (Some root) ;;
  add_span self (Some child) ;;
  close_span self (Some child) ;;
  cur <- get_current_span self ;;
  r <- get_current_root_span self ;;
  ret (cur, r).

(** A root span opened and closed. *)
Definition root_closed self root : M world (value * value * option sref * option sref) :=
  add_span self (Some root) ;;
  close_span self (Some root) ;;
  t <- trace_id self ;;
  i <- span_id self ;;
  cur <- get_current_span self ;;
  r <- get_current_root_span self ;;
  ret (t, i, cur, r).

(** The sampling priority decided before the root span exists. *)
Definition priority_then_root self root v : M world (option value) :=
  sampling_priority_setter self v ;;
  add_span self (Some root) ;;
  span_metric root SAMPLING_PRIORITY_KEY.

(** The origin set while the root span is open. *)
Definition root_then_origin self root v : M world (option value) :=
  add_span self (Some root) ;;
  dd_origin_setter self v ;;
  span_tag root ORIGIN_KEY.

(** Three spans opened one inside the other, the two inner ones closed. *)
Definition three_deep self root child1 child2 : M world (value * value) :=
  add_span self (Some root) ;;
  add_span self (Some child1) ;;
  add_span self (Some child2) ;;
  a <- span_id self ;;
  close_span self (Some child2) ;;
  close_span self (Some child1) ;;
  b <- span_id self ;;
  ret (a, b).

(** The root span closed while its child is open, then the child. *)
Definition root_closed_first self root child
    : M world (option sref * option sref * value * value) :=
  add_span self (Some root) ;;
  add_span self (Some child) ;;
  close_span self (Some root) ;;
  close_span self (Some child) ;;
  cur <- get_current_span self ;;
  r <- get_current_root_span self ;;
  t <- trace_id self ;;
  i <- span_id self ;;
  ret (cur, r, t, i).

(** A second root span added once the first trace has ended. *)
Definition context_reused self root root2
    : M world (option sref * value * option value) :=
  add_span self (Some root) ;;
  close_span self (Some root) ;;
  add_span self (Some root2) ;;
  r <- get_current_root_span self ;;
  t <- trace_id self ;;
  m <- span_metric root2 SAMPLING_PRIORITY_KEY ;;
  ret (r, t, m).

(** A clone is handed to another execution unit, which opens a span
    under the current span of the original and closes it. *)
Definition clone_handoff self child
    : M world (option sref * option value * option sref * value * option sref) :=
  c2 <- clone self ;;
  add_span c2 (Some child) ;;
  root2 <- get_current_root_span c2 ;;
  m <- span_metric child SAMPLING_PRIORITY_KEY ;;
  close_span c2 (Some child) ;;
  cur2 <- get_current_span c2 ;;
  i2 <- span_id c2 ;;
  cur <- get_current_span self ;;
  ret (root2, m, cur2, i2, cur).

End programs.

(** Evaluation of a program to its result: symbolic execution, then
    the dictionary lookups of the result. *)
Ltac py_result :=
  etrans;
  [ eapply eval_intro; py_eval
  | cbn; autounfold with py; cbn; rewrite_hyps; autorewrite with py; done ].

(** Symbolic execution from a context whose origin and sampling
    priority are not known: one run per combination of set and unset. *)
Ltac py_result_seeded c :=
  let Ho := fresh "Ho" in
  let Hp := fresh "Hp" in
  destruct (_dd_origin c) eqn:Ho, (_sampling_priority c) eqn:Hp; py_result.

Section results.
Context {keys : TagKeys}.
Implicit Types (w : world) (self : cref) (root child : sref) (c : Context)
  (s : Span) (v : value).

(** C28. Nested spans: after a root span and a child span were added
    and the child was closed, the current span is the root span and the
    root span of the context is still the root span; with a grandchild
    added as well, the active span id is the grandchild's, and after
    the grandchild and the child were closed it is the root span's. *)
Theorem nested_spans_result w self c root child1 child2 sr s1 s2 :
  ctxs w !! self = Some c ->
  spans w !! root = Some sr -> _parent sr = None ->
  spans w !! child1 = Some s1 -> _parent s1 = Some root ->
  eval (nested_spans self root child1) w = Ok (Some root, Some root) /\
  (spans w !! child2 = Some s2 -> _parent s2 = Some child1 ->
   eval (three_deep self root child1 child2) w =
     Ok (Span.span_id s2, Span.span_id sr)).
Proof.
  intros Hc Hr Hpr H1 Hp1. assert (root <> child1) by congruence.
  split; [by py_result_seeded c|]. intros H2 Hp2.
  assert (root <> child2) by congruence.
  assert (child1 <> child2) by congruence.
  py_result_seeded c.
Qed.

(** C29. A trace that has ended: after a root span was added and
    closed the context has no trace id, no active span id, no current
    span and no root span; it is then used again by the next parentless
    span without any reconstruction: that span becomes the root span,
    its trace id the trace id of the context, and the sampling priority
    decided for the first trace is written into its metrics. *)
Theorem context_reused_result w self c root root2 sr sr2 p :
  ctxs w !! self = Some c ->
  spans w !! root = Some sr -> _parent sr = None ->
  eval (root_closed self root) w = Ok (VNone, VNone, None, None) /\
  (_sampling_priority c = VInt p ->
   spans w !! root2 = Some sr2 -> _parent sr2 = None -> root <> root2 ->
   eval (context_reused self root root2) w =
     Ok (Some root2, Span.trace_id sr2, Some (VInt p))).
Proof.
  intros Hc Hr Hpr. split; [by py_result_seeded c|].
  intros Hp Hr2 Hpr2 Hne. destruct (_dd_origin c) eqn:Ho; py_result.
Qed.

(** C30. The metadata reaches the root span.  A sampling priority
    assigned before any span was added is in the metrics of the root
    span, under the sampling priority key, once the root span is
    added; an origin assigned while the root span is open is in its
    meta, under the origin key, as soon as the assignment returns, for
    every value, [None] included. *)
Theorem priority_then_root_result w self c root sr v o :
  ctxs w !! self = Some c ->
  spans w !! root = Some sr -> _parent sr = None ->
  (_local_root_span c = None -> v <> VNone ->
   eval (priority_then_root self root v) w = Ok (Some v)) /\
  eval (root_then_origin self root o) w = Ok (Some o).
Proof.
  intros Hc Hr Hpr. split; [|by py_result_seeded c].
  intros Hroot Hv. destruct (_dd_origin c) eqn:Ho; py_result.
Qed.

(** C31. Closing the root span while its child is open and then the
    child leaves the context with the closed root span as current span,
    with its span id and its trace id, and without root span: the trace
    that was ended is active again. *)
Theorem root_closed_first_result w self c root child sr sc :
  ctxs w !! self = Some c ->
  spans w !! root = Some sr -> _parent sr = None ->
  spans w !! child = Some sc -> _parent sc = Some root ->
  eval (root_closed_first self root child) w =
    Ok (Some root, None, Span.trace_id sr, Span.span_id sr).
Proof.
  intros Hc Hr Hpr Hch Hpc.
  assert (root <> child) by congruence. py_result_seeded c.
Qed.

(** C36. Handoff of a clone: when the unit that receives a clone opens
    a span whose parent is the current span of the original, the clone
    gets no root span (the span has a parent), so nothing is mirrored
    into the span; when that span is closed, the span of the original
    becomes the current span of the clone, with its span id.  The
    original keeps its current span throughout. *)
Theorem clone_handoff_result w self c p child sp sc :
  ctxs w !! self = Some c -> _active_span c = Some p ->
  spans w !! p = Some sp ->
  spans w !! child = Some sc -> _parent sc = Some p -> p <> child ->
  eval (clone_handoff self child) w =
    Ok (None, metrics sc !! SAMPLING_PRIORITY_KEY, Some p, Span.span_id sp, Some p).
Proof. intros Hc Ha Hp Hch Hpar Hne. py_result. Qed.

End results.

(** ** The scenarios on a concrete store *)

Section examples.
#[local] Existing Instance ddtrace_keys.

Definition ex_grandchild : sref := SRef 3.
Definition ex_root2 : sref := SRef 4.

(** The example store with a grandchild span and the root span of
    another trace. *)
Definition ex_deep : world :=
  upd_spans
    (fun m => <[ex_grandchild := Span__init__ (VInt 42) (VInt 3) (Some ex_child)]>
                (<[ex_root2 := Span__init__ (VInt 43) (VInt 9) None]> m))
    ex_w0.

Lemma nested_spans_result_witness :
  eval (nested_spans ex_self ex_root ex_child) ex_deep = Ok (Some ex_root, Some ex_root) /\
  eval (three_deep ex_self ex_root ex_child ex_grandchild) ex_deep =
    Ok (VInt 3, VInt 1).
Proof.
  destruct (nested_spans_result ex_deep ex_self ex_ctx ex_root ex_child ex_grandchild
              _ _ (Span__init__ (VInt 42) (VInt 3) (Some ex_child))
              eq_refl eq_refl eq_refl eq_refl eq_refl) as [H2 H3].
  split; [exact H2 | exact (H3 eq_refl eq_refl)].
Defined.

Lemma root_closed_first_result_witness :
  eval (root_closed_first ex_self ex_root ex_child) ex_w0 =
    Ok (Some ex_root, None, VInt 42, VInt 1).
Proof.
  exact (root_closed_first_result ex_w0 ex_self ex_ctx ex_root ex_child _ _
           eq_refl eq_refl eq_refl eq_refl eq_refl).
Defined.

Lemma context_reused_result_witness :
  eval (root_closed ex_self ex_root) ex_deep = Ok (VNone, VNone, None, None) /\
  eval (context_reused ex_self ex_root ex_root2) ex_deep =
    Ok (Some ex_root2, VInt 43, Some (VInt 2)).
Proof.
  destruct (context_reused_result ex_deep ex_self ex_ctx ex_root ex_root2
              ex_root_span (Span__init__ (VInt 43) (VInt 9) None) 2
              eq_refl eq_refl eq_refl) as [H1 H2].
  split; [exact H1|]. apply H2; [reflexivity..|]. by intros [=].
Defined.

Lemma priority_then_root_result_witness :
  eval (priority_then_root ex_self ex_root (VInt 2)) ex_w0 = Ok (Some (VInt 2)) /\
  eval (root_then_origin ex_self ex_root (VStr "synthetics")) ex_w0 =
    Ok (Some (VStr "synthetics")).
Proof.
  destruct (priority_then_root_result ex_w0 ex_self ex_ctx ex_root ex_root_span
              (VInt 2) (VStr "synthetics") eq_refl eq_refl eq_refl) as [H1 H2].
  split; [|exact H2]. apply H1; [reflexivity|]. by intros [=].
Defined.

Lemma clone_handoff_result_witness :
  eval (clone_handoff ex_self ex_child) ex_w1 =
    Ok (None, None, Some ex_root, VInt 1, Some ex_root).
Proof.
  refine (clone_handoff_result ex_w1 ex_self (ex_ctx_at ex_root 1) ex_root ex_child
            ex_root_span' ex_child_span eq_refl eq_refl eq_refl eq_refl eq_refl _).
  by intros [=].
Defined.

End examples.
