(* ===== verification/Spec.v ===== *)
(** * Spec: the context as a transition system on stores

    The calls a program can make on contexts and spans, the closedness
    the Python runtime guarantees of a store (a reference always denotes
    an object), and a closed form of every call as one atomic update
    of the store by pure functions on records.  The closed form is
    read off the code and keeps what the code does where the
    specification document differs.  The refinement theorem at the end
    says that the methods of [Context], which read and write the store
    attribute by attribute, compute that closed form. *)

From S2P Require Import Prelude Span Objects Context.

(** ** Calls *)

Inductive call : Type :=
| CallNew (tid sid prio orig : value)
| CallSetSamplingPriority (self : cref) (v : value)
| CallSetOrigin (self : cref) (v : value)
| CallClone (self : cref)
| CallAddSpan (self : cref) (span : option sref)
| CallCloseSpan (self : cref) (span : option sref)
| CallNewSpan (tid sid : value) (parent : option sref).

#[export] Instance call_eq_dec : EqDecision call.
Proof. solve_decision. Defined.

(** The context a call is made on. *)
Definition call_target (a : call) : option cref :=
  match a with
  | CallNew _ _ _ _ | CallNewSpan _ _ _ => None
  | CallSetSamplingPriority self _ | CallSetOrigin self _ | CallClone self
  | CallAddSpan self _ | CallCloseSpan self _ => Some self
  end.

(** ** Closed stores *)

Definition ref_ok (w : world) (o : option sref) : Prop :=
  match o with Some r => is_Some (spans w !! r) | None => True end.

Definition cref_ok (w : world) (o : option cref) : Prop :=
  match o with Some r => is_Some (ctxs w !! r) | None => True end.

#[export] Instance ref_ok_dec w o : Decision (ref_ok w o).
Proof. destruct o; apply _. Defined.
#[export] Instance cref_ok_dec w o : Decision (cref_ok w o).
Proof. destruct o; apply _. Defined.

Definition ctx_closed (w : world) (c : Context) : Prop :=
  ref_ok w (_active_span c) /\ ref_ok w (_local_root_span c).

Definition span_closed (w : world) (s : Span) : Prop :=
  ref_ok w (_parent s) /\ cref_ok w (_context s).

(** Every reference stored in an object denotes an object. *)
Definition closed (w : world) : Prop :=
  map_Forall (fun _ => ctx_closed w) (ctxs w) /\
  map_Forall (fun _ => span_closed w) (spans w).

#[export] Instance closed_dec w : Decision (closed w).
Proof. unfold closed, ctx_closed, span_closed. apply _. Defined.

(** The arguments of a call denote objects. *)
Definition call_closed (w : world) (a : call) : Prop :=
  match a with
  | CallNew _ _ _ _ => True
  | CallSetSamplingPriority self _ | CallSetOrigin self _ | CallClone self =>
      is_Some (ctxs w !! self)
  | CallAddSpan self span | CallCloseSpan self span =>
      is_Some (ctxs w !! self) /\ ref_ok w span
  | CallNewSpan _ _ parent => ref_ok w parent
  end.

#[export] Instance call_closed_dec w a : Decision (call_closed w a).
Proof. destruct a; apply _. Defined.

Section spec.
Context {keys : TagKeys}.
Implicit Types (w : world) (self : cref) (r p : sref) (c : Context) (s : Span)
  (v : value) (a : call).

(** The method a call runs; results are dropped, [CallNewSpan] is the
    caller building a span. *)
Definition run_call a : M world unit :=
  match a with
  | CallNew tid sid prio orig => new tid sid prio orig ;; ret tt
  | CallSetSamplingPriority self v => sampling_priority_setter self v
  | CallSetOrigin self v => dd_origin_setter self v
  | CallClone self => clone self ;; ret tt
  | CallAddSpan self span => add_span self span
  | CallCloseSpan self span => close_span self span
  | CallNewSpan tid sid parent => alloc_span (Span__init__ tid sid parent) ;; ret tt
  end.

(** ** Transitions of one record *)

(** The context once span [sp] (or none) is the current span. *)
Definition activate (sp : option (sref * Span)) c : Context :=
  match sp with
  | Some (r, s) =>
      {| _active_span := Some r;
         _trace_root_span_id := _trace_root_span_id c;
         _local_root_span := _local_root_span c;
         _trace_id := Span.trace_id s;
         _active_span_id := Span.span_id s;
         _sampling_priority := _sampling_priority c;
         _dd_origin := _dd_origin c |}
  | None =>
      {| _active_span := None;
         _trace_root_span_id := _trace_root_span_id c;
         _local_root_span := _local_root_span c;
         _trace_id := _trace_id c;
         _active_span_id := VNone;
         _sampling_priority := _sampling_priority c;
         _dd_origin := _dd_origin c |}
  end.

(** The context once its trace has ended locally. *)
Definition end_trace c : Context :=
  {| _active_span := _active_span c;
     _trace_root_span_id := VNone;
     _local_root_span := None;
     _trace_id := VNone;
     _active_span_id := _active_span_id c;
     _sampling_priority := _sampling_priority c;
     _dd_origin := _dd_origin c |}.

Definition add_span_ctx r s c : Context :=
  activate (Some (r, s))
    (if truthy (_parent s) then c else set__local_root_span (Some r) c).

Definition add_span_span self c s : Span :=
  {| Span.trace_id := Span.trace_id s;
     Span.span_id := Span.span_id s;
     _parent := _parent s;
     meta := if truthy (_parent s) then meta s
             else mirror ORIGIN_KEY (_dd_origin c) (meta s);
     metrics := if truthy (_parent s) then metrics s
                else mirror SAMPLING_PRIORITY_KEY (_sampling_priority c) (metrics s);
     _context := Some self |}.

(** The parent of a span with its record, when it has one. *)
Definition parent_of w s : option (sref * Span) :=
  match _parent s with
  | Some p => match spans w !! p with Some sp => Some (p, sp) | None => None end
  | None => None
  end.

Definition close_span_ctx (span : option sref) (parent : option (sref * Span)) c
    : Context :=
  activate parent (if py_eq span (_local_root_span c) then end_trace c else c).

(** The spans after a write to the local root span [root], if any. *)
Definition alter_root (root : option sref) (f : Span -> Span)
    (m : gmap sref Span) : gmap sref Span :=
  match root with Some r => alter f r m | None => m end.

(** ** Transitions of the store *)

Definition spec_call a w : result unit * world :=
  match a with
  | CallNew tid sid prio orig =>
      (Ok tt, upd_ctxs <[fresh (dom (ctxs w)) := __init__ tid sid prio orig]> w)
  | CallNewSpan tid sid parent =>
      (Ok tt, upd_spans <[fresh (dom (spans w)) := Span__init__ tid sid parent]> w)
  | CallSetSamplingPriority self v =>
      match ctxs w !! self with
      | Some c =>
          (Ok tt,
           {| spans := alter_root (_local_root_span c)
                         (set_metrics (setitem SAMPLING_PRIORITY_KEY v)) (spans w);
              ctxs := <[self := set__sampling_priority v c]> (ctxs w) |})
      | None => (Raise InvalidReference, w)
      end
  | CallSetOrigin self v =>
      match ctxs w !! self with
      | Some c =>
          (Ok tt,
           {| spans := alter_root (_local_root_span c)
                         (set_meta (setitem ORIGIN_KEY v)) (spans w);
              ctxs := <[self := set__dd_origin v c]> (ctxs w) |})
      | None => (Raise InvalidReference, w)
      end
  | CallClone self =>
      match ctxs w !! self with
      | Some c =>
          (Ok tt,
           upd_ctxs <[fresh (dom (ctxs w)) :=
                        __init__ (_trace_id c) (_active_span_id c)
                          (_sampling_priority c) (_dd_origin c)]> w)
      | None => (Raise InvalidReference, w)
      end
  | CallAddSpan self None => (Raise (AttributeError "_parent"), w)
  | CallAddSpan self (Some r) =>
      match ctxs w !! self, spans w !! r with
      | Some c, Some s =>
          (Ok tt,
           {| spans := <[r := add_span_span self c s]> (spans w);
              ctxs := <[self := add_span_ctx r s c]> (ctxs w) |})
      | _, _ => (Raise InvalidReference, w)
      end
  | CallCloseSpan self None =>
      match ctxs w !! self with
      | Some c =>
          (Raise (AttributeError "_parent"),
           match _local_root_span c with
           | None => upd_ctxs <[self := end_trace c]> w
           | Some _ => w
           end)
      | None => (Raise InvalidReference, w)
      end
  | CallCloseSpan self (Some r) =>
      match ctxs w !! self, spans w !! r with
      | Some c, Some s =>
          (Ok tt, upd_ctxs <[self := close_span_ctx (Some r) (parent_of w s) c]> w)
      | _, _ => (Raise InvalidReference, w)
      end
  end.

End spec.

#[export] Hint Unfold activate end_trace add_span_ctx add_span_span
  close_span_ctx alter_root mirror : py.

Arguments activate : simpl never.
Arguments end_trace : simpl never.
Arguments add_span_ctx : simpl never.
Arguments add_span_span : simpl never.
Arguments close_span_ctx : simpl never.
Arguments parent_of : simpl never.
Arguments alter_root : simpl never.

(** ** The methods implement the transitions *)

Section refinement.
Context {keys : TagKeys}.
Implicit Types (w : world) (self : cref) (r p : sref) (c : Context) (s : Span)
  (v : value) (a : call).

Lemma closed_ctx w self c : closed w -> ctxs w !! self = Some c -> ctx_closed w c.
Proof. intros [Hw _] Hc. exact (Hw _ _ Hc). Qed.

Lemma closed_span w r s : closed w -> spans w !! r = Some s -> span_closed w s.
Proof. intros [_ Hw] Hs. exact (Hw _ _ Hs). Qed.

Lemma sampling_priority_setter_run w self c v :
  ctxs w !! self = Some c ->
  ref_ok w (_local_root_span c) ->
  sampling_priority_setter self v w = spec_call (CallSetSamplingPriority self v) w.
Proof.
  intros Hc Hr. unfold spec_call. rewrite Hc.
  destruct (_local_root_span c) as [r|] eqn:Hroot; [|by py_run].
  destruct Hr as [s Hs]. unfold alter_root. erewrite alter_alt_Some by eassumption.
  py_run.
Qed.

Lemma dd_origin_setter_run w self c v :
  ctxs w !! self = Some c ->
  ref_ok w (_local_root_span c) ->
  dd_origin_setter self v w = spec_call (CallSetOrigin self v) w.
Proof.
  intros Hc Hr. unfold spec_call. rewrite Hc.
  destruct (_local_root_span c) as [r|] eqn:Hroot; [|by py_run].
  destruct Hr as [s Hs]. unfold alter_root. erewrite alter_alt_Some by eassumption.
  py_run.
Qed.

Lemma clone_run w self c :
  ctxs w !! self = Some c ->
  clone self w =
    (Ok (fresh (dom (ctxs w))),
     upd_ctxs <[fresh (dom (ctxs w)) :=
                  __init__ (_trace_id c) (_active_span_id c)
                    (_sampling_priority c) (_dd_origin c)]> w).
Proof. intros Hc. py_run. Qed.

Lemma add_span_run w self r c s :
  ctxs w !! self = Some c ->
  spans w !! r = Some s ->
  add_span self (Some r) w = spec_call (CallAddSpan self (Some r)) w.
Proof.
  intros Hc Hs. unfold spec_call. rewrite Hc, Hs.
  destruct (_parent s) eqn:Hp; [by py_run|].
  destruct (_dd_origin c) eqn:Ho, (_sampling_priority c) eqn:Hp'; py_run.
Qed.

Lemma close_span_run w self r c s :
  ctxs w !! self = Some c ->
  spans w !! r = Some s ->
  ref_ok w (_parent s) ->
  close_span self (Some r) w = spec_call (CallCloseSpan self (Some r)) w.
Proof.
  intros Hc Hs Hp. unfold spec_call, parent_of. rewrite Hc, Hs.
  destruct (py_eq (Some r) (_local_root_span c)) eqn:Hq;
    (destruct (_parent s) as [p|] eqn:Hpar;
       [destruct Hp as [sp Hsp]; rewrite Hsp|]); py_run.
Qed.

(** The two calls of a tracer, with the store they leave. *)
Lemma add_span_exec w self r c s :
  ctxs w !! self = Some c -> spans w !! r = Some s ->
  add_span self (Some r) w =
    (Ok tt, {| spans := <[r := add_span_span self c s]> (spans w);
               ctxs := <[self := add_span_ctx r s c]> (ctxs w) |}).
Proof. intros Hc Hs. rewrite (add_span_run w self r c s) by done. cbn. by rewrite Hc, Hs. Qed.

Lemma close_span_exec w self r c s :
  ctxs w !! self = Some c -> spans w !! r = Some s -> ref_ok w (_parent s) ->
  close_span self (Some r) w =
    (Ok tt, upd_ctxs <[self := close_span_ctx (Some r) (parent_of w s) c]> w).
Proof.
  intros Hc Hs Hp. rewrite (close_span_run w self r c s) by done. cbn.
  by rewrite Hc, Hs.
Qed.

Lemma close_span_None_run w self c :
  ctxs w !! self = Some c ->
  close_span self None w = spec_call (CallCloseSpan self None) w.
Proof.
  intros Hc. unfold spec_call. rewrite Hc.
  destruct (_local_root_span c) eqn:Hr; py_run.
Qed.

(** On a closed store, every call whose arguments denote objects does
    exactly what the atomic transition [spec_call] says: the same
    outcome, exceptions included, and the same store. *)
Lemma run_call_spec w a :
  closed w -> call_closed w a -> run_call a w = spec_call a w.
Proof.
  intros Hw Ha. destruct a as [| self v | self v | self | self [r|] | self [r|] |];
    cbn [run_call call_closed] in *.
  - py_run.
  - destruct Ha as [c Hc].
    eapply sampling_priority_setter_run, closed_ctx; eauto.
  - destruct Ha as [c Hc]. eapply dd_origin_setter_run, closed_ctx; eauto.
  - destruct Ha as [c Hc]. unfold spec_call. rewrite Hc.
    eapply run_seq; [by apply clone_run|done].
  - destruct Ha as [[c Hc] [s Hs]]. by eapply add_span_run.
  - by py_eval.
  - destruct Ha as [[c Hc] [s Hs]]. eapply close_span_run, closed_span; eauto.
  - destruct Ha as [[c Hc] _]. by eapply close_span_None_run.
  - py_run.
Qed.

End refinement.
