(* ===== verification/Invariants.v ===== *)
(** * Invariants: what every transition preserves

    The order "the store has grown" (objects are never removed and a
    span keeps its ids and its parent), with the equivalence of spans
    up to their tags; the invariant of one context relative to the
    store and the invariant [world_inv] of the whole store: references
    denote objects, an active span fixes the active span id, a local
    root span has no parent, the attribute [_trace_root_span_id] holds
    no value.  Every transition of [Spec] extends the store and
    preserves the invariant. *)

From S2P Require Import Prelude Span Objects Context Spec.

(** ** Span identity and store extension *)

(** Two records of one span at different times: the context writes
    [meta], [metrics] and [_context] only. *)
Definition same_identity (s s' : Span) : Prop :=
  Span.trace_id s = Span.trace_id s' /\
  Span.span_id s = Span.span_id s' /\
  _parent s = _parent s'.

#[export] Instance same_identity_equiv : Equivalence same_identity.
Proof.
  unfold same_identity. split.
  - by intros s.
  - intros s s' (-> & -> & ->). done.
  - intros s1 s2 s3 (-> & -> & ->) (-> & -> & ->). done.
Qed.

#[export] Instance parent_proper : Proper (same_identity ==> eq) _parent.
Proof. by intros s s' (_ & _ & ?). Qed.
#[export] Instance span_trace_id_proper : Proper (same_identity ==> eq) Span.trace_id.
Proof. by intros s s' (? & _ & _). Qed.
#[export] Instance span_span_id_proper : Proper (same_identity ==> eq) Span.span_id.
Proof. by intros s s' (_ & ? & _). Qed.

(** [m'] holds every span of [m], with its identity; [m'] holds every
    context of [m]. *)
Definition spans_extend (m m' : gmap sref Span) : Prop :=
  forall r s, m !! r = Some s -> exists s', m' !! r = Some s' /\ same_identity s s'.

Definition ctxs_extend (m m' : gmap cref Context) : Prop :=
  forall k, is_Some (m !! k) -> is_Some (m' !! k).

(** [w'] holds every object of [w]: nothing is deallocated and no span
    changes identity. *)
Definition extends (w w' : world) : Prop :=
  spans_extend (spans w) (spans w') /\ ctxs_extend (ctxs w) (ctxs w').

#[export] Instance world_sqsubseteq : SqSubsetEq world := extends.

Section extends.
Implicit Types (w : world) (r : sref) (k : cref) (s : Span) (c : Context).

Lemma spans_extend_refl m : spans_extend m m.
Proof. intros r s Hs. by exists s. Qed.

Lemma ctxs_extend_refl m : ctxs_extend m m.
Proof. by intros k. Qed.

Lemma spans_extend_insert m r s s' :
  m !! r = Some s -> same_identity s s' -> spans_extend m (<[r := s']> m).
Proof.
  intros Hs Hi r' s0 Hs0. destruct (decide (r = r')) as [->|].
  - rewrite lookup_insert_eq. exists s'. split; [done|]. congruence.
  - rewrite lookup_insert_ne by done. by exists s0.
Qed.

Lemma spans_extend_alter m r f :
  (forall s, same_identity s (f s)) -> spans_extend m (alter f r m).
Proof.
  intros Hf r' s0 Hs0. destruct (decide (r = r')) as [->|].
  - rewrite lookup_alter_eq, Hs0. by exists (f s0).
  - rewrite lookup_alter_ne by done. by exists s0.
Qed.

Lemma spans_extend_alloc m s0 : spans_extend m (<[fresh (dom m) := s0]> m).
Proof. intros r s Hs. exists s. split; [|done]. by apply lookup_insert_fresh. Qed.

Lemma ctxs_extend_insert m k c : ctxs_extend m (<[k := c]> m).
Proof.
  intros k' Hk'. destruct (decide (k = k')) as [->|];
    [rewrite lookup_insert_eq | rewrite lookup_insert_ne]; eauto.
Qed.

#[export] Instance extends_preorder : PreOrder extends.
Proof.
  split.
  - intros w. split; [apply spans_extend_refl | apply ctxs_extend_refl].
  - intros w1 w2 w3 [Hs12 Hc12] [Hs23 Hc23]. split; [|by intros k ?; auto].
    intros r s Hs. destruct (Hs12 _ _ Hs) as (s2 & Hs2 & Hi12).
    destruct (Hs23 _ _ Hs2) as (s3 & Hs3 & Hi23).
    exists s3. split; [done|]. by etrans.
Qed.

Lemma ref_ok_extends w w' o : w ⊑ w' -> ref_ok w o -> ref_ok w' o.
Proof.
  intros [Hs _]. destruct o as [r|]; [|done]. intros [s Hr].
  destruct (Hs _ _ Hr) as (s' & Hs' & _). by exists s'.
Qed.

Lemma cref_ok_extends w w' o : w ⊑ w' -> cref_ok w o -> cref_ok w' o.
Proof. intros [_ Hc]. destruct o as [k|]; [apply Hc|done]. Qed.

End extends.

#[export] Hint Resolve spans_extend_refl ctxs_extend_refl spans_extend_alter
  spans_extend_alloc ctxs_extend_insert : py.

(** ** Every call extends the store *)

Section call_extends.
Context {keys : TagKeys}.

Lemma set_metrics_identity f s : same_identity s (set_metrics f s).
Proof. done. Qed.

Lemma set_meta_identity f s : same_identity s (set_meta f s).
Proof. done. Qed.

Lemma add_span_span_identity self c s : same_identity s (add_span_span self c s).
Proof. done. Qed.

Lemma spans_extend_alter_root root f m :
  (forall s, same_identity s (f s)) -> spans_extend m (alter_root root f m).
Proof. destruct root; unfold alter_root; auto with py. Qed.

Lemma spec_call_extends a w : w ⊑ (spec_call a w).2.
Proof.
  destruct a as [| self v | self v | self | self [r|] | self [r|] |]; cbn;
    repeat case_match; simplify_eq/=; try reflexivity;
    split; cbn;
    eauto using spans_extend_alter_root, spans_extend_insert, set_metrics_identity,
      set_meta_identity, add_span_span_identity with py.
Qed.

Lemma call_closed_extends w w' a : w ⊑ w' -> call_closed w a -> call_closed w' a.
Proof.
  intros Hw. pose proof (proj2 Hw) as Hc.
  destruct a; cbn; intuition eauto using ref_ok_extends.
Qed.

(** The span and its parent, later. *)
Lemma extends_parent_of w w' r p s sp :
  w ⊑ w' -> spans w !! r = Some s -> _parent s = Some p -> spans w !! p = Some sp ->
  exists s' sp', spans w' !! r = Some s' /\ ref_ok w' (_parent s') /\
    parent_of w' s' = Some (p, sp') /\ same_identity sp sp'.
Proof.
  intros [Hw _] Hs Hp Hsp.
  destruct (Hw _ _ Hs) as (s' & Hs' & Hid), (Hw _ _ Hsp) as (sp' & Hsp' & Hid').
  pose proof (parent_proper _ _ Hid) as Hp'. rewrite Hp in Hp'.
  exists s', sp'. unfold parent_of. rewrite <- Hp'. cbn. rewrite Hsp'. eauto.
Qed.

(** What [close_span] makes of a context depends on the identity of
    the span and of its parent only, so it is the same in every later
    store. *)
Lemma activate_identity p s s' c :
  same_identity s s' -> activate (Some (p, s)) c = activate (Some (p, s')) c.
Proof. intros (Ht & Hi & _). unfold activate. by rewrite Ht, Hi. Qed.

Lemma close_span_ctx_extends w w' r s s' c :
  closed w -> w ⊑ w' -> spans w !! r = Some s -> spans w' !! r = Some s' ->
  close_span_ctx (Some r) (parent_of w' s') c =
  close_span_ctx (Some r) (parent_of w s) c.
Proof.
  intros Hw Hext Hs Hs'. unfold close_span_ctx.
  destruct (_parent s) as [p|] eqn:Hp.
  - pose proof (proj1 (closed_span w r s Hw Hs)) as Hr. rewrite Hp in Hr.
    destruct Hr as [sp Hsp].
    destruct (extends_parent_of w w' r p s sp) as (s1 & sp' & Hs1 & _ & Hpar & Hid);
      [done..|]. simplify_eq. rewrite Hpar. unfold parent_of. rewrite Hp, Hsp.
    symmetry. by apply activate_identity.
  - destruct (proj1 Hext _ _ Hs) as (s1 & Hs1 & Hid). simplify_eq.
    unfold parent_of. by rewrite <- (parent_proper _ _ Hid), Hp.
Qed.

End call_extends.

(** ** The invariant of a context *)

(** An active span determines the active span id. *)
Definition active_coherent (w : world) (c : Context) : Prop :=
  forall r, _active_span c = Some r ->
    exists s, spans w !! r = Some s /\ _active_span_id c = Span.span_id s.

(** An active span determines the trace id. *)
Definition trace_coherent (w : world) (c : Context) : Prop :=
  forall r, _active_span c = Some r ->
    exists s, spans w !! r = Some s /\ _trace_id c = Span.trace_id s.

(** A local root span has no parent. *)
Definition root_parentless (w : world) (c : Context) : Prop :=
  forall r, _local_root_span c = Some r ->
    exists s, spans w !! r = Some s /\ _parent s = None.

Definition ctx_inv (w : world) (c : Context) : Prop :=
  _trace_root_span_id c = VNone /\ active_coherent w c /\ root_parentless w c.

(** The invariant of the store: every context satisfies [ctx_inv] and
    every reference held by a span denotes an object. *)
Definition world_inv (w : world) : Prop :=
  map_Forall (fun _ => ctx_inv w) (ctxs w) /\
  map_Forall (fun _ => span_closed w) (spans w).

Section inv_facts.
Implicit Types (w : world) (r : sref) (k : cref) (s : Span) (c : Context).

Lemma active_coherent_extends w w' c :
  w ⊑ w' -> active_coherent w c -> active_coherent w' c.
Proof.
  intros [Hs _] Ha r Hr. destruct (Ha r Hr) as (s & Hs0 & Hi).
  destruct (Hs _ _ Hs0) as (s' & Hs' & Hid). exists s'. split; [done|].
  by rewrite <- Hid.
Qed.

Lemma trace_coherent_extends w w' c :
  w ⊑ w' -> trace_coherent w c -> trace_coherent w' c.
Proof.
  intros [Hs _] Ha r Hr. destruct (Ha r Hr) as (s & Hs0 & Hi).
  destruct (Hs _ _ Hs0) as (s' & Hs' & Hid). exists s'. split; [done|].
  by rewrite <- Hid.
Qed.

Lemma root_parentless_extends w w' c :
  w ⊑ w' -> root_parentless w c -> root_parentless w' c.
Proof.
  intros [Hs _] Ha r Hr. destruct (Ha r Hr) as (s & Hs0 & Hp).
  destruct (Hs _ _ Hs0) as (s' & Hs' & Hid). exists s'. split; [done|].
  by rewrite <- Hid.
Qed.

Lemma ctx_inv_extends w w' c : w ⊑ w' -> ctx_inv w c -> ctx_inv w' c.
Proof.
  intros Hw (? & ? & ?). split_and!;
    eauto using active_coherent_extends, root_parentless_extends.
Qed.

#[export] Instance ctx_inv_proper : Proper (extends ==> eq ==> impl) ctx_inv.
Proof. intros w w' Hw c ? <- ?. by eapply ctx_inv_extends. Qed.

Lemma span_closed_extends w w' s s' :
  w ⊑ w' -> same_identity s s' -> _context s' = _context s ->
  span_closed w s -> span_closed w' s'.
Proof.
  intros Hw Hid Hc [Hp Hk]. split.
  - rewrite <- Hid. by eapply ref_ok_extends.
  - rewrite Hc. by eapply cref_ok_extends.
Qed.

Lemma ctx_inv_closed w c : ctx_inv w c -> ctx_closed w c.
Proof.
  intros (_ & Ha & Hr). split.
  - destruct (_active_span c) as [r|] eqn:E; [|done].
    destruct (Ha r E) as (s & ? & _). by exists s.
  - destruct (_local_root_span c) as [r|] eqn:E; [|done].
    destruct (Hr r E) as (s & ? & _). by exists s.
Qed.

Lemma world_inv_closed w : world_inv w -> closed w.
Proof.
  intros [Hc Hs]. split; [|done].
  eapply map_Forall_impl; [exact Hc|]. intros ? ?. apply ctx_inv_closed.
Qed.

(** The shape of every preservation proof: objects that were not
    written keep the invariant because the store only grew; objects
    that were written are checked in the new store. *)
Lemma world_inv_update w w' :
  world_inv w -> w ⊑ w' ->
  (forall k c', ctxs w' !! k = Some c' ->
     ctxs w !! k = Some c' \/ ctx_inv w' c') ->
  (forall r s', spans w' !! r = Some s' ->
     (exists s, spans w !! r = Some s /\ same_identity s s' /\
                _context s' = _context s) \/ span_closed w' s') ->
  world_inv w'.
Proof.
  intros [Hc Hs] Hw Hc' Hs'. split.
  - intros k c' Hk. destruct (Hc' _ _ Hk) as [Hold|]; [|done].
    eapply ctx_inv_extends; [done|]. exact (Hc _ _ Hold).
  - intros r s' Hr. destruct (Hs' _ _ Hr) as [(s & Hold & Hid & Hctx)|]; [|done].
    eapply span_closed_extends; [done..|]. exact (Hs _ _ Hold).
Qed.

End inv_facts.

(** ** Every call preserves the invariant *)

Section preservation.
Context {keys : TagKeys}.
Implicit Types (w : world) (r : sref) (k self : cref) (s : Span) (c : Context)
  (a : call).

Lemma ctx_inv_init w tid sid prio orig : ctx_inv w (__init__ tid sid prio orig).
Proof. by split_and!. Qed.

Lemma ctx_inv_set_sampling_priority w c v :
  ctx_inv w c -> ctx_inv w (set__sampling_priority v c).
Proof. done. Qed.

Lemma ctx_inv_set_dd_origin w c v : ctx_inv w c -> ctx_inv w (set__dd_origin v c).
Proof. done. Qed.

Lemma ctx_inv_end_trace w c : ctx_inv w c -> ctx_inv w (end_trace c).
Proof. intros (? & ? & ?). unfold end_trace. by split_and!. Qed.

(** [p] denotes, in [w], the span that [s] is a record of. *)
Definition denotes (w : world) (p : sref) (s : Span) : Prop :=
  exists s', spans w !! p = Some s' /\ same_identity s s'.

Lemma denotes_lookup w p s : spans w !! p = Some s -> denotes w p s.
Proof. intros Hs. by exists s. Qed.

Lemma denotes_extends w w' p s : w ⊑ w' -> denotes w p s -> denotes w' p s.
Proof.
  intros [Hw _] (s1 & Hs1 & Hid). destruct (Hw _ _ Hs1) as (s2 & Hs2 & Hid').
  exists s2. split; [done|]. by etrans.
Qed.

Lemma ctx_inv_set_root w c r s :
  denotes w r s -> _parent s = None ->
  ctx_inv w c -> ctx_inv w (set__local_root_span (Some r) c).
Proof.
  intros (s' & Hs & Hid) Hp (? & ? & ?). split_and!; [done..|].
  intros r' [= <-]. exists s'. split; [done|]. by rewrite <- Hid.
Qed.

Lemma ctx_inv_activate w c sp :
  match sp with Some (p, s) => denotes w p s | None => True end ->
  ctx_inv w c -> ctx_inv w (activate sp c).
Proof.
  intros Hsp (? & ? & ?). unfold activate.
  destruct sp as [[p s]|]; (split_and!; [done| |done]).
  - destruct Hsp as (s' & Hs & Hid). intros r' [= <-]. exists s'.
    split; [done|]. cbn. by rewrite Hid.
  - by intros r' [=].
Qed.

Lemma ctx_inv_add_span_ctx w c r s :
  denotes w r s -> ctx_inv w c -> ctx_inv w (add_span_ctx r s c).
Proof.
  intros Hr Hc. apply ctx_inv_activate; [done|].
  destruct (_parent s) eqn:Hp; [done|]. by eapply ctx_inv_set_root.
Qed.

Lemma ctx_inv_close_span_ctx w c span parent :
  match parent with Some (p, s) => denotes w p s | None => True end ->
  ctx_inv w c -> ctx_inv w (close_span_ctx span parent c).
Proof.
  intros Hp Hc. apply ctx_inv_activate; [done|].
  destruct (py_eq span (_local_root_span c)); [by apply ctx_inv_end_trace|done].
Qed.

Lemma parent_of_denotes w s :
  match parent_of w s with Some (p, sp) => denotes w p sp | None => True end.
Proof.
  unfold parent_of. repeat case_match; simplify_eq; [|done..].
  by apply denotes_lookup.
Qed.

End preservation.

#[export] Hint Resolve ctx_inv_init ctx_inv_set_sampling_priority ctx_inv_set_dd_origin
  ctx_inv_end_trace ctx_inv_activate ctx_inv_add_span_ctx ctx_inv_close_span_ctx
  parent_of_denotes denotes_lookup : py.

Section preservation_calls.
Context {keys : TagKeys}.
Implicit Types (w : world) (r : sref) (k self : cref) (s : Span) (c : Context)
  (a : call).

Lemma parent_of_denotes_extends w w' s :
  w ⊑ w' ->
  match parent_of w s with Some (p, sp) => denotes w' p sp | None => True end.
Proof.
  intros Hw. pose proof (parent_of_denotes w s) as Hp.
  destruct (parent_of w s) as [[p sp]|]; [|done]. by eapply denotes_extends.
Qed.

(** Contexts: a context of the new store is untouched or satisfies the
    invariant there. *)
Lemma spec_call_ctxs_inv w a k c' :
  world_inv w -> call_closed w a ->
  ctxs (spec_call a w).2 !! k = Some c' ->
  ctxs w !! k = Some c' \/ ctx_inv (spec_call a w).2 c'.
Proof.
  intros Hw Ha. pose proof (spec_call_extends a w) as Hext.
  assert (Hmono : forall k c, ctxs w !! k = Some c -> ctx_inv (spec_call a w).2 c).
  { intros k0 c0 Hk0. eapply ctx_inv_extends; [done|]. exact (proj1 Hw _ _ Hk0). }
  destruct a as [| self v | self v | self | self [r|] | self [r|] |];
    cbn in *; repeat case_match; simplify_eq/=; try (by left);
    (intros [[<- <-]|[? ?]]%lookup_insert_Some; [right|by left]);
    eauto 6 using denotes_extends with py.
  apply ctx_inv_close_span_ctx; [by apply parent_of_denotes_extends | eauto].
Qed.

Lemma lookup_alter_root_inv root f (m : gmap sref Span) r s' :
  alter_root root f m !! r = Some s' ->
  exists s, m !! r = Some s /\ (s' = s \/ s' = f s).
Proof.
  unfold alter_root. destruct root as [r0|]; [|by eauto].
  destruct (decide (r0 = r)) as [->|].
  - rewrite lookup_alter_eq. destruct (m !! r) as [s|]; [|done].
    intros [= <-]. eauto.
  - rewrite lookup_alter_ne by done. eauto.
Qed.

(** Spans: a span of the new store keeps its identity and its context,
    or is closed in the new store. *)
Lemma spec_call_spans_inv w a r s' :
  world_inv w -> call_closed w a ->
  spans (spec_call a w).2 !! r = Some s' ->
  (exists s, spans w !! r = Some s /\ same_identity s s' /\
             _context s' = _context s) \/
  span_closed (spec_call a w).2 s'.
Proof.
  intros Hw Ha. pose proof (spec_call_extends a w) as Hext.
  destruct a as [| self v | self v | self | self [r0|] | self [r0|] |];
    cbn in *; repeat case_match; simplify_eq/=;
    try (by intros ?; left; eexists; split_and!).
  - intros (s & ? & [->| ->])%lookup_alter_root_inv; left; by exists s.
  - intros (s & ? & [->| ->])%lookup_alter_root_inv; left; by exists s.
  - intros [[<- <-]|[? ?]]%lookup_insert_Some;
      [right|by left; eexists; split_and!].
    split; unfold add_span_span; cbn; [|by rewrite lookup_insert_eq].
    eapply ref_ok_extends; [done|]. by eapply (proj2 Hw).
  - intros [[<- <-]|[? ?]]%lookup_insert_Some;
      [right|by left; eexists; split_and!].
    split; [|done]. by eapply ref_ok_extends.
Qed.

(** The transitions preserve the invariant of the store. *)
Lemma world_inv_spec_call w a :
  world_inv w -> call_closed w a -> world_inv (spec_call a w).2.
Proof.
  intros Hw Ha. eapply world_inv_update; [done|apply spec_call_extends|..];
    eauto using spec_call_ctxs_inv, spec_call_spans_inv.
Qed.

Lemma world_inv_empty : world_inv empty_world.
Proof. split; apply map_Forall_empty. Qed.

End preservation_calls.
