(* ===== verification/Reachable.v ===== *)
(** * Reachable: executions of the context and what they preserve

    The step relation (one call of a method, arguments existing), the
    stores reachable from the empty store by calls of a given kind,
    executable runs of lists of calls, and the theorems on all reachable
    stores: the methods agree with the transitions of [Spec] along whole
    executions, no call gets stuck, and the invariants of [Invariants]
    hold. *)

From S2P Require Import Prelude Span Objects Context Spec Invariants.

(** ** Kinds of callers *)

(** Any caller. *)
Definition any_call (a : call) : Prop := True.

(** A caller that never passes [None] for a span. *)
Definition proper_call (a : call) : Prop :=
  match a with
  | CallAddSpan _ None | CallCloseSpan _ None => False
  | _ => True
  end.

#[export] Instance any_call_dec a : Decision (any_call a).
Proof. unfold any_call. apply _. Defined.
#[export] Instance proper_call_dec a : Decision (proper_call a).
Proof. destruct a as [| | | | ? [?|] | ? [?|] |]; apply _. Defined.

Section steps.
Context {keys : TagKeys}.
Implicit Types (w : world) (r : sref) (k self : cref) (s : Span) (c : Context)
  (a : call) (l : list call) (P : call -> Prop).

(** ** Steps and reachable stores *)

(** One call, on arguments that exist; the store after the call is the
    one the method leaves, also when it raises. *)
Inductive step : world -> call -> world -> Prop :=
| step_call w a : call_closed w a -> step w a (exec (run_call a) w).

Inductive reachable P : world -> Prop :=
| reachable_init : reachable P empty_world
| reachable_step w a w' : reachable P w -> P a -> step w a w' -> reachable P w'.

(** ** Executable runs *)

(** The outcomes and the final store of a list of calls, by the methods
    and by the transitions. *)
Fixpoint run_calls l w : list (result unit) * world :=
  match l with
  | [] => ([], w)
  | a :: l =>
      let '(res, w1) := run_call a w in
      let '(ress, w2) := run_calls l w1 in (res :: ress, w2)
  end.

Fixpoint spec_calls l w : list (result unit) * world :=
  match l with
  | [] => ([], w)
  | a :: l =>
      let '(res, w1) := spec_call a w in
      let '(ress, w2) := spec_calls l w1 in (res :: ress, w2)
  end.

(** Every call of the list finds its arguments in the store it runs on. *)
Fixpoint calls_closed l w : Prop :=
  match l with
  | [] => True
  | a :: l => call_closed w a /\ calls_closed l (spec_call a w).2
  end.

#[export] Instance calls_closed_dec l w : Decision (calls_closed l w).
Proof. revert w. induction l; intros w; cbn; apply _. Defined.

(** ** Basic facts *)

Lemma step_spec w a w' : closed w -> step w a w' -> w' = (spec_call a w).2.
Proof. intros Hw Hs. inv Hs. unfold exec. by rewrite run_call_spec. Qed.

Lemma step_world_inv w a w' : world_inv w -> step w a w' -> world_inv w'.
Proof.
  intros Hw Hs. rewrite (step_spec w a w') by auto using world_inv_closed.
  inv Hs. by apply world_inv_spec_call.
Qed.

Lemma reachable_world_inv P w : reachable P w -> world_inv w.
Proof.
  induction 1; [apply world_inv_empty | by eapply step_world_inv].
Qed.

(** Induction on reachable stores along the transitions of [Spec]: a
    property of the empty store that every transition on existing
    arguments preserves holds of every reachable store. *)
Lemma reachable_spec_ind P (Q : world -> Prop) :
  Q empty_world ->
  (forall w a, reachable P w -> call_closed w a -> P a -> Q w -> Q (spec_call a w).2) ->
  forall w, reachable P w -> Q w.
Proof.
  intros H0 Hstep w. induction 1 as [|w a w' Hw IH HP Hs]; [done|].
  rewrite (step_spec w a w') by eauto using world_inv_closed, reachable_world_inv.
  inv Hs. eauto.
Qed.

Lemma reachable_mono P Q w :
  (forall a, P a -> Q a) -> reachable P w -> reachable Q w.
Proof. intros HPQ. induction 1; [constructor | econstructor; eauto]. Qed.

Lemma reachable_any P w : reachable P w -> reachable any_call w.
Proof. by apply reachable_mono. Qed.

Lemma step_extends w a w' : closed w -> step w a w' -> w ⊑ w'.
Proof. intros Hw Hs. rewrite (step_spec w a w') by done. apply spec_call_extends. Qed.

(** Reachability by computation: a list of calls that passes the checks
    leads from a reachable store to a reachable store. *)
Lemma reachable_spec_calls P l w :
  reachable P w -> Forall P l -> calls_closed l w ->
  reachable P (spec_calls l w).2.
Proof.
  intros Hw Hl. revert w Hw. induction Hl as [|a l Ha Hl IH]; intros w Hw; [done|].
  intros [Hc Hcs]. cbn. pose proof (reachable_world_inv _ _ Hw) as Hinv.
  destruct (spec_call a w) as [res w1] eqn:E1.
  destruct (spec_calls l w1) as [ress w2] eqn:E2. cbn in *.
  replace w2 with (spec_calls l w1).2 by by rewrite E2.
  apply IH; [|done]. eapply reachable_step; [done..|].
  replace w1 with (exec (run_call a) w); [by constructor|].
  unfold exec. rewrite run_call_spec by auto using world_inv_closed. by rewrite E1.
Qed.

(** ** Invariants of single contexts, generically

    What it takes for a property [I] of a context (relative to the store)
    to hold of every context of every store reachable by callers of kind
    [P]: it survives the growth of the store, holds of a new context, and
    is preserved by the record transition of each method.  The transition
    of [close_span(None)] is only required when [P] admits that call. *)

Class CtxInvariant P (I : world -> Context -> Prop) : Prop := {
  inv_extends w w' c : w ⊑ w' -> I w c -> I w' c;
  inv_init w tid sid prio orig : I w (__init__ tid sid prio orig);
  inv_set_sampling_priority w c v : I w c -> I w (set__sampling_priority v c);
  inv_set_dd_origin w c v : I w c -> I w (set__dd_origin v c);
  inv_add_span w c r s : denotes w r s -> I w c -> I w (add_span_ctx r s c);
  inv_close_span w c r parent :
    match parent with Some (p, s) => denotes w p s | None => True end ->
    I w c -> I w (close_span_ctx (Some r) parent c);
  inv_close_None w c self :
    P (CallCloseSpan self None) -> _local_root_span c = None ->
    I w c -> I w (end_trace c);
}.

Lemma ctx_invariant_spec_call P I `{!CtxInvariant P I} w a :
  world_inv w -> call_closed w a -> P a ->
  map_Forall (fun _ => I w) (ctxs w) ->
  map_Forall (fun _ => I (spec_call a w).2) (ctxs (spec_call a w).2).
Proof.
  intros Hw Ha HP HI k c'. pose proof (spec_call_extends a w) as Hext.
  assert (Hmono : forall k c, ctxs w !! k = Some c -> I (spec_call a w).2 c).
  { intros k0 c0 Hk0. eapply inv_extends; [done|]. exact (HI _ _ Hk0). }
  destruct a as [| self v | self v | self | self [r|] | self [r|] |];
    cbn in *; repeat case_match; simplify_eq/=; eauto;
    (intros [[<- <-]|[? ?]]%lookup_insert_Some; [|by eauto]).
  - apply inv_init.
  - apply inv_set_sampling_priority; eauto.
  - apply inv_set_dd_origin; eauto.
  - apply inv_init.
  - apply inv_add_span; eauto using denotes_extends, denotes_lookup.
  - apply inv_close_span; [by apply parent_of_denotes_extends | eauto].
  - eapply inv_close_None; eauto.
Qed.

Lemma reachable_ctx_invariant P I `{!CtxInvariant P I} w :
  reachable P w -> map_Forall (fun _ => I w) (ctxs w).
Proof.
  revert w. apply reachable_spec_ind; [apply map_Forall_empty|].
  intros w a Hw Ha HP. eapply ctx_invariant_spec_call; eauto using reachable_world_inv.
Qed.

(** An active span determines the trace id, for callers that never pass
    [None]. *)
#[export] Instance trace_coherent_invariant : CtxInvariant proper_call trace_coherent.
Proof.
  split; try done.
  - apply trace_coherent_extends.
  - intros w c r s (s' & Hs' & Hid) _ r' [= <-]. exists s'.
    split; [done|]. unfold add_span_ctx, activate; cbn. by rewrite Hid.
  - intros w c r [[p s]|] Hp _ r'; unfold close_span_ctx, activate; [|done].
    destruct Hp as (s' & Hs' & Hid). intros [= <-]. exists s'.
    split; [done|]. cbn. by rewrite Hid.
Qed.

End steps.

(** ** Theorems on executions *)

Section theorems.
Context {keys : TagKeys}.
Implicit Types (w : world) (r : sref) (k self : cref) (s : Span) (c : Context)
  (a : call) (l : list call) (P : call -> Prop).

(** C12. Refinement along executions: from a store that satisfies the
    invariant, a list of calls whose arguments exist when they are made
    yields, by the methods of the class, the same outcomes (exceptions
    included) and the same final store as by the closed form
    [spec_call], one atomic update of the store per call. *)
Theorem trace_refinement l w :
  world_inv w -> calls_closed l w -> run_calls l w = spec_calls l w.
Proof.
  revert w. induction l as [|a l IH]; intros w Hw; [done|]. intros [Ha Hl]. cbn.
  rewrite run_call_spec by auto using world_inv_closed.
  pose proof (world_inv_spec_call w a Hw Ha) as Hw1.
  destruct (spec_call a w) as [res w1]. by rewrite IH.
Qed.

(** C13. In every reachable store, a context with an active span has
    that span's id as active span id. *)
Theorem reachable_active_coherent P w k c r :
  reachable P w -> ctxs w !! k = Some c -> _active_span c = Some r ->
  exists s, spans w !! r = Some s /\ _active_span_id c = Span.span_id s.
Proof.
  intros Hw Hk. destruct (reachable_world_inv _ _ Hw) as [Hc _].
  destruct (Hc _ _ Hk) as (_ & Ha & _). apply Ha.
Qed.

(** C14. In every reachable store, the local root span of a context is
    a span without parent. *)
Theorem reachable_root_parentless P w k c r :
  reachable P w -> ctxs w !! k = Some c -> _local_root_span c = Some r ->
  exists s, spans w !! r = Some s /\ _parent s = None.
Proof.
  intros Hw Hk. destruct (reachable_world_inv _ _ Hw) as [Hc _].
  destruct (Hc _ _ Hk) as (_ & _ & Hr). apply Hr.
Qed.

(** C15. In every store reachable by callers that never pass [None], a
    context with an active span has that span's trace id. *)
Theorem reachable_trace_coherent w k c r :
  reachable proper_call w -> ctxs w !! k = Some c -> _active_span c = Some r ->
  exists s, spans w !! r = Some s /\ _trace_id c = Span.trace_id s.
Proof.
  intros Hw Hk. exact (reachable_ctx_invariant proper_call trace_coherent w Hw _ _ Hk r).
Qed.

(** C16. No call gets stuck: in a reachable store, a call whose
    arguments exist returns normally, unless it passes [None] for the
    span, in which case it raises [AttributeError] for [_parent]. *)
Theorem calls_never_stuck P w a :
  reachable P w -> call_closed w a ->
  eval (run_call a) w =
    if decide (proper_call a) then Ok tt else Raise (AttributeError "_parent").
Proof.
  intros Hw Ha. unfold eval.
  rewrite run_call_spec by eauto using world_inv_closed, reachable_world_inv.
  destruct a as [| self v | self v | self | self [r|] | self [r|] |];
    cbn in *; repeat case_match; destruct_and?;
    try done; by repeat match goal with H : is_Some None |- _ => destruct H end.
Qed.

(** The attribute [_trace_root_span_id] is dead: no method reads it
    and none gives it a value, so it holds [None] in every context of
    every reachable store, whatever the comments at lines 19 and 106
    say of a remote root span. *)
Lemma reachable_trace_root_span_id P w k c :
  reachable P w -> ctxs w !! k = Some c -> _trace_root_span_id c = VNone.
Proof.
  intros Hw Hk. destruct (reachable_world_inv _ _ Hw) as [Hc _].
  by destruct (Hc _ _ Hk) as (? & _ & _).
Qed.

(** C17. A step never removes an object and never changes the trace
    id, the span id or the parent of a span. *)
Theorem step_preserves_identity P w a w' r s :
  reachable P w -> step w a w' -> spans w !! r = Some s ->
  exists s', spans w' !! r = Some s' /\
    Span.trace_id s' = Span.trace_id s /\ Span.span_id s' = Span.span_id s /\
    _parent s' = _parent s.
Proof.
  intros Hw Hs Hr.
  destruct (step_extends w a w') as [Hext _];
    [by eapply world_inv_closed, reachable_world_inv | done |].
  destruct (Hext _ _ Hr) as (s' & Hs' & Ht & Hi & Hp). by exists s'.
Qed.

End theorems.

(** ** Example executions

    The stores of the examples of [Context] are reachable: the first
    list of calls builds the two contexts and the two spans, the second
    runs the trace root, child, end of child, end of root. *)

Section examples.
#[local] Existing Instance ddtrace_keys.

Definition ex_setup : list call :=
  [ CallNew VNone VNone (VInt 2) (VStr "synthetics");
    CallNew (VInt 42) (VInt 7) VNone VNone;
    CallNewSpan (VInt 42) (VInt 1) None;
    CallNewSpan (VInt 42) (VInt 2) (Some ex_root) ].

Definition ex_trace : list call :=
  [ CallAddSpan ex_self (Some ex_root);
    CallAddSpan ex_self (Some ex_child);
    CallCloseSpan ex_self (Some ex_child);
    CallCloseSpan ex_self (Some ex_root) ].

Lemma ex_w0_reachable : reachable proper_call ex_w0.
Proof.
  replace ex_w0 with (spec_calls ex_setup empty_world).2 by by vm_compute.
  apply reachable_spec_calls; [constructor | by repeat constructor | by compute_done].
Qed.

Lemma ex_w1_reachable : reachable proper_call ex_w1.
Proof.
  replace ex_w1 with (spec_calls (take 1 ex_trace) ex_w0).2 by by vm_compute.
  apply reachable_spec_calls;
    [apply ex_w0_reachable | by repeat constructor | by compute_done].
Qed.

Lemma ex_step_child : step ex_w1 (CallAddSpan ex_self (Some ex_child)) ex_w2.
Proof.
  replace ex_w2 with (exec (run_call (CallAddSpan ex_self (Some ex_child))) ex_w1)
    by by vm_compute.
  constructor. by compute_done.
Qed.

Lemma ex_w2_reachable : reachable proper_call ex_w2.
Proof.
  replace ex_w2 with (spec_calls (take 2 ex_trace) ex_w0).2 by by vm_compute.
  apply reachable_spec_calls;
    [apply ex_w0_reachable | by repeat constructor | by compute_done].
Qed.

Lemma trace_refinement_witness :
  run_calls ex_trace ex_w0 = spec_calls ex_trace ex_w0.
Proof.
  apply trace_refinement;
    [exact (reachable_world_inv _ _ ex_w0_reachable) | by compute_done].
Defined.

Lemma reachable_active_coherent_witness :
  exists s, spans ex_w2 !! ex_child = Some s /\
    _active_span_id (ex_ctx_at ex_child 2) = Span.span_id s.
Proof.
  exact (reachable_active_coherent proper_call ex_w2 ex_self _ ex_child
           ex_w2_reachable eq_refl eq_refl).
Defined.

Lemma reachable_root_parentless_witness :
  exists s, spans ex_w2 !! ex_root = Some s /\ _parent s = None.
Proof.
  exact (reachable_root_parentless proper_call ex_w2 ex_self
           (ex_ctx_at ex_child 2) ex_root ex_w2_reachable eq_refl eq_refl).
Defined.

Lemma reachable_trace_coherent_witness :
  exists s, spans ex_w2 !! ex_child = Some s /\
    _trace_id (ex_ctx_at ex_child 2) = Span.trace_id s.
Proof.
  exact (reachable_trace_coherent ex_w2 ex_self _ ex_child
           ex_w2_reachable eq_refl eq_refl).
Defined.

Lemma calls_never_stuck_witness :
  eval (run_call (CallCloseSpan ex_self None)) ex_w2 =
    Raise (AttributeError "_parent").
Proof.
  refine (calls_never_stuck proper_call ex_w2 (CallCloseSpan ex_self None)
            ex_w2_reachable _).
  by compute_done.
Defined.

Lemma step_preserves_identity_witness :
  exists s', spans ex_w2 !! ex_child = Some s' /\
    Span.trace_id s' = VInt 42 /\ Span.span_id s' = VInt 2 /\
    _parent s' = Some ex_root.
Proof.
  exact (step_preserves_identity proper_call ex_w1
           (CallAddSpan ex_self (Some ex_child)) ex_w2 ex_child ex_child_span
           ex_w1_reachable ex_step_child eq_refl).
Defined.

End examples.
