(* ===== verification/Isolation.v ===== *)
(** * Isolation: what a call cannot touch

    Frame properties of the methods: a call writes the record of at most
    one context and of at most one span, so contexts owned by other
    execution units are not disturbed.  (That a clone and its original
    keep their values apart is proved with the methods, in [Context].) *)

From S2P Require Import Prelude Span Objects Context Spec Invariants Reachable.

(** The context whose record a call may write.  [clone] reads its
    receiver and writes only the new object. *)
Definition call_writes (a : call) : option cref :=
  match a with
  | CallSetSamplingPriority self _ | CallSetOrigin self _
  | CallAddSpan self _ | CallCloseSpan self _ => Some self
  | CallNew _ _ _ _ | CallNewSpan _ _ _ | CallClone _ => None
  end.

(** The span whose record a call may write: the span given to
    [add_span], the local root span of the receiver of a setter. *)
Definition call_writes_span (w : world) (a : call) : option sref :=
  match a with
  | CallSetSamplingPriority self _ | CallSetOrigin self _ =>
      match ctxs w !! self with Some c => _local_root_span c | None => None end
  | CallAddSpan _ span => span
  | _ => None
  end.

Section frame.
Context {keys : TagKeys}.
Implicit Types (w : world) (r : sref) (k self : cref) (s : Span) (c : Context)
  (a : call) (v : value).

Lemma spec_call_frame_ctx a w k c :
  call_writes a <> Some k -> ctxs w !! k = Some c ->
  ctxs (spec_call a w).2 !! k = Some c.
Proof.
  intros Ha Hk.
  destruct a as [| self v | self v | self | self [r|] | self [r|] |];
    cbn in *; repeat case_match; simplify_eq/=; try done;
    first [ by apply lookup_insert_fresh
          | rewrite lookup_insert_ne by congruence; done ].
Qed.

Lemma spec_call_frame_span a w r s :
  call_writes_span w a <> Some r -> spans w !! r = Some s ->
  spans (spec_call a w).2 !! r = Some s.
Proof.
  intros Ha Hr.
  destruct a as [| self v | self v | self | self [r0|] | self [r0|] |];
    cbn in *; repeat case_match; simplify_eq/=; try done;
    unfold alter_root;
    first [ by apply lookup_insert_fresh
          | rewrite lookup_insert_ne by congruence; done
          | repeat case_match; simplify_eq;
            rewrite ?lookup_alter_ne by congruence; done ].
Qed.

(** C18. Frame: a call writes the record of at most one context and
    of at most one span.  Every context other than the one the call is
    made on is left exactly as it was ([clone] and the constructors
    leave every existing context as it was); every span other than the
    argument of [add_span], or the local root span of the receiver of a
    setter, is left exactly as it was. *)
Theorem step_frame P w a w' :
  reachable P w -> step w a w' ->
  (forall k c, call_writes a <> Some k -> ctxs w !! k = Some c ->
     ctxs w' !! k = Some c) /\
  (forall r s, call_writes_span w a <> Some r -> spans w !! r = Some s ->
     spans w' !! r = Some s).
Proof.
  intros Hw Hs.
  rewrite (step_spec w a w') by eauto using world_inv_closed, reachable_world_inv.
  split; eauto using spec_call_frame_ctx, spec_call_frame_span.
Qed.

End frame.

(** ** The theorems on the example trace *)

Section examples.
#[local] Existing Instance ddtrace_keys.

Lemma step_frame_witness :
  ctxs ex_w2 !! ex_remote = Some ex_remote_ctx /\
  spans ex_w2 !! ex_root = Some ex_root_span'.
Proof.
  destruct (step_frame proper_call ex_w1 _ ex_w2 ex_w1_reachable ex_step_child)
    as [Hc Hs].
  split; [apply Hc | apply Hs]; by first [intros [=] | reflexivity].
Defined.

End examples.
