(* ===== verification/Units.v ===== *)
(** * Units: execution units that interleave on one store

    A tracer keeps one context per execution unit (a thread, an asyncio
    task): the context is task-local, the spans a unit opens are its
    own, and the scheduler interleaves the calls of the units as it
    likes.  This file states that ownership and proves that it is
    enough: when every context and every span that is added to a context
    belongs to the unit that makes the call, the outcomes a unit sees
    and the objects it owns are what they would be if the unit ran
    alone, whatever the schedule.  Hence the final store does not depend
    on the schedule either.

    The calls considered are those of the class on objects that exist
    when the interleaving starts: a unit may close a span it does not
    own (the span a clone was handed), as closing reads the identity of
    spans and writes no span. *)

From S2P Require Import Prelude Span Objects Context Spec Invariants Reachable.

Section units.
Context {keys : TagKeys} {U : Type} `{!EqDecision U}.

(** Task-local storage: the unit every context and every span belongs
    to. *)
Variable ctx_owner : cref -> U.
Variable span_owner : sref -> U.

Implicit Types (w : world) (u : U) (a : call) (l : list (U * call))
  (self k : cref) (r p : sref) (c : Context) (s : Span) (v : value).

(** A call that unit [u] may make: on a context of its own, adding a
    span of its own; no call that allocates. *)
Definition owns u a : Prop :=
  match a with
  | CallSetSamplingPriority self _ | CallSetOrigin self _
  | CallCloseSpan self _ => ctx_owner self = u
  | CallAddSpan self span =>
      ctx_owner self = u /\
      match span with Some r => span_owner r = u | None => True end
  | CallNew _ _ _ _ | CallNewSpan _ _ _ | CallClone _ => False
  end.

(** The local root span of context [k], when its record is [c],
    belongs to the unit of [k]. *)
Definition root_owned k c : Prop :=
  match _local_root_span c with
  | Some r => span_owner r = ctx_owner k
  | None => True
  end.

(** The local root span of every context belongs to the unit of the
    context. *)
Definition confined w : Prop := map_Forall root_owned (ctxs w).

(** Two stores that hold the same contexts and spans of unit [u]. *)
Definition agree u w1 w2 : Prop :=
  (forall k, ctx_owner k = u -> ctxs w1 !! k = ctxs w2 !! k) /\
  (forall r, span_owner r = u -> spans w1 !! r = spans w2 !! r).

(** A schedule is a list of calls, each with the unit that makes it.
    The program of unit [u] and the outcomes unit [u] sees. *)
Definition calls_of u l : list call := (filter (fun x => x.1 = u) l).*2.

Definition outcomes_of u l (res : list (result unit)) : list (result unit) :=
  (filter (fun x => x.1 = u) (zip l.*1 res)).*2.

(** Every call of the schedule is one its unit may make, on objects of
    store [w]. *)
Definition schedule_ok w l : Prop :=
  Forall (fun x => owns x.1 x.2 /\ call_closed w x.2) l.

#[export] Instance owns_dec u a : Decision (owns u a).
Proof. destruct a as [| | | | ? [?|] | |]; cbn; apply _. Defined.

#[export] Instance confined_dec w : Decision (confined w).
Proof.
  unfold confined. apply map_Forall_dec. intros k c. unfold root_owned.
  destruct (_local_root_span c); apply _.
Defined.

#[export] Instance schedule_ok_dec w l : Decision (schedule_ok w l).
Proof. unfold schedule_ok. apply _. Defined.

#[export] Instance agree_equiv u : Equivalence (agree u).
Proof.
  split.
  - intros w. by split.
  - intros w1 w2 [Hc Hs]. split; intros; symmetry; auto.
  - intros w1 w2 w3 [Hc Hs] [Hc' Hs']. split; intros; etrans; auto.
Qed.

(** ** Schedules, call by call *)

Lemma calls_of_cons u u' a l :
  calls_of u ((u', a) :: l) =
    if decide (u' = u) then a :: calls_of u l else calls_of u l.
Proof. unfold calls_of. rewrite filter_cons. cbn. by case_decide. Qed.

Lemma outcomes_of_cons u u' a l res ress :
  outcomes_of u ((u', a) :: l) (res :: ress) =
    if decide (u' = u) then res :: outcomes_of u l ress else outcomes_of u l ress.
Proof.
  unfold outcomes_of. change (zip ((u', a) :: l).*1 (res :: ress))
    with ((u', res) :: zip l.*1 ress).
  rewrite filter_cons. cbn. by case_decide.
Qed.

Lemma run_calls_cons a (l : list call) w :
  run_calls (a :: l) w =
    ((run_call a w).1 :: (run_calls l (run_call a w).2).1,
     (run_calls l (run_call a w).2).2).
Proof.
  cbn [run_calls]. destruct (run_call a w) as [res w1]. cbn.
  by destruct (run_calls l w1).
Qed.

(** ** One call *)

Lemma alter_root_agree u root f w1 w2 r :
  spans w1 !! r = spans w2 !! r ->
  alter_root root f (spans w1) !! r = alter_root root f (spans w2) !! r.
Proof. destruct root; unfold alter_root; auto using lookup_alter_agree. Qed.

Lemma owns_target u a :
  owns u a -> exists self, call_target a = Some self /\ ctx_owner self = u.
Proof. destruct a; cbn; intuition eauto. Qed.

(** A call of unit [u] has the same outcome in two stores that agree
    on the objects of [u], and leaves them in agreement. *)
Lemma spec_call_agree w0 w1 w2 u a :
  closed w0 -> w0 ⊑ w1 -> w0 ⊑ w2 -> call_closed w0 a -> owns u a ->
  agree u w1 w2 ->
  (spec_call a w1).1 = (spec_call a w2).1 /\
  agree u (spec_call a w1).2 (spec_call a w2).2.
Proof.
  intros Hw0 H1 H2 Ha Hown [Hc Hs].
  destruct (owns_target u a Hown) as (k & Ht & Hu).
  destruct a as [| self v | self v | self | self [r|] | self [r|] |];
    cbn in Hown, Ha, Ht |- *; try done; injection Ht as <-;
    rewrite <- ?(Hc self) by done;
    destruct (ctxs w1 !! self) as [c|]; try done.
  - split; [done|]. split; cbn; auto using lookup_insert_agree, alter_root_agree.
  - split; [done|]. split; cbn; auto using lookup_insert_agree, alter_root_agree.
  - rewrite <- (Hs r) by apply Hown. destruct (spans w1 !! r) as [s|]; [|done].
    split; [done|]. split; cbn; auto using lookup_insert_agree.
  - destruct Ha as [_ [s0 Hs0]].
    destruct (proj1 H1 _ _ Hs0) as (s1 & Hs1 & _), (proj1 H2 _ _ Hs0) as (s2 & Hs2 & _).
    rewrite Hs1, Hs2. split; [done|].
    rewrite (close_span_ctx_extends w0 w1 r s0 s1), (close_span_ctx_extends w0 w2 r s0 s2)
      by done.
    split; cbn; auto using lookup_insert_agree.
  - split; [done|]. destruct (_local_root_span c); [done|].
    split; cbn; auto using lookup_insert_agree.
Qed.

(** A call of another unit leaves the objects of [u] as they are. *)
Lemma spec_call_agree_other w u u' a :
  owns u' a -> u' <> u -> confined w -> agree u w (spec_call a w).2.
Proof.
  intros Hown Hne Hconf.
  assert (forall self k (m : gmap cref Context) c,
            ctx_owner self = u' -> ctx_owner k = u -> m !! k = <[self := c]> m !! k)
    as Hins by (intros; rewrite lookup_insert_ne; congruence).
  assert (forall self c f r, ctxs w !! self = Some c -> ctx_owner self = u' ->
            span_owner r = u ->
            spans w !! r = alter_root (_local_root_span c) f (spans w) !! r) as Halt.
  { intros self c f r Hself Hu' Hr. pose proof (Hconf _ _ Hself) as Hroot.
    unfold root_owned in Hroot.
    unfold alter_root. destruct (_local_root_span c) as [r0|]; [|done].
    rewrite lookup_alter_ne; congruence. }
  destruct a as [| self v | self v | self | self [r|] | self [r|] |];
    cbn in Hown |- *; try done; destruct_and?; repeat case_match; try done;
    split; cbn; eauto.
  intros r0 Hr0. rewrite lookup_insert_ne; congruence.
Qed.

(** Ownership of the root spans is kept by every call a unit may make. *)
Lemma confined_spec_call w u a : owns u a -> confined w -> confined (spec_call a w).2.
Proof.
  intros Hown Hconf.
  destruct a as [| self v | self v | self | self [r|] | self [r|] |];
    cbn in Hown |- *; try done; destruct_and?; repeat case_match; try done;
    cbn; apply map_Forall_insert_2; try done;
    match goal with H : ctxs w !! _ = Some _ |- _ => pose proof (Hconf _ _ H) as Hroot end;
    unfold root_owned in *; cbn in Hroot |- *; try done;
    unfold add_span_ctx, close_span_ctx, activate; repeat case_match; cbn;
    simplify_eq/=; try done; congruence.
Qed.

(** ** Schedules *)

(** The run of a schedule from [w1] against the run of the program of
    unit [u] alone from [w2], for stores that agree on the objects of
    [u] and hold the objects of [w0]. *)
Lemma run_calls_agree w0 u l :
  closed w0 -> schedule_ok w0 l ->
  forall w1 w2,
    world_inv w1 -> world_inv w2 -> w0 ⊑ w1 -> w0 ⊑ w2 -> confined w1 ->
    agree u w1 w2 ->
    outcomes_of u l (run_calls l.*2 w1).1 = (run_calls (calls_of u l) w2).1 /\
    agree u (run_calls l.*2 w1).2 (run_calls (calls_of u l) w2).2.
Proof.
  intros Hw0 Hl. induction Hl as [|[u' a] l [Hown Ha] _ IH];
    intros w1 w2 Hi1 Hi2 He1 He2 Hconf Hag; [done|].
  pose proof (call_closed_extends _ _ a He1 Ha) as Ha1.
  change (((u', a) :: l).*2) with (a :: l.*2).
  rewrite run_calls_cons, (run_call_spec w1) by auto using world_inv_closed.
  cbn [fst snd]. rewrite calls_of_cons, outcomes_of_cons.
  assert (world_inv (spec_call a w1).2 /\ w0 ⊑ (spec_call a w1).2 /\
          confined (spec_call a w1).2) as (Hi1' & He1' & Hconf').
  { split_and!; [by apply world_inv_spec_call | | by eapply confined_spec_call].
    etrans; [exact He1 | apply spec_call_extends]. }
  case_decide as Hu; [subst u'|].
  - pose proof (call_closed_extends _ _ a He2 Ha) as Ha2.
    rewrite run_calls_cons, (run_call_spec w2) by auto using world_inv_closed.
    cbn [fst snd].
    destruct (spec_call_agree w0 w1 w2 u a) as [-> Hag']; [done..|].
    destruct (IH (spec_call a w1).2 (spec_call a w2).2) as [-> ?];
      [done | by apply world_inv_spec_call | done | | done.. ].
    etrans; [exact He2 | apply spec_call_extends].
  - apply IH; [done..|]. etrans; [|done].
    symmetry. by eapply spec_call_agree_other.
Qed.

(** From one store: the schedule against the program of [u] alone. *)
Lemma run_schedule w u l :
  world_inv w -> confined w -> schedule_ok w l ->
  outcomes_of u l (run_calls l.*2 w).1 = (run_calls (calls_of u l) w).1 /\
  agree u (run_calls l.*2 w).2 (run_calls (calls_of u l) w).2.
Proof.
  intros Hw Hconf Hl.
  by apply (run_calls_agree w u l (world_inv_closed w Hw) Hl w w).
Qed.

(** Stores in which every unit sees the same objects are equal. *)
Lemma agree_all w1 w2 : (forall u, agree u w1 w2) -> w1 = w2.
Proof.
  intros H. apply world_eq; apply map_eq; intros i.
  - by apply (H (span_owner i)).
  - by apply (H (ctx_owner i)).
Qed.

(** The final store does not depend on the schedule: two schedules
    that give every unit the same program end in the same store, and
    every unit sees the same outcomes. *)
Lemma schedule_independent P w l l' u :
  reachable P w -> confined w -> schedule_ok w l -> schedule_ok w l' ->
  (forall u, calls_of u l = calls_of u l') ->
  (run_calls l.*2 w).2 = (run_calls l'.*2 w).2 /\
  outcomes_of u l (run_calls l.*2 w).1 = outcomes_of u l' (run_calls l'.*2 w).1.
Proof.
  intros Hw Hconf Hl Hl' Heq. pose proof (reachable_world_inv _ _ Hw) as Hinv.
  split.
  - apply agree_all. intros u0. etrans; [by apply run_schedule|].
    rewrite Heq. symmetry. by apply run_schedule.
  - rewrite (proj1 (run_schedule w u l Hinv Hconf Hl)),
      (proj1 (run_schedule w u l' Hinv Hconf Hl')). by rewrite Heq.
Qed.

(** C22. Units do not interfere: when every context belongs to one
    execution unit, every span that is added to a context belongs to
    the unit of that context, and the units make their calls
    (assignments of sampling priority and origin, [add_span],
    [close_span], on objects that exist) in any interleaving, then the
    outcomes a unit sees, exceptions included, and the contexts and
    spans it owns at the end are those of its own calls run alone. *)
Theorem unit_noninterference P w l u :
  reachable P w -> confined w -> schedule_ok w l ->
  outcomes_of u l (run_calls l.*2 w).1 = (run_calls (calls_of u l) w).1 /\
  agree u (run_calls l.*2 w).2 (run_calls (calls_of u l) w).2.
Proof.
  intros Hw. apply run_schedule. by eapply reachable_world_inv.
Qed.

End units.

(** ** Two units on the example store *)

Section examples.
#[local] Existing Instance ddtrace_keys.

Definition ex_other : sref := SRef 3.

(** The example store with a span for the second unit. *)
Definition ex_units_w : world :=
  upd_spans <[ex_other := Span__init__ (VInt 42) (VInt 8) None]> ex_w0.

(** Unit [true] owns [ex_self] and the spans of its trace, unit [false]
    owns the context that came from a remote service and its span. *)
Definition ex_ctx_owner (k : cref) : bool := bool_decide (k = ex_self).
Definition ex_span_owner (r : sref) : bool := bool_decide (r <> ex_other).

Definition ex_schedule : list (bool * call) :=
  [ (true, CallAddSpan ex_self (Some ex_root));
    (false, CallAddSpan ex_remote (Some ex_other));
    (true, CallAddSpan ex_self (Some ex_child));
    (false, CallSetOrigin ex_remote (VStr "rum"));
    (false, CallCloseSpan ex_remote None);
    (true, CallCloseSpan ex_self (Some ex_child));
    (false, CallCloseSpan ex_remote (Some ex_other)) ].

Lemma ex_units_w_reachable : reachable any_call ex_units_w.
Proof.
  replace ex_units_w
    with (spec_calls (ex_setup ++ [CallNewSpan (VInt 42) (VInt 8) None]) empty_world).2
    by by vm_compute.
  apply reachable_spec_calls; [constructor | by repeat constructor | by compute_done].
Qed.

Lemma unit_noninterference_witness :
  outcomes_of true ex_schedule (run_calls ex_schedule.*2 ex_units_w).1 =
    (run_calls (calls_of true ex_schedule) ex_units_w).1 /\
  agree ex_ctx_owner ex_span_owner true
    (run_calls ex_schedule.*2 ex_units_w).2
    (run_calls (calls_of true ex_schedule) ex_units_w).2.
Proof.
  apply (unit_noninterference ex_ctx_owner ex_span_owner any_call);
    [apply ex_units_w_reachable | by compute_done | by compute_done].
Defined.

End examples.
