(* ===== verification/Steps.v ===== *)
(** * Steps: the methods, one heap access at a time

    The methods of [Context] are functions from stores to stores: a call
    is one transition.  The interpreter may switch threads between any
    two attribute accesses, so to say what happens when calls overlap a
    method has to be a sequence of accesses that can be stopped and
    resumed.  A [prog] is that sequence: a tree whose nodes are the
    reads and writes of attributes, with the rest of the method as
    continuation.  Every method is written again as a [prog], statement
    by statement; run without interruption ([interp]) it is the method
    of [Context] ([interp_call]).  [pstep] is one turn of the scheduler:
    the next access, or the return. *)

From S2P Require Import Prelude Span Objects Context Spec.

(** ** Programs *)

(** The accesses are those of [Objects]: an attribute of a context or
    of a span is read or written, an object is allocated. *)
Inductive prog (A : Type) : Type :=
| Ret (a : A)
| GetCtx {B : Type} (self : cref) (f : Context -> B) (k : B -> prog A)
| SetCtx (self : cref) (upd : Context -> Context) (k : prog A)
| GetSpan {B : Type} (span : option sref) (attr : string) (f : Span -> B)
    (k : B -> prog A)
| SetSpan (span : option sref) (attr : string) (upd : Span -> Span) (k : prog A)
| AllocCtx (c : Context) (k : cref -> prog A)
| AllocSpan (s : Span) (k : sref -> prog A).

Arguments Ret {A} a.
Arguments GetCtx {A B} self f k.
Arguments SetCtx {A} self upd k.
Arguments GetSpan {A B} span attr f k.
Arguments SetSpan {A} span attr upd k.
Arguments AllocCtx {A} c k.
Arguments AllocSpan {A} s k.

(** Sequencing: the second program is the continuation of every leaf
    of the first. *)
Fixpoint pbind {A B} (p : prog A) (h : A -> prog B) : prog B :=
  match p with
  | Ret a => h a
  | GetCtx self f k => GetCtx self f (fun b => pbind (k b) h)
  | SetCtx self upd k => SetCtx self upd (pbind k h)
  | GetSpan span attr f k => GetSpan span attr f (fun b => pbind (k b) h)
  | SetSpan span attr upd k => SetSpan span attr upd (pbind k h)
  | AllocCtx c k => AllocCtx c (fun r => pbind (k r) h)
  | AllocSpan s k => AllocSpan s (fun r => pbind (k r) h)
  end.

Definition pwhen (b : bool) (p : prog unit) : prog unit :=
  if b then p else Ret tt.

Declare Scope prog_scope.
Delimit Scope prog_scope with prog.
Bind Scope prog_scope with prog.
Notation "x <- c ;; k" := (pbind c%prog (fun x => k%prog))
  (at level 100, c at next level, k at level 200, right associativity) : prog_scope.
Notation "c ;; k" := (pbind c%prog (fun _ => k%prog))
  (at level 100, k at level 200, right associativity) : prog_scope.

(** ** Running a program *)

(** Without interruption: the accesses in sequence, in the monad of
    the methods. *)
Fixpoint interp {A} (p : prog A) : M world A :=
  match p with
  | Ret a => ret a
  | GetCtx self f k => b <- getattr_ctx self f ;; interp (k b)
  | SetCtx self upd k => setattr_ctx self upd ;; interp k
  | GetSpan span attr f k => b <- getattr_span span attr f ;; interp (k b)
  | SetSpan span attr upd k => setattr_span span attr upd ;; interp k
  | AllocCtx c k => r <- alloc_ctx c ;; interp (k r)
  | AllocSpan s k => r <- alloc_span s ;; interp (k r)
  end.

(** What one scheduler turn makes of a program: it returned, it made
    an access and goes on, or the access raised. *)
Inductive next (A : Type) : Type :=
| Done (a : A)
| More (p : prog A)
| Failed (e : exn).
Arguments Done {A} a.
Arguments More {A} p.
Arguments Failed {A} e.

Definition continue {A B} (k : B -> prog A) (r : result B * world)
    : next A * world :=
  match r with
  | (Ok b, w) => (More (k b), w)
  | (Raise e, w) => (Failed e, w)
  end.

(** One turn: the next access of the program, or its return. *)
Definition pstep {A} (p : prog A) (w : world) : next A * world :=
  match p with
  | Ret a => (Done a, w)
  | GetCtx self f k => continue k (getattr_ctx self f w)
  | SetCtx self upd k => continue (fun _ => k) (setattr_ctx self upd w)
  | GetSpan span attr f k => continue k (getattr_span span attr f w)
  | SetSpan span attr upd k => continue (fun _ => k) (setattr_span span attr upd w)
  | AllocCtx c k => continue k (alloc_ctx c w)
  | AllocSpan s k => continue k (alloc_span s w)
  end.

(** The number of scheduler turns a program takes from a store when it
    runs alone: one per access, and one to return. *)
Fixpoint cost {A} (p : prog A) (w : world) : nat :=
  match p with
  | Ret _ => 1
  | GetCtx self f k =>
      match getattr_ctx self f w with (Ok b, w') => S (cost (k b) w') | _ => 1 end
  | SetCtx self upd k =>
      match setattr_ctx self upd w with (Ok _, w') => S (cost k w') | _ => 1 end
  | GetSpan span attr f k =>
      match getattr_span span attr f w with (Ok b, w') => S (cost (k b) w') | _ => 1 end
  | SetSpan span attr upd k =>
      match setattr_span span attr upd w with (Ok _, w') => S (cost k w') | _ => 1 end
  | AllocCtx c k =>
      match alloc_ctx c w with (Ok r, w') => S (cost (k r) w') | _ => 1 end
  | AllocSpan s k =>
      match alloc_span s w with (Ok r, w') => S (cost (k r) w') | _ => 1 end
  end.

(** ** Run lemmas: one turn on a store that holds the object *)

Section pstep_run.
Implicit Types (w : world) (self : cref) (r : sref) (c : Context) (s : Span).

Lemma pstep_GetCtx {A B} self (f : Context -> B) (k : B -> prog A) w c :
  ctxs w !! self = Some c -> pstep (GetCtx self f k) w = (More (k (f c)), w).
Proof. intros Hc. unfold pstep. by erewrite getattr_ctx_run. Qed.

Lemma pstep_SetCtx {A} self upd (k : prog A) w c :
  ctxs w !! self = Some c ->
  pstep (SetCtx self upd k) w = (More k, upd_ctxs <[self := upd c]> w).
Proof. intros Hc. unfold pstep. by erewrite setattr_ctx_run. Qed.

Lemma pstep_GetSpan {A B} r attr (f : Span -> B) (k : B -> prog A) w s :
  spans w !! r = Some s -> pstep (GetSpan (Some r) attr f k) w = (More (k (f s)), w).
Proof. intros Hs. unfold pstep. by erewrite getattr_span_run. Qed.

Lemma pstep_SetSpan {A} r attr upd (k : prog A) w s :
  spans w !! r = Some s ->
  pstep (SetSpan (Some r) attr upd k) w = (More k, upd_spans <[r := upd s]> w).
Proof. intros Hs. unfold pstep. by erewrite setattr_span_run. Qed.

End pstep_run.

(** ** The methods (context.py, lines 13-109) *)

Section methods.
Context {keys : TagKeys}.
Implicit Types (self : cref) (span : option sref) (v : value).

Definition getattr_ctx_prog {B} self (f : Context -> B) : prog B := GetCtx self f Ret.
Definition setattr_ctx_prog self upd : prog unit := SetCtx self upd (Ret tt).
Definition getattr_span_prog {B} span attr (f : Span -> B) : prog B :=
  GetSpan span attr f Ret.
Definition setattr_span_prog span attr upd : prog unit := SetSpan span attr upd (Ret tt).

(** The constructor: the object is not shared before [__init__]
    returns, so its seven assignments are one allocation. *)
Definition new_prog (trace_id span_id sampling_priority dd_origin : value) : prog cref :=
  AllocCtx (__init__ trace_id span_id sampling_priority dd_origin) Ret.

Definition sampling_priority_prog self : prog value :=
  getattr_ctx_prog self _sampling_priority.

Definition sampling_priority_setter_prog self v : prog unit :=
  root <- getattr_ctx_prog self _local_root_span ;;
  pwhen (truthy root)
    (root' <- getattr_ctx_prog self _local_root_span ;;
     setattr_span_prog root' "metrics" (set_metrics (setitem SAMPLING_PRIORITY_KEY v))) ;;
  setattr_ctx_prog self (set__sampling_priority v).

Definition dd_origin_prog self : prog value :=
  getattr_ctx_prog self _dd_origin.

Definition dd_origin_setter_prog self v : prog unit :=
  root <- getattr_ctx_prog self _local_root_span ;;
  pwhen (truthy root)
    (root' <- getattr_ctx_prog self _local_root_span ;;
     setattr_span_prog root' "meta" (set_meta (setitem ORIGIN_KEY v))) ;;
  setattr_ctx_prog self (set__dd_origin v).

Definition trace_id_prog self : prog value :=
  getattr_ctx_prog self _trace_id.

Definition span_id_prog self : prog value :=
  getattr_ctx_prog self _active_span_id.

Definition clone_prog self : prog cref :=
  tid <- getattr_ctx_prog self _trace_id ;;
  sid <- getattr_ctx_prog self _active_span_id ;;
  p <- sampling_priority_prog self ;;
  o <- dd_origin_prog self ;;
  new_ctx <- new_prog tid sid p o ;;
  sid' <- getattr_ctx_prog self _active_span_id ;;
  setattr_ctx_prog new_ctx (set__active_span_id sid') ;;
  Ret new_ctx.

Definition get_current_root_span_prog self : prog (option sref) :=
  getattr_ctx_prog self _local_root_span.

Definition get_current_span_prog self : prog (option sref) :=
  getattr_ctx_prog self _active_span.

Definition _set_current_span_prog self span : prog unit :=
  setattr_ctx_prog self (set__active_span span) ;;
  if truthy span then
    tid <- getattr_span_prog span "trace_id" Span.trace_id ;;
    setattr_ctx_prog self (set__trace_id tid) ;;
    sid <- getattr_span_prog span "span_id" Span.span_id ;;
    setattr_ctx_prog self (set__active_span_id sid)
  else
    setattr_ctx_prog self (set__active_span_id VNone).

Definition add_span_prog self span : prog unit :=
  parent <- getattr_span_prog span "_parent" _parent ;;
  pwhen (negb (truthy parent))
    (setattr_ctx_prog self (set__local_root_span span) ;;
     o <- dd_origin_prog self ;;
     pwhen (negb (is_None o))
       (o' <- dd_origin_prog self ;;
        setattr_span_prog span "meta" (set_meta (setitem ORIGIN_KEY o'))) ;;
     p <- sampling_priority_prog self ;;
     pwhen (negb (is_None p))
       (p' <- sampling_priority_prog self ;;
        setattr_span_prog span "metrics"
          (set_metrics (setitem SAMPLING_PRIORITY_KEY p')))) ;;
  _set_current_span_prog self span ;;
  setattr_span_prog span "_context" (set__context (Some self)).

Definition close_span_prog self span : prog unit :=
  root <- getattr_ctx_prog self _local_root_span ;;
  pwhen (py_eq span root)
    (setattr_ctx_prog self (set__local_root_span None) ;;
     setattr_ctx_prog self (set__trace_root_span_id VNone) ;;
     setattr_ctx_prog self (set__trace_id VNone)) ;;
  parent <- getattr_span_prog span "_parent" _parent ;;
  _set_current_span_prog self parent.

(** The method a call runs, as in [run_call]. *)
Definition call_prog (a : call) : prog unit :=
  match a with
  | CallNew tid sid prio orig => new_prog tid sid prio orig ;; Ret tt
  | CallSetSamplingPriority self v => sampling_priority_setter_prog self v
  | CallSetOrigin self v => dd_origin_setter_prog self v
  | CallClone self => clone_prog self ;; Ret tt
  | CallAddSpan self span => add_span_prog self span
  | CallCloseSpan self span => close_span_prog self span
  | CallNewSpan tid sid parent => AllocSpan (Span__init__ tid sid parent) (fun _ => Ret tt)
  end.

End methods.

(** ** Uninterrupted, a program is the method *)

(** [c] is what [p] does when it is not interrupted. *)
Definition implements {A} (p : prog A) (c : M world A) : Prop :=
  forall w, interp p w = c w.

Section interp.
Implicit Types (w : world) (self : cref) (span : option sref).

Lemma implements_ret {A} (a : A) : implements (Ret a) (ret a).
Proof. done. Qed.

Lemma interp_bind {A B} (p : prog A) (h : A -> prog B) w :
  interp (pbind p h) w = (a <- interp p ;; interp (h a)) w.
Proof.
  revert w.
  induction p as [a|B0 self f p IH|self upd p IH|B0 span attr f p IH
                 |span attr upd p IH|c p IH|s p IH]; intros w; cbn;
    [done|unfold bind in *..].
  - destruct (getattr_ctx self f w) as [[b|e] w']; [apply IH|done].
  - destruct (setattr_ctx self upd w) as [[[]|e] w']; [apply IH|done].
  - destruct (getattr_span span attr f w) as [[b|e] w']; [apply IH|done].
  - destruct (setattr_span span attr upd w) as [[[]|e] w']; [apply IH|done].
  - apply IH.
  - apply IH.
Qed.

Lemma implements_bind {A B} (p : prog A) (h : A -> prog B) c k :
  implements p c -> (forall a, implements (h a) (k a)) ->
  implements (pbind p h) (bind c k).
Proof.
  intros Hp Hh w. rewrite interp_bind. unfold bind. rewrite Hp.
  destruct (c w) as [[a|e] w']; [apply Hh|done].
Qed.

Lemma implements_when b (p : prog unit) c :
  implements p c -> implements (pwhen b p) (when b c).
Proof. by destruct b. Qed.

Lemma implements_if {A} (b : bool) (p1 p2 : prog A) c1 c2 :
  implements p1 c1 -> implements p2 c2 ->
  implements (if b then p1 else p2) (if b then c1 else c2).
Proof. by destruct b. Qed.

Lemma implements_getattr_ctx {B} self (f : Context -> B) :
  implements (getattr_ctx_prog self f) (getattr_ctx self f).
Proof. intros w. apply bind_ret_r. Qed.

Lemma implements_getattr_span {B} span attr (f : Span -> B) :
  implements (getattr_span_prog span attr f) (getattr_span span attr f).
Proof. intros w. apply bind_ret_r. Qed.

Lemma implements_setattr_ctx self upd :
  implements (setattr_ctx_prog self upd) (setattr_ctx self upd).
Proof.
  intros w. cbn. unfold bind. by destruct (setattr_ctx self upd w) as [[[]|e] w'].
Qed.

Lemma implements_setattr_span span attr upd :
  implements (setattr_span_prog span attr upd) (setattr_span span attr upd).
Proof.
  intros w. cbn. unfold bind.
  by destruct (setattr_span span attr upd w) as [[[]|e] w'].
Qed.

Lemma implements_alloc_ctx c : implements (AllocCtx c Ret) (alloc_ctx c).
Proof. done. Qed.

End interp.

Create HintDb prog discriminated.
#[export] Hint Resolve implements_ret implements_bind implements_when implements_if
  implements_getattr_ctx implements_getattr_span implements_setattr_ctx
  implements_setattr_span implements_alloc_ctx : prog.

(** [implements p c] for a method [c] and its program [p], by the
    structure the two definitions share. *)
Ltac implements :=
  repeat first
    [ progress intros
    | apply implements_bind | apply implements_when | apply implements_if
    | apply implements_ret
    | apply implements_getattr_ctx | apply implements_getattr_span
    | apply implements_setattr_ctx | apply implements_setattr_span
    | apply implements_alloc_ctx
    | assumption
    | solve [unfold implements; intros; reflexivity]
    | match goal with
      | |- implements ?p ?c =>
          let hp := head_of p in let hc := head_of c in
          progress unfold hp, hc
      end ].

Section equivalence.
Context {keys : TagKeys}.
Implicit Types (w : world) (self : cref) (span : option sref) (v : value) (a : call).

Lemma implements_set_current_span self span :
  implements (_set_current_span_prog self span) (_set_current_span self span).
Proof. implements. Qed.

Lemma implements_add_span self span :
  implements (add_span_prog self span) (add_span self span).
Proof. implements. Qed.

Lemma implements_close_span self span :
  implements (close_span_prog self span) (close_span self span).
Proof. implements. Qed.

Lemma implements_clone self : implements (clone_prog self) (clone self).
Proof. implements. Qed.

(** The getters are one read each. *)
Lemma implements_getters self :
  implements (sampling_priority_prog self) (sampling_priority self) /\
  implements (dd_origin_prog self) (dd_origin self) /\
  implements (trace_id_prog self) (trace_id self) /\
  implements (span_id_prog self) (span_id self) /\
  implements (get_current_root_span_prog self) (get_current_root_span self) /\
  implements (get_current_span_prog self) (get_current_span self).
Proof. split_and!; implements. Qed.

(** Every method of the class is its program run without
    interruption: the same outcome and the same store. *)
Lemma interp_call a w : interp (call_prog a) w = run_call a w.
Proof.
  revert w. change (implements (call_prog a) (run_call a)).
  destruct a; cbn [call_prog run_call]; implements.
Qed.

(** One turn, then the rest, is the whole program. *)
Lemma interp_pstep {A} (p : prog A) w :
  interp p w =
    match pstep p w with
    | (Done a, w') => (Ok a, w')
    | (More p', w') => interp p' w'
    | (Failed e, w') => (Raise e, w')
    end.
Proof.
  destruct p; cbn; unfold bind, continue; try done;
    repeat case_match; by simplify_eq.
Qed.

Lemma cost_pstep {A} (p : prog A) w :
  cost p w = match pstep p w with (More p', w') => S (cost p' w') | _ => 1 end.
Proof.
  destruct p; cbn; unfold continue; try done; repeat case_match; by simplify_eq.
Qed.

End equivalence.

(** ** The cost of a call *)

Section cost.
Context {keys : TagKeys}.

(** No method loops: a call makes at most fourteen attribute accesses
    before it returns, in every store and for every argument.  The
    longest is [add_span] of a root span on a context with origin and
    sampling priority. *)
Lemma cost_call_le a w : cost (call_prog a) w <= 15.
Proof.
  destruct a as [| self v | self v | self | self span | self span |];
    cbn [call_prog];
    unfold sampling_priority_setter_prog, dd_origin_setter_prog, clone_prog,
      add_span_prog, close_span_prog, _set_current_span_prog, new_prog,
      sampling_priority_prog, dd_origin_prog, getattr_ctx_prog, setattr_ctx_prog,
      getattr_span_prog, setattr_span_prog, pwhen;
    repeat first [ progress cbn [cost pbind] | case_match ]; lia.
Qed.

End cost.
