(* ===== verification/Threads.v ===== *)
(** * Threads: calls that overlap

    The class takes no lock, and the interpreter may switch threads
    between any two attribute accesses of a method.  This file runs the
    programs of [Steps] in a pool of threads over one store: at each
    turn the scheduler picks a thread, which makes its next access.

    The theorem is that the ownership of [Units] makes the calls
    atomic: when every context and every span that is added belongs to
    the thread that makes the call, a thread that is given the turns
    its calls need completes them with the outcomes and the objects of
    the methods run one after the other, alone, wherever the scheduler
    switches; when every thread does, the store is that of the calls
    made one at a time.  File [Race] shows what two threads on one
    context do to it. *)

From S2P Require Import Prelude Span Objects Context Spec Invariants Reachable.
From S2P Require Import Units Steps.
From stdpp Require Import functions.

(** ** The pool *)

(** A thread: the calls it still has to make, the first of which may
    be under way, and the outcomes of the calls it has made. *)
Record thread : Type := Thread {
  todo : list (prog unit);
  done : list (result unit)
}.

(** One turn of a thread: the call under way returns, makes an access,
    or raises; an exception ends the call, not the thread. *)
Definition tick (t : thread) (w : world) : thread * world :=
  match todo t with
  | [] => (t, w)
  | p :: ps =>
      match pstep p w with
      | (Done _, w') => (Thread ps (done t ++ [Ok tt]), w')
      | (More p', w') => (Thread (p' :: ps) (done t), w')
      | (Failed e, w') => (Thread ps (done t ++ [Raise e]), w')
      end
  end.

(** The pool under a schedule: the thread named at each turn moves. *)
Fixpoint run_pool {U} `{!EqDecision U} (sched : list U) (P : U -> thread) (w : world)
    : (U -> thread) * world :=
  match sched with
  | [] => (P, w)
  | u :: sched => run_pool sched (<[u := (tick (P u) w).1]> P) (tick (P u) w).2
  end.

(** The threads at the start: each has its calls to make. *)
Definition spawn {keys : TagKeys} {U} (calls : U -> list call) : U -> thread :=
  fun u => Thread (map call_prog (calls u)) [].

(** ** A thread alone *)

(** The calls run one after the other, without interruption. *)
Fixpoint run_progs (ps : list (prog unit)) (w : world) : list (result unit) * world :=
  match ps with
  | [] => ([], w)
  | p :: ps =>
      let '(res, w1) := interp p w in
      let '(ress, w2) := run_progs ps w1 in (res :: ress, w2)
  end.

(** What a thread has when it is left alone from now on. *)
Definition finish (t : thread) (w : world) : list (result unit) * world :=
  (done t ++ (run_progs (todo t) w).1, (run_progs (todo t) w).2).

(** The turns that takes. *)
Fixpoint turns (ps : list (prog unit)) (w : world) : nat :=
  match ps with
  | [] => 0
  | p :: ps => cost p w + turns ps (exec (interp p) w)
  end.

Section alone.
Context {keys : TagKeys}.
Implicit Types (t : thread) (w : world) (p : prog unit) (ps : list (prog unit))
  (l : list call).

Lemma run_progs_cons p ps w :
  run_progs (p :: ps) w =
    ((interp p w).1 :: (run_progs ps (interp p w).2).1,
     (run_progs ps (interp p w).2).2).
Proof.
  cbn [run_progs]. destruct (interp p w) as [res w1]. cbn.
  by destruct (run_progs ps w1).
Qed.

Lemma run_progs_calls l w : run_progs (map call_prog l) w = run_calls l w.
Proof.
  revert w. induction l as [|a l IH]; intros w; [done|]. cbn.
  rewrite interp_call. destruct (run_call a w) as [res w1]. by rewrite IH.
Qed.

(** A turn changes nothing of what the thread ends with. *)
Lemma tick_finish t w : finish (tick t w).1 (tick t w).2 = finish t w.
Proof.
  unfold finish, tick. destruct t as [[|p ps] ds]; [done|]. cbn [todo done].
  rewrite (run_progs_cons p), (interp_pstep p).
  destruct (pstep p w) as [[[]|p'|e] w']; cbn [fst snd todo done];
    rewrite ?run_progs_cons, <- ?app_assoc; done.
Qed.

Lemma cost_pos {A} (q : prog A) w : 0 < cost q w.
Proof. rewrite cost_pstep. repeat case_match; lia. Qed.

Lemma turns_nil ps w : turns ps w = 0 -> ps = [].
Proof. destruct ps as [|p ps]; [done|]. cbn. pose proof (cost_pos p w). lia. Qed.

(** A turn is one turn less to go. *)
Lemma tick_turns t w :
  turns (todo (tick t w).1) (tick t w).2 = pred (turns (todo t) w).
Proof.
  unfold tick. destruct t as [[|p ps] ds]; [done|]. cbn [todo done turns].
  unfold exec. rewrite (cost_pstep p), (interp_pstep p).
  destruct (pstep p w) as [[[]|p'|e] w']; cbn [fst snd todo done turns]; [done| |done].
  unfold exec. lia.
Qed.


End alone.

(** ** Ownership, access by access *)

Section owned.
Context {keys : TagKeys} {U : Type} `{!EqDecision U}.
Variable ctx_owner : cref -> U.
Variable span_owner : sref -> U.

#[local] Abbreviation root_owned := (root_owned ctx_owner span_owner).
#[local] Abbreviation confined := (confined ctx_owner span_owner).
#[local] Abbreviation agree := (agree ctx_owner span_owner).
#[local] Abbreviation owns := (owns ctx_owner span_owner).

Implicit Types (w : world) (u : U) (a : call) (t : thread) (sched : list U)
  (P : U -> thread) (self k : cref) (r : sref) (c : Context) (s : Span).

(** A program every access of which thread [u] may make: it reads and
    writes contexts of [u], leaves their root spans with [u], writes
    spans of [u] without changing their identity, reads of a span
    nothing but its identity, and allocates nothing. *)
Fixpoint owned {A} u (p : prog A) : Prop :=
  match p with
  | Ret _ => True
  | GetCtx self f k =>
      ctx_owner self = u /\ forall c, root_owned self c -> owned u (k (f c))
  | SetCtx self upd k =>
      ctx_owner self = u /\
      (forall c, root_owned self c -> root_owned self (upd c)) /\ owned u k
  | GetSpan span attr f k =>
      (forall s s', same_identity s s' -> f s = f s') /\ forall b, owned u (k b)
  | SetSpan span attr upd k =>
      match span with Some r => span_owner r = u | None => True end /\
      (forall s, same_identity s (upd s)) /\ owned u k
  | AllocCtx _ _ | AllocSpan _ _ => False
  end.

Definition thread_owned u t : Prop := Forall (owned u) (todo t).

(** Two stores that hold the same spans, up to what the context
    writes. *)
Definition similar w1 w2 : Prop :=
  forall r, option_Forall2 same_identity (spans w1 !! r) (spans w2 !! r).

(** What thread [u] cannot tell apart. *)
Definition related u w1 w2 : Prop := agree u w1 w2 /\ similar w1 w2.

#[export] Instance similar_equiv : Equivalence similar.
Proof.
  split.
  - intros w r. reflexivity.
  - intros w1 w2 H r. by symmetry.
  - intros w1 w2 w3 H1 H2 r. etrans; [apply H1 | apply H2].
Qed.

#[export] Instance related_equiv u : Equivalence (related u).
Proof.
  split.
  - by intros w.
  - by intros w1 w2 [? ?].
  - intros w1 w2 w3 [? ?] [? ?]. split; by etrans.
Qed.

(** ** The calls of a thread are programs it owns *)

Lemma owned_call u a : owns u a -> owned u (call_prog a).
Proof.
  destruct a as [| self v | self v | self | self span | self span |];
    cbn [Units.owns call_prog]; try done; intros Hown; destruct_and?;
    unfold sampling_priority_setter_prog, dd_origin_setter_prog, add_span_prog,
      close_span_prog, _set_current_span_prog, dd_origin_prog,
      sampling_priority_prog, getattr_ctx_prog, setattr_ctx_prog,
      getattr_span_prog, setattr_span_prog, pwhen;
    repeat first
      [ progress cbn
      | split
      | progress intros
      | case_match
      | done
      | progress unfold Units.root_owned in *
      | match goal with H : same_identity _ _ |- _ => destruct H as (? & ? & ?) end
      | match goal with
        | H : _local_root_span ?c = _, H' : context [_local_root_span ?c] |- _ =>
            rewrite H in H'
        end
      | congruence ].
Qed.

(** ** One turn of a program *)

Lemma similar_insert w r s s' :
  spans w !! r = Some s -> same_identity s s' ->
  similar w (upd_spans <[r := s']> w).
Proof.
  intros Hs Hid r'. cbn. destruct (decide (r = r')) as [<-|].
  - rewrite lookup_insert_eq, Hs. by constructor.
  - by rewrite lookup_insert_ne.
Qed.

(** A turn changes the identity of no span. *)
Lemma pstep_similar {A} u (p : prog A) w : owned u p -> similar w (pstep p w).2.
Proof.
  destruct p as [a|B self f k|self upd k|B [r|] attr f k|[r|] attr upd k|c k|s k];
    cbn; try done; intros Hp;
    unfold continue, getattr_ctx, setattr_ctx; repeat case_match; simplify_eq/=;
    try (intros r'; reflexivity).
  eapply similar_insert; [done|apply Hp].
Qed.

(** A turn leaves the root spans with their threads, and what is left
    of the program is owned. *)
Lemma pstep_confined {A} u (p : prog A) w :
  owned u p -> confined w ->
  confined (pstep p w).2 /\
  match (pstep p w).1 with More p' => owned u p' | _ => True end.
Proof.
  intros Hp Hconf.
  destruct p as [a|B self f k|self upd k|B [r|] attr f k|[r|] attr upd k|c k|s k];
    cbn in Hp |- *; try done; destruct_and?; unfold continue.
  - unfold getattr_ctx. destruct (ctxs w !! self) as [c|] eqn:Hself; [|done].
    split; [done|]. cbn. eauto.
  - unfold setattr_ctx. destruct (ctxs w !! self) as [c|] eqn:Hself; [|done].
    split; [|done]. apply map_Forall_insert_2; eauto.
  - destruct (spans w !! r); [|done]. split; [done|]. cbn. eauto.
  - destruct (spans w !! r); [|done]. split; [|done].
    exact Hconf.
Qed.

(** A turn of another thread leaves the objects of [u] as they are. *)
Lemma pstep_other {A} u u' (p : prog A) w :
  owned u' p -> u' <> u -> agree u w (pstep p w).2.
Proof.
  intros Hp Hne.
  destruct p as [a|B self f k|self upd k|B [r|] attr f k|[r|] attr upd k|c k|s k];
    cbn in Hp |- *; try done; destruct_and?; unfold continue.
  - unfold getattr_ctx. by destruct (ctxs w !! self).
  - unfold setattr_ctx. destruct (ctxs w !! self) as [c|]; [|done].
    split; cbn; [|done]. intros k0 Hk0. rewrite lookup_insert_ne; congruence.
  - by destruct (spans w !! r).
  - destruct (spans w !! r); [|done].
    split; cbn; [done|]. intros r0 Hr0. rewrite lookup_insert_ne; congruence.
Qed.

(** A turn of [u] is the same turn in two stores [u] cannot tell
    apart. *)
Lemma pstep_own {A} u (p : prog A) w1 w2 :
  owned u p -> related u w1 w2 ->
  (pstep p w1).1 = (pstep p w2).1 /\ agree u (pstep p w1).2 (pstep p w2).2.
Proof.
  intros Hp [[Hc Hs] Hsim].
  destruct p as [a|B self f k|self upd k|B [r|] attr f k|[r|] attr upd k|c k|s k];
    cbn in Hp |- *; try done; destruct_and?; unfold continue.
  - unfold getattr_ctx. rewrite <- (Hc self) by done.
    by destruct (ctxs w1 !! self).
  - unfold setattr_ctx. rewrite <- (Hc self) by done.
    destruct (ctxs w1 !! self); [|done].
    split; [done|]. split; cbn; auto using lookup_insert_agree.
  - destruct (Hsim r) as [s1 s2 Hid|]; [|done].
    match goal with H : forall s s', same_identity s s' -> _ |- _ =>
      by rewrite (H _ _ Hid) end.
  - rewrite <- (Hs r) by done. destruct (spans w1 !! r); [|done].
    split; [done|]. split; cbn; auto using lookup_insert_agree.
Qed.

(** ** One turn of a thread *)

Lemma tick_similar u t w : thread_owned u t -> similar w (tick t w).2.
Proof.
  unfold thread_owned, tick. destruct t as [[|p ps] ds]; cbn [todo done]; [done|].
  intros [Hp _]%Forall_cons_1. pose proof (pstep_similar u p w Hp).
  by destruct (pstep p w) as [[[]|p'|e] w'].
Qed.

Lemma tick_owned u t w :
  thread_owned u t -> confined w ->
  thread_owned u (tick t w).1 /\ confined (tick t w).2.
Proof.
  unfold thread_owned, tick. destruct t as [[|p ps] ds]; cbn [todo done]; [done|].
  intros [Hp Hps]%Forall_cons_1 Hconf.
  destruct (pstep_confined u p w Hp Hconf) as [Hc Ho].
  destruct (pstep p w) as [[[]|p'|e] w']; cbn in *; split; try done.
  by constructor.
Qed.

Lemma tick_other u u' t w : thread_owned u' t -> u' <> u -> agree u w (tick t w).2.
Proof.
  unfold thread_owned, tick. destruct t as [[|p ps] ds]; cbn [todo done]; [done|].
  intros [Hp _]%Forall_cons_1 Hne. pose proof (pstep_other u u' p w Hp Hne).
  by destruct (pstep p w) as [[[]|p'|e] w'].
Qed.

Lemma tick_own u t w1 w2 :
  thread_owned u t -> related u w1 w2 ->
  (tick t w1).1 = (tick t w2).1 /\ agree u (tick t w1).2 (tick t w2).2.
Proof.
  unfold thread_owned, tick. destruct t as [[|p ps] ds]; cbn [todo done];
    [by intros _ [? _]|].
  intros [Hp _]%Forall_cons_1 Hrel. destruct (pstep_own u p w1 w2 Hp Hrel) as [Heq Hag].
  destruct (pstep p w1) as [n1 w1'], (pstep p w2) as [n2 w2']. cbn in *. subst n2.
  by destruct n1 as [[]|p'|e].
Qed.

(** ** The pool against one of its threads alone *)

(** Thread [u] in the pool, against the same thread alone from a store
    it cannot tell apart: after any schedule what it will end with,
    left alone, is what it would have ended with alone from the start;
    the turns it still needs are those it needed less those it got. *)
Lemma run_pool_related u sched :
  forall P w1 w2,
    (forall u', thread_owned u' (P u')) -> confined w1 -> related u w1 w2 ->
    exists w2',
      finish ((run_pool sched P w1).1 u) w2' = finish (P u) w2 /\
      turns (todo ((run_pool sched P w1).1 u)) w2' =
        turns (todo (P u)) w2 - length (filter (fun x => x = u) sched) /\
      agree u (run_pool sched P w1).2 w2'.
Proof.
  induction sched as [|u0 sched IH]; intros P w1 w2 HP Hconf Hrel.
  { exists w2. cbn. split_and!; [done | lia | apply Hrel]. }
  cbn [run_pool]. destruct (tick_owned u0 (P u0) w1 (HP u0) Hconf) as [Ho Hc].
  pose proof (tick_similar u0 (P u0) w1 (HP u0)) as Hs.
  set (P' := <[u0 := (tick (P u0) w1).1]> P). set (w1' := (tick (P u0) w1).2) in *.
  assert (forall u', thread_owned u' (P' u')) as HP'.
  { intros u'. unfold P'. destruct (decide (u0 = u')) as [<-|];
      [by rewrite fn_lookup_insert | by rewrite fn_lookup_insert_ne]. }
  rewrite filter_cons. destruct (decide (u0 = u)) as [->|Hne].
  - destruct (tick_own u (P u) w1 w2 (HP u) Hrel) as [Heq Hag].
    destruct (IH P' w1' (tick (P u) w2).2 HP' Hc) as (w2' & Hf & Ht & Hag').
    { split; [done|]. etrans; [symmetry; apply Hs|]. etrans; [apply Hrel|].
      by eapply tick_similar. }
    assert (P' u = (tick (P u) w2).1) as HPu
      by (unfold P'; by rewrite fn_lookup_insert).
    rewrite HPu, tick_finish in Hf. rewrite HPu, tick_turns in Ht.
    exists w2'. split_and!; [done | cbn; lia | done].
  - destruct (IH P' w1' w2 HP' Hc) as (w2' & Hf & Ht & Hag').
    { destruct Hrel as [Hag Hsim]. split; (etrans; [symmetry|eassumption]);
        [by eapply tick_other | apply Hs]. }
    assert (P' u = P u) as HPu by (unfold P'; by rewrite fn_lookup_insert_ne).
    rewrite HPu in Hf, Ht. by exists w2'.
Qed.

(** A thread that gets the turns it needs ends as it would alone. *)
Lemma run_pool_complete P sched w u :
  (forall u', thread_owned u' (P u')) -> confined w ->
  turns (todo (P u)) w <= length (filter (fun x => x = u) sched) ->
  let Pw := run_pool sched P w in
  todo (Pw.1 u) = [] /\
  done (Pw.1 u) = (finish (P u) w).1 /\
  agree u Pw.2 (finish (P u) w).2.
Proof.
  intros HP Hconf Hturns Pw.
  destruct (run_pool_related u sched P w w) as (w2' & Hf & Ht & Hag); [done..|].
  fold Pw in Hf, Ht, Hag.
  assert (todo (Pw.1 u) = []) as Hnil by (eapply turns_nil; rewrite Ht; lia).
  unfold finish in Hf |- *. rewrite Hnil, app_nil_r in Hf. cbn in Hf.
  injection Hf as Hd Hw. cbn [fst snd]. by rewrite <- Hw.
Qed.

Lemma spawn_owned (calls : U -> list call) :
  (forall u, Forall (owns u) (calls u)) -> forall u, thread_owned u (spawn calls u).
Proof.
  intros Hcalls u. unfold thread_owned, spawn. cbn [todo].
  induction (Hcalls u); constructor; auto using owned_call.
Qed.

Lemma finish_spawn (calls : U -> list call) u w :
  finish (spawn calls u) w = run_calls (calls u) w.
Proof.
  unfold finish, spawn. cbn [todo done app]. rewrite run_progs_calls.
  by destruct (run_calls (calls u) w).
Qed.

(** The pool is serializable: when every thread gets the turns it
    needs, the store the pool ends in is the store of the calls made
    one at a time, in any order that keeps the order of each thread. *)
Lemma threads_serializable (calls : U -> list call) sched w l :
  world_inv w -> confined w -> schedule_ok ctx_owner span_owner w l ->
  (forall u, calls_of u l = calls u) ->
  (forall u, turns (map call_prog (calls u)) w <= length (filter (fun x => x = u) sched)) ->
  (run_pool sched (spawn calls) w).2 = (run_calls l.*2 w).2.
Proof.
  intros Hw Hconf Hl Hcalls Hturns. apply (agree_all ctx_owner span_owner). intros u.
  assert (forall u', Forall (owns u') (calls u')) as Hown.
  { intros u'. rewrite <- Hcalls. unfold calls_of. apply Forall_fmap.
    apply list.Forall_forall. intros [u0 a] [Hu Ha]%list_elem_of_filter.
    destruct (proj1 (list.Forall_forall _ _) Hl (u0, a) Ha) as [Ho _].
    cbn in *. by subst. }
  destruct (run_pool_complete (spawn calls) sched w u) as (_ & _ & Hag);
    [by apply spawn_owned | done | apply Hturns |].
  etrans; [exact Hag|]. rewrite finish_spawn, <- Hcalls. symmetry.
  by apply run_schedule.
Qed.

(** C23. Ownership makes the calls atomic: when every context belongs
    to one thread and every span that is added to a context belongs to
    the thread of that context, the threads make their calls
    (assignments of sampling priority and origin, [add_span],
    [close_span]) and the scheduler switches between any two attribute
    accesses, then a thread that gets as many turns as its calls take
    alone has completed them, with the outcomes, exceptions included,
    and with its contexts and spans as the methods leave them when they
    run one after the other without interruption. *)
Theorem threads_atomic (calls : U -> list call) sched w u :
  confined w -> (forall u', Forall (owns u') (calls u')) ->
  turns (map call_prog (calls u)) w <= length (filter (fun x => x = u) sched) ->
  let Pw := run_pool sched (spawn calls) w in
  todo (Pw.1 u) = [] /\
  done (Pw.1 u) = (run_calls (calls u) w).1 /\
  agree u Pw.2 (run_calls (calls u) w).2.
Proof.
  intros Hconf Hcalls Hturns.
  pose proof (run_pool_complete (spawn calls) sched w u (spawn_owned calls Hcalls)
                Hconf Hturns) as Hrun.
  by rewrite finish_spawn in Hrun.
Qed.

End owned.

(** ** Two threads on the example store *)

Section examples.
#[local] Existing Instance ddtrace_keys.

(** The calls of the two units of [Units], thread by thread. *)
Definition ex_calls (u : bool) : list call := calls_of u ex_schedule.

(** The scheduler alternates between the threads at every turn. *)
Definition ex_turns : list bool := concat (replicate 40 [true; false]).

Lemma threads_atomic_witness :
  let Pw := run_pool ex_turns (spawn ex_calls) ex_units_w in
  todo (Pw.1 true) = [] /\
  done (Pw.1 true) = (run_calls (ex_calls true) ex_units_w).1 /\
  agree ex_ctx_owner ex_span_owner true Pw.2 (run_calls (ex_calls true) ex_units_w).2.
Proof.
  apply (threads_atomic ex_ctx_owner ex_span_owner ex_calls ex_turns ex_units_w true).
  - by compute_done.
  - intros [|]; by compute_done.
  - vm_compute. lia.
Defined.

(** The bound on the turns is reached: [add_span] of a root span on a
    context that has an origin and a sampling priority. *)
Lemma turns_bound_reached :
  turns (map call_prog [CallAddSpan ex_self (Some ex_root)]) ex_w0 = 15.
Proof. by vm_compute. Qed.

End examples.

(** ** Symbolic execution of a pool

    [pool_eval] proves [run_pool sched P w = res], where [res] may be
    left open, for a schedule given turn by turn and a store of which
    the hypotheses say which objects it holds: at each turn it looks up
    the thread, brings the call under way to its next access and makes
    that access with the run lemmas of [Steps]. *)

Lemma run_pool_step {U} `{!EqDecision U} (u : U) sched (P : U -> thread) w t' w' res :
  tick (P u) w = (t', w') -> run_pool sched (<[u := t']> P) w' = res ->
  run_pool (u :: sched) P w = res.
Proof. intros Ht <-. cbn [run_pool]. by rewrite Ht. Qed.

Lemma tick_More p ps ds w p' w' :
  pstep p w = (More p', w') ->
  tick (Thread (p :: ps) ds) w = (Thread (p' :: ps) ds, w').
Proof. unfold tick. cbn [todo done]. by intros ->. Qed.

Lemma tick_Done ps ds w :
  tick (Thread (Ret tt :: ps) ds) w = (Thread ps (ds ++ [Ok tt]), w).
Proof. done. Qed.

Lemma tick_Failed p ps ds w e w' :
  pstep p w = (Failed e, w') ->
  tick (Thread (p :: ps) ds) w = (Thread ps (ds ++ [Raise e]), w').
Proof. unfold tick. cbn [todo done]. by intros ->. Qed.

(** The thread whose turn it is, with the call under way brought to
    its next access. *)
Ltac pool_thread :=
  repeat first [ rewrite fn_lookup_insert | rewrite fn_lookup_insert_ne by done ];
  unfold spawn; cbv beta iota; cbn [map call_prog app];
  unfold add_span_prog, close_span_prog, _set_current_span_prog,
    sampling_priority_setter_prog, dd_origin_setter_prog, dd_origin_prog,
    sampling_priority_prog, getattr_ctx_prog, setattr_ctx_prog, getattr_span_prog,
    setattr_span_prog, pwhen;
  repeat first
    [ progress cbv beta iota
    | progress cbn [pbind negb]
    | progress py_values
    | progress rewrite_hyps
    | progress autorewrite with py ].

Ltac pool_tick :=
  pool_thread;
  lazymatch goal with
  | |- tick (Thread (Ret tt :: _) _) _ = _ => apply tick_Done
  | |- tick (Thread (GetCtx _ _ _ :: _) _) _ = _ =>
      eapply tick_More, pstep_GetCtx; py_lookup
  | |- tick (Thread (SetCtx _ _ _ :: _) _) _ = _ =>
      eapply tick_More, pstep_SetCtx; py_lookup
  | |- tick (Thread (GetSpan None _ _ _ :: _) _) _ = _ => by apply tick_Failed
  | |- tick (Thread (SetSpan None _ _ _ :: _) _) _ = _ => by apply tick_Failed
  | |- tick (Thread (GetSpan _ _ _ _ :: _) _) _ = _ =>
      eapply tick_More, pstep_GetSpan; py_lookup
  | |- tick (Thread (SetSpan _ _ _ _ :: _) _) _ = _ =>
      eapply tick_More, pstep_SetSpan; py_lookup
  end.

Ltac pool_eval :=
  cbn [app replicate];
  repeat lazymatch goal with
    | |- run_pool (_ :: _) _ _ = _ => eapply run_pool_step; [pool_tick|]
    end;
  reflexivity.
