(* ===== verification/Race.v ===== *)
(** * Race: two threads on one context

    What the ownership of [Units] and [Threads] rules out.

    - Two threads call [add_span] on the same context, each with a
      span of its own, and the scheduler switches inside
      [_set_current_span], between the assignment of [_active_span] and
      those of [_trace_id] and [_active_span_id] (context.py, lines
      84-87).  Both calls return normally, and the context is left with
      the span of one thread as current span and the identifiers of the
      span of the other: a store no sequence of whole calls can reach.
    - One thread assigns [sampling_priority] or [dd_origin] while
      another closes the local root span of the same context.  The
      setter tests [self._local_root_span] and reads it again for the
      write (lines 32-33, 42-43); when the root is closed in between,
      the setter raises [AttributeError] on [None] and the value is
      lost.  No sequential order of the two calls raises. *)

From S2P Require Import Prelude Span Objects Context Spec Invariants Reachable.
From S2P Require Import Units Steps Threads.
From stdpp Require Import functions.

Section race.
Context {keys : TagKeys}.
Implicit Types (w : world) (self : cref) (a b : sref) (c : Context) (s : Span).

(** Thread [true] adds span [a], thread [false] adds span [b], to the
    same context. *)
Definition race_calls self a b (u : bool) : list call :=
  if u then [CallAddSpan self (Some a)] else [CallAddSpan self (Some b)].

(** Thread [true] reads [a._parent] and assigns [_active_span];
    thread [false] then runs its whole call; thread [true] finishes. *)
Definition race_schedule : list bool :=
  [true; true] ++ replicate 8 false ++ replicate 6 true.

(** The store the race ends in: the context has [b] as current span
    and the identifiers of [a]; both spans point at the context. *)
Lemma race_run w self c a b sa sb pa pb :
  ctxs w !! self = Some c ->
  spans w !! a = Some sa -> spans w !! b = Some sb -> a <> b ->
  _parent sa = Some pa -> _parent sb = Some pb ->
  exists P' w',
    run_pool race_schedule (spawn (race_calls self a b)) w = (P', w') /\
    P' true = Thread [] [Ok tt] /\ P' false = Thread [] [Ok tt] /\
    ctxs w' !! self =
      Some (set__active_span_id (Span.span_id sa)
             (set__trace_id (Span.trace_id sa) (set__active_span (Some b) c))) /\
    spans w' !! b = Some (set__context (Some self) sb).
Proof.
  intros Hc Ha Hb Hne Hpa Hpb. eexists _, _. split.
  - unfold race_schedule, race_calls. pool_eval.
  - split_and!; [by pool_thread..| |]; by py_lookup.
Qed.

(** C24. The class is not safe to share between threads: two threads
    call [add_span] on one context, each with a span of its own that
    has a parent, and the scheduler switches after the first thread
    has assigned [_active_span] (line 84) and before it assigns
    [_trace_id] and [_active_span_id] (lines 86-87).  Both calls return
    normally; afterwards the current span of the context is the span of
    the second thread, while its trace id and its active span id are
    those of the span of the first.  When the two span ids differ, no
    sequence of whole calls reaches this store. *)
Theorem add_span_race w self c a b sa sb pa pb :
  ctxs w !! self = Some c ->
  spans w !! a = Some sa -> spans w !! b = Some sb -> a <> b ->
  _parent sa = Some pa -> _parent sb = Some pb ->
  let Pw := run_pool race_schedule (spawn (race_calls self a b)) w in
  done (Pw.1 true) = [Ok tt] /\ done (Pw.1 false) = [Ok tt] /\
  get_current_span self Pw.2 = (Ok (Some b), Pw.2) /\
  span_id self Pw.2 = (Ok (Span.span_id sa), Pw.2) /\
  trace_id self Pw.2 = (Ok (Span.trace_id sa), Pw.2) /\
  (Span.span_id sa <> Span.span_id sb -> forall P, ~ reachable P Pw.2).
Proof.
  intros Hc Ha Hb Hne Hpa Hpb Pw.
  destruct (race_run w self c a b sa sb pa pb) as (P' & w' & Hrun & Ht & Hf & Hc' & Hb');
    [done..|].
  subst Pw. rewrite Hrun. clear Hrun. cbn [fst snd]. rewrite Ht, Hf.
  split_and!; [done | done | by py_run.. |].
  intros Hid P [Hinv _]%reachable_world_inv.
  destruct (Hinv _ _ Hc') as (_ & Hact & _).
  destruct (Hact b eq_refl) as (s & Hs & Hi). by simplify_eq/=.
Qed.

End race.

(** ** A setter against [close_span] *)

Section setters.
Context {keys : TagKeys}.
Implicit Types (w : world) (self : cref) (r : sref) (c : Context) (s : Span)
  (v : value).

(** The two setters: [metrics] chooses the sampling priority, which
    goes to [metrics], or the origin, which goes to [meta]. *)
Definition setter_call (metrics : bool) self v : call :=
  if metrics then CallSetSamplingPriority self v else CallSetOrigin self v.

Definition setter_attr (metrics : bool) : string :=
  if metrics then "metrics" else "meta".

(** Thread [true] assigns the property, thread [false] closes the
    local root span of the same context. *)
Definition setter_race_calls (metrics : bool) self r v (u : bool) : list call :=
  if u then [setter_call metrics self v] else [CallCloseSpan self (Some r)].

(** Thread [true] tests [self._local_root_span]; thread [false] runs
    its whole call; thread [true] reads [self._local_root_span] again
    and the attribute of what it got. *)
Definition setter_race_schedule : list bool :=
  [true] ++ replicate 8 false ++ replicate 2 true.

(** The store after the race is the store [close_span] leaves. *)
Lemma setter_race_run metrics w self c r s v :
  ctxs w !! self = Some c -> _local_root_span c = Some r ->
  spans w !! r = Some s -> _parent s = None ->
  exists P',
    run_pool setter_race_schedule (spawn (setter_race_calls metrics self r v)) w =
      (P', (close_span self (Some r) w).2) /\
    P' true = Thread [] [Raise (AttributeError (setter_attr metrics))] /\
    P' false = Thread [] [Ok tt].
Proof.
  intros Hc Hroot Hs Hparent.
  destruct metrics; eexists; (split;
    [ unfold setter_race_schedule, setter_race_calls, setter_call;
      (etrans; [pool_eval|]); (apply (f_equal2 pair); [reflexivity|]);
      lazymatch goal with
      | |- ?w' = _ =>
          assert (close_span self (Some r) w = (Ok tt, w')) as -> by py_run
      end; done
    | split; by pool_thread ]).
Qed.

(** One after the other, in either order, both calls return. *)
Lemma setter_race_sequential metrics w self c r s v :
  ctxs w !! self = Some c -> _local_root_span c = Some r ->
  spans w !! r = Some s -> _parent s = None ->
  let calls := setter_race_calls metrics self r v in
  (run_calls (calls true ++ calls false) w).1 = [Ok tt; Ok tt] /\
  (run_calls (calls false ++ calls true) w).1 = [Ok tt; Ok tt].
Proof.
  intros Hc Hroot Hs Hparent calls. subst calls.
  unfold setter_race_calls, setter_call. cbn [app].
  split; destruct metrics; rewrite !run_calls_cons; cbn [run_call];
    (eassert (_ = (Ok tt, _)) as -> by py_eval); cbn [fst snd];
    (eassert (_ = (Ok tt, _)) as -> by py_eval); done.
Qed.

(** C25. The setters are not safe against a concurrent [close_span]:
    each tests [self._local_root_span] and reads it again to write the
    span (context.py, lines 32-33 and 42-43).  When another thread
    closes the local root span between the test and the second read,
    the setter reads an attribute of [None] and raises
    [AttributeError]; the value is not assigned, and the store is the
    one [close_span] leaves.  Run one after the other, in either
    order, the two calls both return normally. *)
Theorem setter_race metrics w self c r s v :
  ctxs w !! self = Some c -> _local_root_span c = Some r ->
  spans w !! r = Some s -> _parent s = None ->
  let calls := setter_race_calls metrics self r v in
  let Pw := run_pool setter_race_schedule (spawn calls) w in
  done (Pw.1 true) = [Raise (AttributeError (setter_attr metrics))] /\
  done (Pw.1 false) = [Ok tt] /\
  Pw.2 = (close_span self (Some r) w).2 /\
  (run_calls (calls true ++ calls false) w).1 = [Ok tt; Ok tt] /\
  (run_calls (calls false ++ calls true) w).1 = [Ok tt; Ok tt].
Proof.
  intros Hc Hroot Hs Hparent calls Pw.
  destruct (setter_race_run metrics w self c r s v) as (P' & Hrun & Ht & Hf); [done..|].
  destruct (setter_race_sequential metrics w self c r s v) as [H1 H2]; [done..|].
  subst Pw calls. rewrite Hrun. cbn [fst snd]. by rewrite Ht, Hf.
Qed.

End setters.

(** ** The race on the example store *)

Section examples.
#[local] Existing Instance ddtrace_keys.

Definition ex_sibling : sref := SRef 3.
Definition ex_sibling_span : Span := Span__init__ (VInt 42) (VInt 3) (Some ex_root).

(** The example store after [add_span(root)], with a second child of
    the root span. *)
Definition ex_race_w : world := upd_spans <[ex_sibling := ex_sibling_span]> ex_w1.

Lemma add_span_race_witness :
  let Pw := run_pool race_schedule (spawn (race_calls ex_self ex_child ex_sibling))
              ex_race_w in
  done (Pw.1 true) = [Ok tt] /\ done (Pw.1 false) = [Ok tt] /\
  get_current_span ex_self Pw.2 = (Ok (Some ex_sibling), Pw.2) /\
  span_id ex_self Pw.2 = (Ok (VInt 2), Pw.2) /\
  trace_id ex_self Pw.2 = (Ok (VInt 42), Pw.2) /\
  forall P, ~ reachable P Pw.2.
Proof.
  pose proof (add_span_race ex_race_w ex_self (ex_ctx_at ex_root 1) ex_child ex_sibling
                ex_child_span ex_sibling_span ex_root ex_root
                eq_refl eq_refl eq_refl) as H.
  cbv zeta in H |- *.
  destruct H as (H1 & H2 & H3 & H4 & H5 & H6); [by intros [=] | done | done |].
  split_and!; [exact H1 | exact H2 | exact H3 | exact H4 | exact H5 |].
  apply H6. by intros [=].
Defined.

Lemma setter_race_witness :
  let calls := setter_race_calls true ex_self ex_root (VInt 0) in
  let Pw := run_pool setter_race_schedule (spawn calls) ex_w1 in
  done (Pw.1 true) = [Raise (AttributeError "metrics")] /\
  done (Pw.1 false) = [Ok tt] /\
  Pw.2 = (close_span ex_self (Some ex_root) ex_w1).2 /\
  (run_calls (calls true ++ calls false) ex_w1).1 = [Ok tt; Ok tt] /\
  (run_calls (calls false ++ calls true) ex_w1).1 = [Ok tt; Ok tt].
Proof.
  exact (setter_race true ex_w1 ex_self (ex_ctx_at ex_root 1) ex_root ex_root_span'
           (VInt 0) eq_refl eq_refl eq_refl eq_refl).
Defined.

End examples.
