(* ===== verification/Robust.v ===== *)
(** * Robust: what survives a race

    File [Race] shows that overlapping calls on one context break the
    agreement between the current span and the identifiers of the
    context.  This file shows what no interleaving breaks, with no
    assumption of ownership and for every method of the class, [clone]
    and the constructor included: a reference held by a context or by a
    span always denotes an object, a local root span has no parent,
    [_trace_root_span_id] is [None], no object is lost and no span
    changes identity; and no access ever fails on a reference.  What
    is lost in a race is the coherence of the attributes of one
    context, never the store.

    The proof is by rely and guarantee.  Each thread relies on the
    others to extend the store and to keep it [robust], and guarantees
    the same.  [safe p Q w] is the precondition of a program in that
    setting: it speaks of every later robust store, so it stays true
    while other threads run; the rules [safe_GetCtx] to [safe_AllocSpan]
    take one access each, and the tactic [safe_go] follows a method
    with them. *)

From S2P Require Import Prelude Span Objects Context Spec Invariants Reachable.
From S2P Require Import Steps Threads Race.
From stdpp Require Import functions.

(** ** The invariant *)

(** The part of [ctx_inv] that does not relate two attributes of the
    context: the current span exists, whatever the identifiers say. *)
Definition robust_ctx (w : world) (c : Context) : Prop :=
  _trace_root_span_id c = VNone /\ ref_ok w (_active_span c) /\ root_parentless w c.

Definition robust (w : world) : Prop :=
  map_Forall (fun _ => robust_ctx w) (ctxs w) /\
  map_Forall (fun _ => span_closed w) (spans w).

(** An outcome that is not a failed reference. *)
Definition no_bad_ref (res : result unit) : Prop := res <> Raise InvalidReference.

#[export] Instance root_parentless_dec w c : Decision (root_parentless w c).
Proof.
  unfold root_parentless. destruct (_local_root_span c) as [r|]; [|left; by intros ? [=]].
  destruct (spans w !! r) as [s|] eqn:Hs.
  - destruct (decide (_parent s = None)); [left|right].
    + intros ? [= <-]. eauto.
    + intros H. destruct (H r eq_refl) as (? & ? & ?). by simplify_eq.
  - right. intros H. destruct (H r eq_refl) as (? & ? & ?). by simplify_eq.
Defined.

#[export] Instance robust_dec w : Decision (robust w).
Proof. unfold robust, robust_ctx, span_closed. apply _. Defined.

Section facts.
Implicit Types (w : world) (r : sref) (k self : cref) (s : Span) (c : Context).

Lemma ctx_inv_robust w c : ctx_inv w c -> robust_ctx w c.
Proof.
  intros Hc. destruct (ctx_inv_closed w c Hc) as [Ha _].
  destruct Hc as (? & _ & ?). by split_and!.
Qed.

Lemma world_inv_robust w : world_inv w -> robust w.
Proof.
  intros [Hc Hs]. split; [|done]. intros k c Hk. apply ctx_inv_robust, (Hc k c Hk).
Qed.

(** What [robust] leaves out of [world_inv] is the agreement of the
    current span with the active span id, and nothing else. *)
Lemma world_inv_robust_coherent w :
  world_inv w <-> robust w /\ map_Forall (fun _ => active_coherent w) (ctxs w).
Proof.
  split.
  - intros Hw. split; [by apply world_inv_robust|].
    intros k c Hk. by destruct (proj1 Hw k c Hk) as (_ & ? & _).
  - intros [[Hc Hs] Ha]. split; [|done]. intros k c Hk.
    destruct (Hc k c Hk) as (? & _ & ?). split_and!; [done| |done]. exact (Ha k c Hk).
Qed.

Lemma robust_ctx_extends w w' c : w ⊑ w' -> robust_ctx w c -> robust_ctx w' c.
Proof.
  intros Hw (? & ? & ?). split_and!;
    eauto using ref_ok_extends, root_parentless_extends.
Qed.

Lemma span_closed_grows w w' s : w ⊑ w' -> span_closed w s -> span_closed w' s.
Proof. intros Hw. by apply span_closed_extends. Qed.

(** The shape of every preservation proof, as for [world_inv]. *)
Lemma robust_update w w' :
  robust w -> w ⊑ w' ->
  (forall k c', ctxs w' !! k = Some c' ->
     ctxs w !! k = Some c' \/ robust_ctx w' c') ->
  (forall r s', spans w' !! r = Some s' ->
     spans w !! r = Some s' \/ span_closed w' s') ->
  robust w'.
Proof.
  intros [Hc Hs] Hw Hc' Hs'. split.
  - intros k c' Hk. destruct (Hc' _ _ Hk) as [Hold|]; [|done].
    eapply robust_ctx_extends; [done|]. exact (Hc _ _ Hold).
  - intros r s' Hr. destruct (Hs' _ _ Hr) as [Hold|]; [|done].
    eapply span_closed_grows; [done|]. exact (Hs _ _ Hold).
Qed.

(** The four writes. *)
Lemma robust_setattr_ctx w self c c' :
  robust w -> ctxs w !! self = Some c -> robust_ctx w c' ->
  robust (upd_ctxs <[self := c']> w) /\ w ⊑ upd_ctxs <[self := c']> w.
Proof.
  intros Hw Hself Hc'.
  set (w' := upd_ctxs <[self := c']> w).
  assert (w ⊑ w') as Hext by (split; cbn; auto with py).
  split; [|done]. eapply robust_update; [done..| |by left].
  intros k c0. cbn. intros [[<- <-]|[_ ?]]%lookup_insert_Some; [right|by left].
  by eapply robust_ctx_extends.
Qed.

Lemma robust_setattr_span w r s s' :
  robust w -> spans w !! r = Some s -> same_identity s s' -> span_closed w s' ->
  robust (upd_spans <[r := s']> w) /\ w ⊑ upd_spans <[r := s']> w.
Proof.
  intros Hw Hr Hid Hs'.
  set (w' := upd_spans <[r := s']> w).
  assert (w ⊑ w') as Hext
    by (split; cbn; [by eapply spans_extend_insert | auto with py]).
  split; [|done]. eapply robust_update; [done..|by left|].
  intros r0 s0. cbn. intros [[<- <-]|[_ ?]]%lookup_insert_Some; [right|by left].
  by eapply span_closed_grows.
Qed.

Lemma robust_alloc_ctx w c :
  robust w -> robust_ctx w c ->
  robust (upd_ctxs <[fresh (dom (ctxs w)) := c]> w) /\ w ⊑ upd_ctxs <[fresh (dom (ctxs w)) := c]> w.
Proof.
  intros Hw Hc.
  set (w' := upd_ctxs <[fresh (dom (ctxs w)) := c]> w).
  assert (w ⊑ w') as Hext by (split; cbn; auto with py).
  split; [|done]. eapply robust_update; [done..| |by left].
  intros k c0. cbn. intros [[<- <-]|[_ ?]]%lookup_insert_Some; [right|by left].
  by eapply robust_ctx_extends.
Qed.

Lemma robust_alloc_span w s :
  robust w -> span_closed w s ->
  robust (upd_spans <[fresh (dom (spans w)) := s]> w) /\ w ⊑ upd_spans <[fresh (dom (spans w)) := s]> w.
Proof.
  intros Hw Hs.
  set (w' := upd_spans <[fresh (dom (spans w)) := s]> w).
  assert (w ⊑ w') as Hext by (split; cbn; auto with py).
  split; [|done]. eapply robust_update; [done..|by left|].
  intros r0 s0. cbn. intros [[<- <-]|[_ ?]]%lookup_insert_Some; [right|by left].
  by eapply span_closed_grows.
Qed.

End facts.

(** ** Programs that are safe whatever the other threads do *)

(** [safe p Q w]: from the store [w], and from every store the other
    threads have made of it since (a later store that is [robust]),
    the next access of [p] finds its object, the write it makes keeps
    the store [robust], and the rest of [p] is safe from the store the
    access leaves; when [p] returns [a], [Q a] holds of the store.
    The access of an attribute of [None] raises [AttributeError] and
    ends the program. *)
Fixpoint safe {A} (p : prog A) (Q : A -> world -> Prop) (w : world) : Prop :=
  forall w', w ⊑ w' -> robust w' ->
  match p with
  | Ret a => Q a w'
  | GetCtx self f k =>
      exists c, ctxs w' !! self = Some c /\ safe (k (f c)) Q w'
  | SetCtx self upd k =>
      exists c, ctxs w' !! self = Some c /\ robust_ctx w' (upd c) /\
        safe k Q (upd_ctxs <[self := upd c]> w')
  | GetSpan None _ _ _ | SetSpan None _ _ _ => True
  | GetSpan (Some r) _ f k =>
      exists s, spans w' !! r = Some s /\ safe (k (f s)) Q w'
  | SetSpan (Some r) _ upd k =>
      exists s, spans w' !! r = Some s /\ same_identity s (upd s) /\
        span_closed w' (upd s) /\ safe k Q (upd_spans <[r := upd s]> w')
  | AllocCtx c k =>
      robust_ctx w' c /\
      safe (k (fresh (dom (ctxs w')))) Q (upd_ctxs <[fresh (dom (ctxs w')) := c]> w')
  | AllocSpan s k =>
      span_closed w' s /\
      safe (k (fresh (dom (spans w')))) Q (upd_spans <[fresh (dom (spans w')) := s]> w')
  end.

(** A thread whose calls under way and to come are safe, and none of
    whose calls has failed on a reference. *)
Definition thread_safe (w : world) (t : thread) : Prop :=
  Forall (fun p => safe p (fun _ _ => True) w) (todo t) /\
  Forall no_bad_ref (done t).

Section safe.
Context {keys : TagKeys}.
Implicit Types (w : world) (r : sref) (k self : cref) (s : Span) (c : Context)
  (t : thread) (a : call).

(** [safe] is stable: it speaks of every later store. *)
Lemma safe_extends {A} (p : prog A) Q w w' : w ⊑ w' -> safe p Q w -> safe p Q w'.
Proof.
  intros Hw Hp. destruct p; cbn in *; intros w2 Hw2; apply Hp; by etrans.
Qed.

Lemma safe_later {A} (p : prog A) Q w :
  (forall w', w ⊑ w' -> robust w' -> safe p Q w') -> safe p Q w.
Proof.
  intros Hp. destruct p; cbn; intros w' Hw Hrob;
    by apply (Hp w' Hw Hrob w').
Qed.

(** Sequencing: [p] is safe and leaves stores from which [h] is. *)
Lemma safe_bind {A B} (p : prog A) (h : A -> prog B) Q w :
  safe p (fun x w' => safe (h x) Q w') w -> safe (pbind p h) Q w.
Proof.
  revert w.
  induction p as [x|B0 self f p IH|self upd p IH|B0 [r|] attr f p IH
                 |[r|] attr upd p IH|c p IH|s p IH]; intros w Hp;
    [by apply safe_later|cbn in *; intros w' Hw Hrob;
       specialize (Hp w' Hw Hrob)..]; [| | |done| |done| |];
    repeat match goal with
    | H : ex _ |- _ => destruct H as [? H]
    | H : _ /\ _ |- _ => destruct H as [? H]
    end; eauto 10.
Qed.

(** One turn of a safe program on a robust store: the store stays
    robust and only grows, the access does not fail on a reference,
    and what is left of the program is safe. *)
Lemma pstep_safe {A} (p : prog A) Q w :
  robust w -> safe p Q w ->
  robust (pstep p w).2 /\ w ⊑ (pstep p w).2 /\
  match (pstep p w).1 with
  | Done x => Q x w
  | More p' => safe p' Q (pstep p w).2
  | Failed e => e <> InvalidReference
  end.
Proof.
  intros Hrob Hp.
  destruct p as [x|B0 self f p|self upd p|B0 [r|] attr f p|[r|] attr upd p|c p|s p];
    cbn in Hp; specialize (Hp w (reflexivity w) Hrob); unfold pstep.
  - done.
  - destruct Hp as (c & Hc & Hp). erewrite getattr_ctx_run by done. by cbn.
  - destruct Hp as (c & Hc & Hc' & Hp). erewrite setattr_ctx_run by done. cbn.
    by destruct (robust_setattr_ctx w self c (upd c)).
  - destruct Hp as (s & Hs & Hp). erewrite getattr_span_run by done. by cbn.
  - done.
  - destruct Hp as (s & Hs & Hid & Hs' & Hp). erewrite setattr_span_run by done. cbn.
    by destruct (robust_setattr_span w r s (upd s)).
  - done.
  - destruct Hp as [Hc Hp]. cbn. by destruct (robust_alloc_ctx w c).
  - destruct Hp as [Hs Hp]. cbn. by destruct (robust_alloc_span w s).
Qed.

(** *** Rules: one access, then the rest in a later store *)

Lemma safe_GetCtx {A B} self (f : Context -> B) (h : B -> prog A) Q w :
  is_Some (ctxs w !! self) ->
  (forall w' c, w ⊑ w' -> robust w' -> ctxs w' !! self = Some c ->
     robust_ctx w' c -> safe (h (f c)) Q w') ->
  safe (GetCtx self f h) Q w.
Proof.
  intros Hself Hh. cbn. intros w' Hw Hrob.
  destruct (proj2 Hw _ Hself) as [c Hc]. exists c. split; [done|].
  apply Hh; [done..|]. exact (proj1 Hrob _ _ Hc).
Qed.

Lemma safe_SetCtx {A} self upd (h : prog A) Q w :
  is_Some (ctxs w !! self) ->
  (forall w' c, w ⊑ w' -> robust w' -> ctxs w' !! self = Some c ->
     robust_ctx w' c -> robust_ctx w' (upd c) /\ safe h Q w') ->
  safe (SetCtx self upd h) Q w.
Proof.
  intros Hself Hh. cbn. intros w' Hw Hrob.
  destruct (proj2 Hw _ Hself) as [c Hc]. exists c.
  destruct (Hh w' c) as [Hc' Hsafe]; [done..|exact (proj1 Hrob _ _ Hc)|].
  split_and!; [done..|]. eapply safe_extends; [|done].
  by destruct (robust_setattr_ctx w' self c (upd c)).
Qed.

Lemma safe_GetSpan {A B} span attr (f : Span -> B) (h : B -> prog A) Q w :
  ref_ok w span ->
  (forall w' r s, w ⊑ w' -> robust w' -> span = Some r -> spans w' !! r = Some s ->
     span_closed w' s -> safe (h (f s)) Q w') ->
  safe (GetSpan span attr f h) Q w.
Proof.
  intros Hspan Hh. destruct span as [r|]; cbn; intros w' Hw Hrob; [|done].
  destruct (ref_ok_extends _ _ _ Hw Hspan) as [s Hs]. exists s. split; [done|].
  eapply Hh; [done..|]. exact (proj2 Hrob _ _ Hs).
Qed.

Lemma safe_SetSpan {A} span attr upd (h : prog A) Q w :
  ref_ok w span ->
  (forall w' r s, w ⊑ w' -> robust w' -> span = Some r -> spans w' !! r = Some s ->
     span_closed w' s ->
     same_identity s (upd s) /\ span_closed w' (upd s) /\ safe h Q w') ->
  safe (SetSpan span attr upd h) Q w.
Proof.
  intros Hspan Hh. destruct span as [r|]; cbn; intros w' Hw Hrob; [|done].
  destruct (ref_ok_extends _ _ _ Hw Hspan) as [s Hs]. exists s.
  destruct (Hh w' r s) as (Hid & Hs' & Hsafe); [done..|exact (proj2 Hrob _ _ Hs)|].
  split_and!; [done..|]. eapply safe_extends; [|done].
  by destruct (robust_setattr_span w' r s (upd s)).
Qed.

Lemma safe_AllocCtx {A} c (h : cref -> prog A) Q w :
  (forall w', w ⊑ w' -> robust_ctx w' c) ->
  (forall w' k, w ⊑ w' -> is_Some (ctxs w' !! k) -> safe (h k) Q w') ->
  safe (AllocCtx c h) Q w.
Proof.
  intros Hc Hh. cbn. intros w' Hw Hrob. split; [by apply Hc|].
  destruct (robust_alloc_ctx w' c) as [_ Hw']; [done|by apply Hc|].
  apply Hh; [by etrans|]. cbn. rewrite lookup_insert_eq. eauto.
Qed.

Lemma safe_AllocSpan {A} s (h : sref -> prog A) Q w :
  (forall w', w ⊑ w' -> span_closed w' s) ->
  (forall w' r, w ⊑ w' -> ref_ok w' (Some r) -> safe (h r) Q w') ->
  safe (AllocSpan s h) Q w.
Proof.
  intros Hs Hh. cbn. intros w' Hw Hrob. split; [by apply Hs|].
  destruct (robust_alloc_span w' s) as [_ Hw']; [done|by apply Hs|].
  apply Hh; [by etrans|]. cbn. rewrite lookup_insert_eq. eauto.
Qed.

End safe.

(** *** The methods are safe *)

(** A span that may become a local root: it has no parent. *)
Definition parentless (w : world) (span : option sref) : Prop :=
  forall r, span = Some r -> exists s, spans w !! r = Some s /\ _parent s = None.

Lemma parentless_extends w w' span : w ⊑ w' -> parentless w span -> parentless w' span.
Proof.
  intros Hw Hp r Hr. destruct (Hp r Hr) as (s & Hs & Hnone).
  destruct (proj1 Hw _ _ Hs) as (s' & Hs' & Hid). exists s'. split; [done|].
  by rewrite <- Hid.
Qed.

Lemma robust_ctx_root w c : robust_ctx w c -> ref_ok w (_local_root_span c).
Proof.
  intros (_ & _ & Hr). destruct (_local_root_span c) as [r|] eqn:E; [|done].
  destruct (Hr r E) as (s & ? & _). by exists s.
Qed.

(** What a thread knows of a store stays true of every later one:
    [later Hw] moves the hypotheses along [Hw : w ⊑ w']. *)
Ltac later Hw :=
  lazymatch type of Hw with
  | ?w ⊑ _ =>
      repeat match goal with
      | H : is_Some (ctxs w !! _) |- _ => apply (proj2 Hw) in H
      | H : ref_ok w _ |- _ => apply (ref_ok_extends _ _ _ Hw) in H
      | H : parentless w _ |- _ => apply (parentless_extends _ _ _ Hw) in H
      | H : safe _ _ w |- _ => apply (safe_extends _ _ _ _ Hw) in H
      | H : robust_ctx w _ |- _ => clear H
      | H : span_closed w _ |- _ => clear H
      | H : robust w |- _ => clear H
      end
  end.

(** What the object just read says of the store. *)
Ltac learn :=
  repeat match goal with
  | H : robust_ctx ?w ?c |- _ =>
      lazymatch goal with
      | _ : ref_ok w (_local_root_span c) |- _ => fail
      | _ => pose proof (robust_ctx_root _ _ H)
      end
  | H : span_closed ?w ?s |- _ =>
      lazymatch goal with
      | _ : ref_ok w (_parent s) |- _ => fail
      | _ => pose proof (proj1 H)
      end
  end.

(** The side conditions of a write: the record written is as closed
    as the record read. *)
Ltac safe_side :=
  repeat match goal with
  | H : robust_ctx _ _ |- _ => destruct H as (? & ? & ?)
  | H : span_closed _ _ |- _ => destruct H as [? ?]
  end;
  first [ done | split_and!; done | split_and!; cbn; eauto ].

(** The condition the program waits for. *)
Ltac stuck p :=
  lazymatch p with
  | pbind ?q _ => stuck q
  | if ?b then _ else _ => b
  end.

(** [safe_go] follows a program access by access. *)
Ltac safe_go :=
  repeat progress
    (unfold pwhen, getattr_ctx_prog, setattr_ctx_prog, getattr_span_prog,
       setattr_span_prog, new_prog, sampling_priority_prog, dd_origin_prog,
       trace_id_prog, span_id_prog, _set_current_span_prog;
     cbn [pbind negb]; rewrite ?truthy_Some);
  try assumption;
  lazymatch goal with
  | |- safe (Ret _) _ _ => by intros ? ? ?
  | |- safe (GetCtx _ _ _) _ _ =>
      apply safe_GetCtx; [done|];
      let Hw := fresh "Hw" in intros ? ? Hw ? ? ?; later Hw; clear Hw; learn; safe_go
  | |- safe (SetCtx _ _ _) _ _ =>
      apply safe_SetCtx; [done|];
      let Hw := fresh "Hw" in
      intros ? ? Hw ? ? ?; later Hw; clear Hw; split; [safe_side|safe_go]
  | |- safe (GetSpan _ _ _ _) _ _ =>
      apply safe_GetSpan; [done|];
      let Hw := fresh "Hw" in
      intros ? ? ? Hw ? ? ? ?; later Hw; clear Hw; learn; simplify_eq; safe_go
  | |- safe (SetSpan _ _ _ _) _ _ =>
      apply safe_SetSpan; [done|];
      let Hw := fresh "Hw" in
      intros ? ? ? Hw ? ? ? ?; later Hw; clear Hw; simplify_eq;
      split_and!; [done|safe_side|safe_go]
  | |- safe (AllocCtx _ _) _ _ =>
      apply safe_AllocCtx;
        [by intros; split_and!
        |let Hw := fresh "Hw" in intros ? ? Hw ?; later Hw; clear Hw; safe_go]
  | |- safe (AllocSpan _ _) _ _ =>
      apply safe_AllocSpan;
        [let Hw := fresh "Hw" in intros ? Hw; later Hw; by split
        |let Hw := fresh "Hw" in intros ? ? Hw ?; later Hw; clear Hw; safe_go]
  | |- safe ?p _ _ => let b := stuck p in destruct b eqn:?; safe_go
  end.

Section methods.
Context {keys : TagKeys}.
Implicit Types (w : world) (r : sref) (k self : cref) (s : Span) (c : Context)
  (span : option sref) (a : call).

(** The span read has no parent: it may become the local root. *)
Lemma parentless_read w r s :
  spans w !! r = Some s -> negb (truthy (_parent s)) = true -> parentless w (Some r).
Proof.
  intros Hs Hp r' [= <-]. exists s. split; [done|]. by destruct (_parent s).
Qed.

Lemma safe_add_span self span w :
  is_Some (ctxs w !! self) -> ref_ok w span ->
  safe (add_span_prog self span) (fun _ _ => True) w.
Proof.
  intros Hself Hspan. unfold add_span_prog. cbn [pbind getattr_span_prog].
  apply safe_GetSpan; [done|]. intros w' r s Hw Hrob -> Hs Hcl. later Hw. clear Hw.
  cbn [pbind]. destruct (negb (truthy (_parent s))) eqn:Hp;
    [pose proof (parentless_read _ _ _ Hs Hp)|]; safe_go.
Qed.

(** Every call on objects of the store is safe, whoever else uses
    them. *)
Lemma safe_call a w : call_closed w a -> safe (call_prog a) (fun _ _ => True) w.
Proof.
  destruct a; cbn [call_closed call_prog]; intros Ha; destruct_and?;
    [..|by apply safe_add_span| |];
    unfold sampling_priority_setter_prog, dd_origin_setter_prog, clone_prog,
      close_span_prog; safe_go.
Qed.

End methods.

(** ** Threads that race *)

Section pool.
Context {keys : TagKeys} {U : Type} `{!EqDecision U}.
Implicit Types (w : world) (u : U) (t : thread) (sched : list U)
  (P : U -> thread) (calls : U -> list call).

Lemma thread_safe_extends w w' t : w ⊑ w' -> thread_safe w t -> thread_safe w' t.
Proof.
  intros Hw [Ht Hd]. split; [|done].
  eapply list.Forall_impl; [done|]. intros p. by apply safe_extends.
Qed.

(** A turn of a safe thread. *)
Lemma tick_safe t w :
  robust w -> thread_safe w t ->
  robust (tick t w).2 /\ w ⊑ (tick t w).2 /\ thread_safe (tick t w).2 (tick t w).1.
Proof.
  intros Hrob [Ht Hd]. unfold tick.
  destruct t as [[|p ps] ds]; cbn [todo done] in *;
    [cbn; split_and!; [done..|by split]|].
  apply Forall_cons_1 in Ht as [Hp Hps].
  destruct (pstep_safe p _ w Hrob Hp) as (Hrob' & Hw & Hn).
  assert (thread_safe (pstep p w).2 (Thread ps ds)) as [Hps' _]
    by by apply (thread_safe_extends w).
  destruct (pstep p w) as [[[]|p'|e] w']; cbn [fst snd] in *;
    (split_and!; [done..|]); split; cbn [todo done] in *;
    try done; try (apply Forall_app_2; [done|]);
    repeat constructor; try done; unfold no_bad_ref; congruence.
Qed.

(** Any schedule of safe threads. *)
Lemma run_pool_safe sched P w :
  robust w -> (forall u, thread_safe w (P u)) ->
  robust (run_pool sched P w).2 /\ w ⊑ (run_pool sched P w).2 /\
  forall u, thread_safe (run_pool sched P w).2 ((run_pool sched P w).1 u).
Proof.
  revert P w. induction sched as [|u0 sched IH]; intros P w Hrob HP; [done|].
  cbn [run_pool]. destruct (tick_safe (P u0) w Hrob (HP u0)) as (Hrob' & Hw & Ht).
  destruct (IH (<[u0 := (tick (P u0) w).1]> P) (tick (P u0) w).2 Hrob')
    as (? & ? & ?); [|split_and!; [done|by etrans|done]].
  intros u. destruct (decide (u0 = u)) as [<-|].
  - by rewrite fn_lookup_insert.
  - rewrite fn_lookup_insert_ne by done. by eapply thread_safe_extends.
Qed.

Lemma spawn_safe calls w u :
  Forall (call_closed w) (calls u) -> thread_safe w (spawn calls u).
Proof.
  intros Hcalls. split; [|constructor]. cbn [spawn todo].
  induction Hcalls; constructor; auto using safe_call.
Qed.

End pool.

(** ** What no race breaks *)

Section races.
Context {keys : TagKeys} {U : Type} `{!EqDecision U}.
Implicit Types (w : world) (u : U) (sched : list U) (calls : U -> list call).

(** The stores of the sequential semantics are robust. *)
Lemma reachable_robust P w : reachable P w -> robust w.
Proof. intros Hw. by eapply world_inv_robust, reachable_world_inv. Qed.

(** C26. Whatever the threads call on the objects of the store and
    however the scheduler interleaves their attribute accesses, with
    contexts and spans shared at will and [clone] and the constructors
    included: every reference a context or a span holds still denotes
    an object, every local root span is parentless,
    [_trace_root_span_id] is [None], no object is lost, no span has
    changed its ids or its parent, and no call has failed on a
    reference.  A race costs the agreement of the current span with
    the ids of the context, nothing else of the invariant of the
    store. *)
Theorem races_keep_robust calls sched w :
  robust w -> (forall u, Forall (call_closed w) (calls u)) ->
  let Pw := run_pool sched (spawn calls) w in
  robust Pw.2 /\ w ⊑ Pw.2 /\ forall u, Forall no_bad_ref (done (Pw.1 u)).
Proof.
  intros Hrob Hcalls Pw.
  destruct (run_pool_safe sched (spawn calls) w Hrob) as (? & ? & Hsafe).
  - intros u. apply spawn_safe, Hcalls.
  - split_and!; [done..|]. intros u. apply (Hsafe u).
Qed.

End races.

(** ** The race of [Race], seen from here *)

Section examples.
#[local] Existing Instance ddtrace_keys.

Lemma races_keep_robust_witness :
  let Pw := run_pool race_schedule (spawn (race_calls ex_self ex_child ex_sibling))
              ex_race_w in
  robust Pw.2 /\ ex_race_w ⊑ Pw.2 /\ forall u, Forall no_bad_ref (done (Pw.1 u)).
Proof.
  apply (races_keep_robust (race_calls ex_self ex_child ex_sibling) race_schedule
           ex_race_w).
  - by compute_done.
  - intros [|]; by compute_done.
Defined.

End examples.
