(* ===== verification/Stack.v ===== *)
(** * Stack: the call-stack discipline the context implements

    The contract of [add_span] and [close_span] towards a tracer that
    nests its spans: the context behaves as a stack of open spans.  The
    abstract machine is a list of spans (innermost first) with push and
    pop; the representation relation ties it to one context of the
    store; the simulation theorem shows that every step of a tracer that
    starts a span as a child of the active span and finishes the active
    span, interleaved with any other activity of the program, is matched
    by the context. *)

From S2P Require Import Prelude Span Objects Context Spec Invariants.
From S2P Require Import Reachable Isolation.

(** ** The abstract machine *)

(** What a program does, seen from one context: start a span on it,
    finish a span on it, or anything else. *)
Inductive op : Type :=
| Start (r : sref)
| Finish (r : sref)
| Other (a : call).

(** A call that is neither [add_span] nor [close_span] on [self]. *)
Definition neutral (self : cref) (a : call) : Prop :=
  match a with
  | CallAddSpan k _ | CallCloseSpan k _ => k <> self
  | _ => True
  end.

#[export] Instance neutral_dec self a : Decision (neutral self a).
Proof. destruct a; apply _. Defined.

(** Push, pop of the top, or no change. *)
Definition stack_step (self : cref) (st : list sref) (o : op) : option (list sref) :=
  match o with
  | Start r => Some (r :: st)
  | Finish r =>
      match st with
      | r' :: st' => if decide (r = r') then Some st' else None
      | [] => None
      end
  | Other a => if decide (neutral self a) then Some st else None
  end.

(** The call that performs an operation on [self]. *)
Definition op_call (self : cref) (o : op) : call :=
  match o with
  | Start r => CallAddSpan self (Some r)
  | Finish r => CallCloseSpan self (Some r)
  | Other a => a
  end.

(** ** The representation relation *)

(** Span [r] exists and its parent is [p]. *)
Definition has_parent (w : world) (r : sref) (p : option sref) : Prop :=
  match spans w !! r with Some s => _parent s = p | None => False end.

#[export] Instance has_parent_dec w r p : Decision (has_parent w r p).
Proof. unfold has_parent. destruct (spans w !! r); apply _. Defined.

(** The spans of the stack are linked by [_parent], innermost first; the
    outermost has no parent. *)
Fixpoint chain (w : world) (st : list sref) : Prop :=
  match st with
  | [] => True
  | r :: st' => has_parent w r (head st') /\ chain w st'
  end.

#[export] Instance chain_dec w st : Decision (chain w st).
Proof. induction st; cbn; apply _. Defined.

(** Context [self] represents the stack: its active span is the top, its
    local root span the bottom. *)
Definition repr (w : world) (self : cref) (st : list sref) : Prop :=
  chain w st /\
  match ctxs w !! self with
  | Some c => _active_span c = head st /\ _local_root_span c = last st
  | None => False
  end.

#[export] Instance repr_dec w self st : Decision (repr w self st).
Proof. unfold repr. destruct (ctxs w !! self); apply _. Defined.

(** The obligation of the program at each operation: a span that is
    started exists and its parent is the span on top of the stack; the
    arguments of any other call exist. *)
Definition op_ok (w : world) (st : list sref) (o : op) : Prop :=
  match o with
  | Start r => has_parent w r (head st)
  | Finish _ => True
  | Other a => call_closed w a
  end.

#[export] Instance op_ok_dec w st o : Decision (op_ok w st o).
Proof. destruct o; apply _. Defined.

(** ** Facts on chains *)

Section chains.
Implicit Types (w : world) (r : sref) (st : list sref) (p : option sref).

Lemma has_parent_spec w r p :
  has_parent w r p <-> exists s, spans w !! r = Some s /\ _parent s = p.
Proof. unfold has_parent. destruct (spans w !! r); [|by split; [|intros (? & ? & ?)]]. split; [by eexists | by intros (? & [= <-] & ?)]. Qed.

Lemma has_parent_extends w w' r p : w ⊑ w' -> has_parent w r p -> has_parent w' r p.
Proof.
  intros [Hw _] (s & Hs & Hp)%has_parent_spec. apply has_parent_spec.
  destruct (Hw _ _ Hs) as (s' & Hs' & Hid). exists s'. split; [done|].
  by rewrite <- Hid.
Qed.

Lemma has_parent_inj w r p p' : has_parent w r p -> has_parent w r p' -> p = p'.
Proof. unfold has_parent. destruct (spans w !! r); naive_solver. Qed.

Lemma chain_extends w w' st : w ⊑ w' -> chain w st -> chain w' st.
Proof.
  intros Hw. induction st as [|r st IH]; [done|]. intros [Hr Hst].
  split; [by eapply has_parent_extends | by apply IH].
Qed.

(** The bottom of a chain has no parent. *)
Lemma chain_last w st r : chain w st -> last st = Some r -> has_parent w r None.
Proof.
  induction st as [|r0 [|r1 st] IH]; [done|..].
  - by intros [Hr _] [= <-].
  - intros [_ Hst] Hl. by apply IH.
Qed.

(** A span with a span below it on the stack is not the bottom. *)
Lemma chain_top_not_last w r r1 st : chain w (r :: r1 :: st) -> last (r1 :: st) <> Some r.
Proof.
  intros [Hr Hst] Hl. pose proof (chain_last _ _ _ Hst Hl) as Hn.
  by pose proof (has_parent_inj _ _ _ _ Hr Hn).
Qed.

End chains.

(** ** One step of the tracer is one step of the stack *)

Section simulation.
Context {keys : TagKeys}.
Implicit Types (w : world) (r : sref) (self : cref) (st : list sref) (o : op)
  (a : call).

Lemma repr_start w self st r :
  repr w self st -> has_parent w r (head st) ->
  repr (spec_call (CallAddSpan self (Some r)) w).2 self (r :: st).
Proof.
  intros [Hch Hc] Hr. pose proof (spec_call_extends (CallAddSpan self (Some r)) w) as Hext.
  split; [split; eauto using has_parent_extends, chain_extends|].
  clear Hext. apply has_parent_spec in Hr as (s & Hs & Hp). cbn. rewrite Hs.
  destruct (ctxs w !! self) as [c|]; [|done]. destruct Hc as [Ha Hroot].
  cbn. rewrite lookup_insert_eq. unfold add_span_ctx, activate. cbn.
  split; [done|]. rewrite Hp. by destruct st.
Qed.

Lemma repr_finish w self st r :
  repr w self (r :: st) ->
  repr (spec_call (CallCloseSpan self (Some r)) w).2 self st.
Proof.
  intros [[Hr Hch] Hc].
  split; [by eapply chain_extends, Hch; apply spec_call_extends|].
  apply has_parent_spec in Hr as (s & Hs & Hp).
  cbn. rewrite Hs. destruct (ctxs w !! self) as [c|] eqn:Hself; [|done].
  destruct Hc as [Ha Hroot]. cbn. rewrite lookup_insert_eq.
  unfold close_span_ctx, parent_of. rewrite Hp, Hroot.
  destruct st as [|r1 st].
  - cbn. by rewrite py_eq_refl.
  - pose proof Hch as [(s1 & Hs1 & _)%has_parent_spec _]. cbn. rewrite Hs1.
    assert (py_eq (Some r) (last (r1 :: st)) = false) as ->; [|done].
    apply py_eq_false. intros Heq. eapply (chain_top_not_last w r); [|by symmetry].
    split; [apply has_parent_spec; eauto | done].
Qed.

Lemma repr_other w self st a :
  neutral self a -> repr w self st -> repr (spec_call a w).2 self st.
Proof.
  intros Hn [Hch Hc]. split; [by eapply chain_extends, Hch; apply spec_call_extends|].
  destruct (ctxs w !! self) as [c|] eqn:Hself; [|done].
  destruct (decide (call_writes a = Some self)) as [Hw|Hw];
    [|by erewrite spec_call_frame_ctx].
  destruct a; simplify_eq/=; rewrite Hself; cbn; by rewrite lookup_insert_eq.
Qed.

(** The simulation diagram, on transitions. *)
Lemma repr_spec_call w self st o st' :
  repr w self st -> op_ok w st o -> stack_step self st o = Some st' ->
  repr (spec_call (op_call self o) w).2 self st'.
Proof.
  intros Hr Hs Hst. destruct o as [r|r|a]; cbn in *.
  - simplify_eq. by apply repr_start.
  - destruct st as [|r' st]; [done|]. case_decide; simplify_eq.
    by apply repr_finish.
  - case_decide; simplify_eq. by apply repr_other.
Qed.

(** The arguments of an operation the stack accepts exist. *)
Lemma op_call_closed w self st o st' :
  repr w self st -> op_ok w st o -> stack_step self st o = Some st' ->
  call_closed w (op_call self o).
Proof.
  intros [Hch Hc] Hs Hst. destruct (ctxs w !! self) as [c|] eqn:Hself; [|done].
  destruct o as [r|r|a]; cbn in *; [| |done]; rewrite Hself.
  - apply has_parent_spec in Hs as (s & -> & _). eauto.
  - destruct st as [|r' st]; [done|]. case_decide; simplify_eq.
    destruct Hch as [(s & -> & _)%has_parent_spec _]. eauto.
Qed.

End simulation.

(** ** Executions *)

Section executions.
Context {keys : TagKeys}.
Implicit Types (w : world) (r : sref) (self : cref) (st : list sref) (o : op)
  (l : list op).

(** The abstract machine run along a program: the stack after the
    operations of [l], when each of them is accepted by the stack and
    meets its obligation in the store it is made in. *)
Fixpoint lifo self l w st : option (list sref) :=
  match l with
  | [] => Some st
  | o :: l =>
      if decide (op_ok w st o) then
        match stack_step self st o with
        | Some st1 => lifo self l (spec_call (op_call self o) w).2 st1
        | None => None
        end
      else None
  end.

Lemma lifo_cons self o l w st st' :
  lifo self (o :: l) w st = Some st' ->
  exists st1, op_ok w st o /\ stack_step self st o = Some st1 /\
    lifo self l (spec_call (op_call self o) w).2 st1 = Some st'.
Proof. cbn. case_decide; [|done]. destruct (stack_step self st o); naive_solver. Qed.

(** The methods agree with the transitions on an accepted operation. *)
Lemma run_op_spec w self st o st' :
  world_inv w -> repr w self st -> op_ok w st o ->
  stack_step self st o = Some st' ->
  run_call (op_call self o) w = spec_call (op_call self o) w /\
  world_inv (spec_call (op_call self o) w).2.
Proof.
  intros Hw Hr Ho Hst. pose proof (op_call_closed _ _ _ _ _ Hr Ho Hst).
  auto using run_call_spec, world_inv_closed, world_inv_spec_call.
Qed.

(** Along an accepted program the methods agree with the transitions,
    the invariant of the store is kept and the context keeps
    representing the stack. *)
Lemma lifo_run self l w st st' :
  world_inv w -> repr w self st -> lifo self l w st = Some st' ->
  let calls := map (op_call self) l in
  run_calls calls w = spec_calls calls w /\
  world_inv (spec_calls calls w).2 /\ repr (spec_calls calls w).2 self st'.
Proof.
  revert w st. induction l as [|o l IH]; intros w st Hw Hr Hl; [by simplify_eq/=|].
  apply lifo_cons in Hl as (st1 & Ho & Hst & Hl).
  destruct (run_op_spec _ _ _ _ _ Hw Hr Ho Hst) as [Hrun Hw1].
  pose proof (repr_spec_call _ _ _ _ _ Hr Ho Hst) as Hr1.
  destruct (IH _ _ Hw1 Hr1 Hl) as (IH1 & IH2 & IH3). cbn in *. rewrite Hrun.
  destruct (spec_call (op_call self o) w) as [res w1]. cbn in *. rewrite IH1.
  by destruct (spec_calls (map (op_call self) l) w1).
Qed.

Lemma repr_getters w self st :
  repr w self st ->
  get_current_span self w = (Ok (head st), w) /\
  get_current_root_span self w = (Ok (last st), w).
Proof.
  intros [_ Hc]. destruct (ctxs w !! self) as [c|] eqn:Hself; [|done].
  destruct Hc as [<- <-]. split; py_run.
Qed.

End executions.

(** ** The contract *)

Section contract.
Context {keys : TagKeys}.
Implicit Types (w : world) (r : sref) (self : cref) (st : list sref) (o : op)
  (l : list op).

(** C27. The context implements a stack of open spans: when a program
    starts each span as a child of the span that is current and
    finishes the span that is current, in any interleaving with calls
    on other contexts, with assignments of the sampling priority and
    the origin and with the creation of objects, then after the methods
    of the class have run the current span of the context is the top of
    the stack of open spans, its local root span is the bottom, and the
    open spans are linked by their parents.  What the tracer observes:
    [get_current_span] returns the span opened last and not yet closed
    (or None when all are closed), [get_current_root_span] the span
    opened first, and neither changes the store. *)
Theorem lifo_refinement self l w st st' :
  world_inv w -> repr w self st -> lifo self l w st = Some st' ->
  let w' := (run_calls (map (op_call self) l) w).2 in
  repr w' self st' /\
  get_current_span self w' = (Ok (head st'), w') /\
  get_current_root_span self w' = (Ok (last st'), w').
Proof.
  intros Hw Hr Hl. destruct (lifo_run _ _ _ _ _ Hw Hr Hl) as (Hrun & _ & Hr').
  cbn in *. rewrite Hrun. split; [done|]. by apply repr_getters.
Qed.

End contract.

(** ** The theorems on an example program *)

Section examples.
#[local] Existing Instance ddtrace_keys.

(** A request: the root span, a priority decision, a child span, a
    clone handed to another execution unit, then both spans closed. *)
Definition ex_ops : list op :=
  [ Start ex_root;
    Other (CallSetSamplingPriority ex_self (VInt 1));
    Start ex_child;
    Other (CallClone ex_self);
    Finish ex_child;
    Finish ex_root ].

Lemma ex_w0_inv : world_inv ex_w0.
Proof. exact (reachable_world_inv _ _ ex_w0_reachable). Qed.

Lemma ex_w0_repr : repr ex_w0 ex_self [].
Proof. by compute_done. Qed.

Lemma lifo_refinement_witness :
  let w' := (run_calls (map (op_call ex_self) (take 4 ex_ops)) ex_w0).2 in
  repr w' ex_self [ex_child; ex_root] /\
  get_current_span ex_self w' = (Ok (Some ex_child), w') /\
  get_current_root_span ex_self w' = (Ok (Some ex_root), w').
Proof.
  refine (lifo_refinement ex_self (take 4 ex_ops) ex_w0 [] [ex_child; ex_root]
            ex_w0_inv ex_w0_repr _).
  by vm_compute.
Defined.

End examples.
