(* ===== verification/Mirror.v ===== *)
(** * Mirror: the root span carries the metadata of its context

    The invariant behind the two setters and the mirroring in
    [add_span]: while a context has a local root span, a sampling
    priority and an origin that are set on the context are in the
    [metrics] and the [meta] of that span.  It is kept by every call made
    on the context, and by the calls made on other contexts as long as
    they do not write its root span: a span is the root span of one
    context at a time.  The last section shows what happens otherwise:
    the class accepts a span as root span of two contexts and the
    invariant is lost for the first. *)

From S2P Require Import Prelude Span Objects Context Spec Invariants.
From S2P Require Import Reachable Isolation.

Section mirror.
Context {keys : TagKeys}.
Implicit Types (w : world) (r : sref) (self k : cref) (c : Context) (s : Span)
  (a : call) (l : list call) (v : value).

(** Span [s] carries what is set on context [c]. *)
Definition mirrors c s : Prop :=
  (_sampling_priority c <> VNone ->
   metrics s !! SAMPLING_PRIORITY_KEY = Some (_sampling_priority c)) /\
  (_dd_origin c <> VNone -> meta s !! ORIGIN_KEY = Some (_dd_origin c)).

(** The local root span of [self], when there is one, carries what is
    set on [self]. *)
Definition mirrored w self : Prop :=
  match ctxs w !! self with
  | Some c =>
      match _local_root_span c with
      | Some r => match spans w !! r with Some s => mirrors c s | None => True end
      | None => True
      end
  | None => True
  end.

(** Call [a] is made on [self] or does not write the local root span of
    [self]. *)
Definition private w self a : Prop :=
  call_writes a = Some self \/
  match ctxs w !! self with
  | Some c =>
      match _local_root_span c with
      | Some r => call_writes_span w a <> Some r
      | None => True
      end
  | None => True
  end.

(** Every call of the list is private when it is made. *)
Fixpoint calls_private self l w : Prop :=
  match l with
  | [] => True
  | a :: l => private w self a /\ calls_private self l (spec_call a w).2
  end.

#[export] Instance mirrors_dec c s : Decision (mirrors c s).
Proof. unfold mirrors. apply _. Defined.

#[export] Instance mirrored_dec w self : Decision (mirrored w self).
Proof. unfold mirrored. repeat case_match; apply _. Defined.

#[export] Instance private_dec w self a : Decision (private w self a).
Proof. unfold private. repeat case_match; apply _. Defined.

#[export] Instance calls_private_dec self l w : Decision (calls_private self l w).
Proof. revert w. induction l; intros w; cbn; apply _. Defined.

Lemma mirrored_spec w self :
  mirrored w self <->
  forall c r s, ctxs w !! self = Some c -> _local_root_span c = Some r ->
    spans w !! r = Some s -> mirrors c s.
Proof.
  unfold mirrored. split.
  - intros H c r s Hc Hr Hs. by rewrite Hc, Hr, Hs in H.
  - intros H. repeat case_match; eauto.
Qed.

(** ** Records *)

Lemma mirrors_mirror c s :
  mirrors c
    (set_metrics (mirror SAMPLING_PRIORITY_KEY (_sampling_priority c))
       (set_meta (mirror ORIGIN_KEY (_dd_origin c)) s)).
Proof.
  unfold mirrors. cbn. split; intros Hv.
  - destruct (_sampling_priority c); [done|..]; apply setitem_lookup.
  - destruct (_dd_origin c); [done|..]; apply setitem_lookup.
Qed.

Lemma mirrors_set_sampling_priority c s v :
  mirrors c s ->
  mirrors (set__sampling_priority v c) (set_metrics (setitem SAMPLING_PRIORITY_KEY v) s).
Proof. intros [_ Ho]. split; [intros _; apply setitem_lookup | done]. Qed.

Lemma mirrors_set_dd_origin c s v :
  mirrors c s ->
  mirrors (set__dd_origin v c) (set_meta (setitem ORIGIN_KEY v) s).
Proof. intros [Hp _]. split; [done | intros _; apply setitem_lookup]. Qed.

(** [mirrors] only looks at the two values and the two dictionaries. *)
Lemma mirrors_fields c c' s s' :
  _sampling_priority c' = _sampling_priority c -> _dd_origin c' = _dd_origin c ->
  metrics s' = metrics s -> meta s' = meta s ->
  mirrors c s -> mirrors c' s'.
Proof. unfold mirrors. by intros -> -> -> ->. Qed.

(** ** Calls on other contexts *)

(** A context that a call brings into being has no local root span. *)
Lemma spec_call_new_ctx a w k c :
  ctxs w !! k = None -> ctxs (spec_call a w).2 !! k = Some c ->
  _local_root_span c = None.
Proof.
  intros Hk.
  destruct a as [| self v | self v | self | self [r|] | self [r|] |];
    cbn; repeat case_match; simplify_eq/=; try congruence;
    by intros [[<- <-]|[? ?]]%lookup_insert_Some; simplify_eq/=.
Qed.

Lemma mirrored_frame w self a :
  closed w -> call_writes a <> Some self -> private w self a ->
  mirrored w self -> mirrored (spec_call a w).2 self.
Proof.
  intros Hw Ha [?|Hp] Hm; [done|]. unfold mirrored in *.
  destruct (ctxs w !! self) as [c|] eqn:Hc.
  - rewrite (spec_call_frame_ctx a w self c) by done.
    destruct (_local_root_span c) as [r|] eqn:Hr; [|done].
    destruct (closed_ctx _ _ _ Hw Hc) as [_ Hroot]. rewrite Hr in Hroot.
    destruct Hroot as [s Hs]. rewrite Hs in Hm.
    by rewrite (spec_call_frame_span a w r s).
  - destruct (ctxs (spec_call a w).2 !! self) as [c'|] eqn:Hc'; [|done].
    by rewrite (spec_call_new_ctx a w self c').
Qed.

(** ** Calls on the context itself *)

Lemma mirrored_set_sampling_priority w self v :
  mirrored w self -> mirrored (spec_call (CallSetSamplingPriority self v) w).2 self.
Proof.
  unfold mirrored. cbn. destruct (ctxs w !! self) as [c|] eqn:Hc; [|by cbn; rewrite Hc].
  cbn. rewrite lookup_insert_eq. cbn.
  destruct (_local_root_span c) as [r|]; [|done]. unfold alter_root. rewrite lookup_alter_eq.
  destruct (spans w !! r); [|done]. apply mirrors_set_sampling_priority.
Qed.

Lemma mirrored_set_dd_origin w self v :
  mirrored w self -> mirrored (spec_call (CallSetOrigin self v) w).2 self.
Proof.
  unfold mirrored. cbn. destruct (ctxs w !! self) as [c|] eqn:Hc; [|by cbn; rewrite Hc].
  cbn. rewrite lookup_insert_eq. cbn.
  destruct (_local_root_span c) as [r|]; [|done]. unfold alter_root. rewrite lookup_alter_eq.
  destruct (spans w !! r); [|done]. apply mirrors_set_dd_origin.
Qed.

Lemma mirrors_add_span_span self c s : _parent s = None -> mirrors c (add_span_span self c s).
Proof.
  intros Hp. eapply mirrors_fields, (mirrors_mirror c s); try done;
    unfold add_span_span; cbn; by rewrite Hp.
Qed.

Lemma mirrored_add_span w self r :
  mirrored w self -> mirrored (spec_call (CallAddSpan self (Some r)) w).2 self.
Proof.
  unfold mirrored. cbn.
  destruct (ctxs w !! self) as [c|] eqn:Hc; [|by cbn; rewrite Hc].
  destruct (spans w !! r) as [s|] eqn:Hs; [|by cbn; rewrite Hc].
  cbn. rewrite lookup_insert_eq. unfold add_span_ctx, activate. cbn.
  destruct (_parent s) as [p|] eqn:Hp; cbn.
  - destruct (_local_root_span c) as [r0|]; [|done].
    destruct (decide (r0 = r)) as [->|Hne].
    + rewrite lookup_insert_eq, Hs. apply mirrors_fields; try done;
        unfold add_span_span; cbn; by rewrite Hp.
    + by rewrite lookup_insert_ne.
  - rewrite lookup_insert_eq. intros _.
    eapply mirrors_fields, (mirrors_add_span_span self c s Hp); done.
Qed.

Lemma mirrored_close_span w self span :
  mirrored w self -> mirrored (spec_call (CallCloseSpan self span) w).2 self.
Proof.
  unfold mirrored. destruct span as [r|]; cbn;
    (destruct (ctxs w !! self) as [c|] eqn:Hc; [|by cbn; rewrite Hc]).
  - destruct (spans w !! r) as [s|] eqn:Hs; [|by cbn; rewrite Hc].
    cbn. rewrite lookup_insert_eq. unfold close_span_ctx.
    destruct (py_eq (Some r) (_local_root_span c)), (parent_of w s) as [[p sp]|];
      cbn; try done; (destruct (_local_root_span c) as [r0|]; [|done]);
      destruct (spans w !! r0); try done; by apply mirrors_fields.
  - destruct (_local_root_span c) as [r0|] eqn:Hr; cbn; [by rewrite Hc, Hr|].
    by rewrite lookup_insert_eq.
Qed.

(** ** Every private call keeps the invariant *)

Lemma mirrored_spec_call w self a :
  closed w -> private w self a -> mirrored w self ->
  mirrored (spec_call a w).2 self.
Proof.
  intros Hw Hp Hm. destruct (decide (call_writes a = Some self)) as [Ha|Ha];
    [|by apply mirrored_frame].
  destruct a as [| k v | k v | k | k [r|] | k span |]; cbn in Ha; simplify_eq;
    auto using mirrored_set_sampling_priority, mirrored_set_dd_origin,
      mirrored_add_span, mirrored_close_span.
Qed.

End mirror.

(** ** Along executions *)

Section executions.
Context {keys : TagKeys}.
Implicit Types (w : world) (self : cref) (l : list call).

(** C32. The root span carries the metadata of its context: when the
    local root span of a context carries the sampling priority and the
    origin set on the context, it still does after any list of calls
    whose arguments exist, made on this context or on others, provided
    the calls made on other contexts do not write that span.  A context
    without local root span satisfies the premise, so the property holds
    from the creation of the context on. *)
Theorem mirrored_run_calls self l w :
  world_inv w -> calls_closed l w -> calls_private self l w ->
  mirrored w self -> mirrored (run_calls l w).2 self.
Proof.
  revert w. induction l as [|a l IH]; intros w Hw Hl Hp Hm; [done|].
  destruct Hl as [Ha Hl], Hp as [Hpa Hp]. cbn.
  rewrite run_call_spec by auto using world_inv_closed.
  pose proof (world_inv_spec_call w a Hw Ha) as Hw1.
  pose proof (mirrored_spec_call w self a (world_inv_closed _ Hw) Hpa Hm) as Hm1.
  specialize (IH (spec_call a w).2 Hw1 Hl Hp Hm1).
  destruct (spec_call a w) as [res w1]. cbn in *.
  by destruct (run_calls l w1).
Qed.

End executions.

(** ** The premise on other contexts is needed *)

Section shared_root.
Context {keys : TagKeys}.
Implicit Types (w : world) (r : sref) (c : Context) (s : Span).

(** The store after the same parentless span was added to two
    contexts. *)
Lemma add_span_twice_exec w (A B : cref) r cA cB s :
  A <> B -> ctxs w !! A = Some cA -> ctxs w !! B = Some cB ->
  spans w !! r = Some s ->
  exec (add_span A (Some r) ;; add_span B (Some r)) w =
    {| spans := <[r := add_span_span B cB (add_span_span A cA s)]> (spans w);
       ctxs := <[B := add_span_ctx r (add_span_span A cA s) cB]>
                 (<[A := add_span_ctx r s cA]> (ctxs w)) |}.
Proof.
  intros Hne HA HB Hs. eapply exec_intro, run_seq; [by apply add_span_exec|].
  etrans; [apply add_span_exec; cbn; [by rewrite lookup_insert_ne | apply lookup_insert_eq]|].
  cbn. by rewrite insert_insert_eq.
Qed.

(** C21. A span must be the root span of one context only: when the
    same parentless span is added to two contexts with different
    sampling priorities, both contexts hold it as their local root
    span, the span points back at the second context, and its metrics
    carry the priority of the second: the first context no longer
    finds its own priority on its root span.  No call fails and
    nothing reports the conflict. *)
Theorem shared_root_breaks_mirror w (A B : cref) r cA cB s (pA pB : Z) :
  A <> B -> ctxs w !! A = Some cA -> ctxs w !! B = Some cB ->
  spans w !! r = Some s -> _parent s = None ->
  _sampling_priority cA = VInt pA -> _sampling_priority cB = VInt pB ->
  pA <> pB ->
  let w' := exec (add_span A (Some r) ;; add_span B (Some r)) w in
  get_current_root_span A w' = (Ok (Some r), w') /\
  get_current_root_span B w' = (Ok (Some r), w') /\
  (exists s', spans w' !! r = Some s' /\ _context s' = Some B /\
     metrics s' !! SAMPLING_PRIORITY_KEY = Some (VInt pB)) /\
  ~ mirrored w' A.
Proof.
  intros Hne HA HB Hs Hp HpA HpB Hdiff w'. subst w'.
  rewrite (add_span_twice_exec w A B r cA cB s) by done.
  assert (Hm : metrics (add_span_span B cB (add_span_span A cA s))
                 !! SAMPLING_PRIORITY_KEY = Some (VInt pB)).
  { unfold add_span_span, mirror. cbn. rewrite Hp, HpB. cbn. apply setitem_lookup. }
  assert (HrA : _local_root_span (add_span_ctx r s cA) = Some r)
    by (unfold add_span_ctx, activate; by rewrite Hp).
  split_and!.
  - unfold get_current_root_span. erewrite getattr_ctx_run; [by rewrite HrA|].
    cbn. rewrite lookup_insert_ne by done. apply lookup_insert_eq.
  - unfold get_current_root_span.
    rewrite (getattr_ctx_run B _ _ (add_span_ctx r (add_span_span A cA s) cB))
      by apply lookup_insert_eq.
    unfold add_span_ctx, activate, add_span_span. cbn. by rewrite Hp.
  - eexists. split; [apply lookup_insert_eq|]. split; [done | exact Hm].
  - unfold mirrored. cbn. rewrite lookup_insert_ne, lookup_insert_eq by done.
    rewrite HrA, lookup_insert_eq. intros [Hmir _].
    unfold add_span_ctx, activate in Hmir. rewrite Hp in Hmir. cbn in Hmir.
    rewrite HpA, Hm in Hmir. specialize (Hmir ltac:(done)). congruence.
Qed.

End shared_root.

Section examples.
#[local] Existing Instance ddtrace_keys.

(** The root span and the child span are added to [ex_self], the
    sampling priority is decided again, another context takes the child
    span, and the origin changes. *)
Definition ex_calls : list call :=
  [ CallAddSpan ex_self (Some ex_root);
    CallAddSpan ex_self (Some ex_child);
    CallSetSamplingPriority ex_self (VInt 1);
    CallAddSpan ex_remote (Some ex_child);
    CallSetOrigin ex_self (VStr "lambda") ].

Lemma mirrored_run_calls_witness : mirrored (run_calls ex_calls ex_w0).2 ex_self.
Proof.
  refine (mirrored_run_calls ex_self ex_calls ex_w0
            (reachable_world_inv _ _ ex_w0_reachable) _ _ _); by compute_done.
Defined.

(** The example store with a sampling priority decided on the second
    context. *)
Definition ex_w0_two : world :=
  upd_ctxs <[ex_remote := set__sampling_priority (VInt 1) ex_remote_ctx]> ex_w0.

Lemma shared_root_breaks_mirror_witness :
  let w' := exec (add_span ex_self (Some ex_root) ;; add_span ex_remote (Some ex_root))
              ex_w0_two in
  get_current_root_span ex_self w' = (Ok (Some ex_root), w') /\
  get_current_root_span ex_remote w' = (Ok (Some ex_root), w') /\
  (exists s', spans w' !! ex_root = Some s' /\ _context s' = Some ex_remote /\
     metrics s' !! SAMPLING_PRIORITY_KEY = Some (VInt 1)) /\
  ~ mirrored w' ex_self.
Proof.
  refine (shared_root_breaks_mirror ex_w0_two ex_self ex_remote ex_root ex_ctx
            (set__sampling_priority (VInt 1) ex_remote_ctx) ex_root_span 2 1
            _ eq_refl eq_refl eq_refl eq_refl eq_refl eq_refl _); by intros [=].
Defined.

End examples.
