(* ===== verification/Typing.v ===== *)
(** * Typing: the values the context stores and writes

    Python checks no types, and the context never looks inside the
    values it forwards.  This file states the typing the documentation
    of the class relies on (identifiers and sampling priorities are
    integers, the origin is a string, [meta] maps to strings and
    [metrics] to numbers) and proves that it is an invariant of every
    execution whose calls respect it.  The type of identifiers is a
    parameter [Id] of the development.  There are two disciplines for the
    callers: a lenient one, where [None] may be assigned to the two
    properties, and then [None] may appear among the tags of a span; a
    strict one, where it may not, and then the tags are never [None]. *)

From S2P Require Import Prelude Span Objects Context Spec Invariants Reachable.

(** ** Types of values *)

Definition is_int (v : value) : bool :=
  match v with VInt _ => true | _ => false end.

Definition is_str (v : value) : bool :=
  match v with VStr _ => true | _ => false end.

(** [Optional[T]] *)
Definition opt (T : value -> bool) (v : value) : bool := is_None v || T v.

(** What callers may assign to the two properties. *)
Inductive discipline : Type := Lenient | Strict.

(** The type of a tag of a span under a discipline. *)
Definition tag (d : discipline) (T : value -> bool) : value -> bool :=
  match d with Lenient => opt T | Strict => T end.

Section typing.
Context {keys : TagKeys}.
Variable Id : value -> bool.
Implicit Types (w : world) (r : sref) (k self : cref) (s : Span) (c : Context)
  (a : call) (v : value) (d : discipline) (T : value -> bool).

Definition typed_ctx c : Prop :=
  opt Id (_trace_id c) /\ opt Id (_active_span_id c) /\
  opt is_int (_sampling_priority c) /\ opt is_str (_dd_origin c).

Definition typed_span d s : Prop :=
  Id (Span.trace_id s) /\ Id (Span.span_id s) /\
  map_Forall (fun _ v => tag d is_str v) (meta s) /\
  map_Forall (fun _ v => tag d is_int v) (metrics s).

Definition typed_world d w : Prop :=
  map_Forall (fun _ => typed_ctx) (ctxs w) /\
  map_Forall (fun _ => typed_span d) (spans w).

(** The arguments of a call have the types the class documents. *)
Definition typed_call d a : Prop :=
  match a with
  | CallNew tid sid prio orig =>
      opt Id tid /\ opt Id sid /\ opt is_int prio /\ opt is_str orig
  | CallSetSamplingPriority _ v => tag d is_int v
  | CallSetOrigin _ v => tag d is_str v
  | CallNewSpan tid sid _ => Id tid /\ Id sid
  | CallClone _ | CallAddSpan _ _ | CallCloseSpan _ _ => True
  end.

#[export] Instance typed_ctx_dec c : Decision (typed_ctx c).
Proof. unfold typed_ctx. apply _. Defined.
#[export] Instance typed_span_dec d s : Decision (typed_span d s).
Proof. unfold typed_span. apply _. Defined.
#[export] Instance typed_world_dec d w : Decision (typed_world d w).
Proof. unfold typed_world. apply _. Defined.
#[export] Instance typed_call_dec d a : Decision (typed_call d a).
Proof. destruct a; apply _. Defined.

(** ** Values *)

Lemma T_opt T v : T v -> opt T v.
Proof. intros Hv. apply orb_True. by right. Qed.

Lemma tag_opt d T v : tag d T v -> opt T v.
Proof. destruct d; [done | apply T_opt]. Qed.

Lemma opt_tag d T v : opt T v -> is_None v = false -> tag d T v.
Proof.
  unfold opt. intros [Hv|Hv]%orb_True Hn; [by rewrite Hn in Hv|].
  destruct d; [by apply T_opt | done].
Qed.

(** ** Records *)

Lemma typed_ctx_init tid sid prio orig :
  opt Id tid -> opt Id sid -> opt is_int prio -> opt is_str orig ->
  typed_ctx (__init__ tid sid prio orig).
Proof. by intros; split_and!. Qed.

Lemma typed_ctx_end_trace c : typed_ctx c -> typed_ctx (end_trace c).
Proof. by intros (? & ? & ? & ?); unfold end_trace, typed_ctx. Qed.

Lemma typed_ctx_activate d c parent :
  match parent with Some (p, s) => typed_span d s | None => True end ->
  typed_ctx c -> typed_ctx (activate parent c).
Proof.
  intros Hp (? & ? & ? & ?). unfold activate, typed_ctx.
  destruct parent as [[p s]|]; cbn; [|done].
  destruct Hp as (? & ? & _). auto using T_opt.
Qed.

Lemma typed_mirror d T (key : string) v (m : gmap string value) :
  opt T v -> map_Forall (fun _ v => tag d T v) m ->
  map_Forall (fun _ v => tag d T v) (mirror key v m).
Proof.
  intros Hv Hm. unfold mirror. destruct (is_None v) eqn:Hn; [done|].
  apply map_Forall_insert_2; [by apply opt_tag | done].
Qed.

Lemma typed_span_add_span_span d self c s :
  typed_ctx c -> typed_span d s -> typed_span d (add_span_span self c s).
Proof.
  intros (_ & _ & Hp & Ho) (? & ? & ? & ?). unfold add_span_span.
  split_and!; cbn; try done; destruct (truthy (_parent s));
    auto using typed_mirror.
Qed.

Lemma typed_span_set_metrics d key v s :
  tag d is_int v -> typed_span d s -> typed_span d (set_metrics (setitem key v) s).
Proof.
  intros Hv (? & ? & ? & ?). split_and!; try done. by apply map_Forall_insert_2.
Qed.

Lemma typed_span_set_meta d key v s :
  tag d is_str v -> typed_span d s -> typed_span d (set_meta (setitem key v) s).
Proof.
  intros Hv (? & ? & ? & ?). split_and!; try done. by apply map_Forall_insert_2.
Qed.

Lemma typed_span_init d tid sid parent :
  Id tid -> Id sid -> typed_span d (Span__init__ tid sid parent).
Proof. intros. split_and!; try done; apply map_Forall_empty. Qed.

Lemma typed_ctx_set_sampling_priority d c v :
  tag d is_int v -> typed_ctx c -> typed_ctx (set__sampling_priority v c).
Proof. intros Hv (? & ? & ? & ?). split_and!; try done. by eapply tag_opt. Qed.

Lemma typed_ctx_set_dd_origin d c v :
  tag d is_str v -> typed_ctx c -> typed_ctx (set__dd_origin v c).
Proof. intros Hv (? & ? & ? & ?). split_and!; try done. by eapply tag_opt. Qed.

Lemma typed_ctx_clone c :
  typed_ctx c ->
  typed_ctx (__init__ (_trace_id c) (_active_span_id c) (_sampling_priority c)
               (_dd_origin c)).
Proof. by intros (? & ? & ? & ?). Qed.

Lemma typed_ctx_add_span_ctx d r s c :
  typed_span d s -> typed_ctx c -> typed_ctx (add_span_ctx r s c).
Proof.
  intros Hs Hc. unfold add_span_ctx. apply (typed_ctx_activate d); [done|].
  by destruct (truthy (_parent s)).
Qed.

Lemma typed_ctx_close_span_ctx d w span s c :
  map_Forall (fun _ => typed_span d) (spans w) ->
  typed_ctx c -> typed_ctx (close_span_ctx span (parent_of w s) c).
Proof.
  intros Hw Hc. unfold close_span_ctx. apply (typed_ctx_activate d).
  - unfold parent_of. destruct (_parent s) as [p|]; [|done].
    destruct (spans w !! p) as [sp|] eqn:Hp; [|done]. exact (Hw _ _ Hp).
  - destruct (py_eq span (_local_root_span c)); auto using typed_ctx_end_trace.
Qed.

(** ** Stores *)

Lemma map_Forall_alter_root (P : Span -> Prop) root f (m : gmap sref Span) :
  (forall s, P s -> P (f s)) ->
  map_Forall (fun _ => P) m -> map_Forall (fun _ => P) (alter_root root f m).
Proof.
  intros Hf Hm r s' (s & Hs & [->| ->])%lookup_alter_root_inv;
    [|apply Hf]; exact (Hm _ _ Hs).
Qed.

End typing.

#[export] Hint Resolve typed_ctx_init typed_ctx_end_trace typed_ctx_clone
  typed_ctx_set_sampling_priority typed_ctx_set_dd_origin typed_ctx_add_span_ctx
  typed_ctx_close_span_ctx typed_span_set_metrics typed_span_set_meta
  typed_span_init typed_span_add_span_span : py.

Section typed_executions.
Context {keys : TagKeys}.
Variable Id : value -> bool.
Implicit Types (w : world) (a : call) (d : discipline).

(** Every transition keeps the store typed when its arguments are. *)
Lemma typed_spec_call d w a :
  typed_world Id d w -> typed_call Id d a -> typed_world Id d (spec_call a w).2.
Proof.
  intros [Hc Hs] Ha.
  destruct a as [| self v | self v | self | self [r|] | self [r|] |];
    cbn in *; repeat case_match; destruct_and?; simplify_eq/=; try done;
    (split; [try apply map_Forall_insert_2 | try apply map_Forall_insert_2];
     try apply map_Forall_alter_root; eauto with py).
Qed.

End typed_executions.

(** ** The invariant *)

Section theorems.
Context {keys : TagKeys}.
Implicit Types (w : world) (d : discipline) (Id : value -> bool).

(** C33. Typing is an invariant: in every store reached by calls whose
    arguments have the documented types (values of type [Id] for
    identifiers, integers for priorities, strings for the origin,
    [None] allowed for the seeds of the constructor), the trace id and
    the active span id of every context are of type [Id] or [None], its
    sampling priority is an integer or [None], its origin is a string
    or [None], every span has identifiers of type [Id], and the tags of
    every span are typed: under the
    lenient discipline [meta] holds strings or [None] and [metrics]
    integers or [None]; under the strict discipline, where the two
    properties are never assigned [None], [meta] holds strings and
    [metrics] integers only. *)
Theorem reachable_typed Id d w :
  reachable (typed_call Id d) w -> typed_world Id d w.
Proof.
  revert w. apply reachable_spec_ind; [split; apply map_Forall_empty|].
  intros w a _ _ Ha Hw. by apply typed_spec_call.
Qed.

End theorems.

Section examples.
#[local] Existing Instance ddtrace_keys.

Lemma ex_w2_typed_reachable : reachable (typed_call is_int Strict) ex_w2.
Proof.
  replace ex_w2 with (spec_calls (ex_setup ++ take 2 ex_trace) empty_world).2
    by by vm_compute.
  apply reachable_spec_calls; [constructor | by compute_done | by compute_done].
Qed.

Lemma reachable_typed_witness : typed_world is_int Strict ex_w2.
Proof. exact (reachable_typed is_int Strict ex_w2 ex_w2_typed_reachable). Defined.

End examples.
