(* ===== verification/Drain.v ===== *)
(** * Drain: closing the current span until there is none

    The class has no loop, but its clients have one: a tracer that
    shuts a request down closes whatever span is current until the
    context reports none.  Each [close_span] makes the parent of the
    closed span current, so the loop walks up the parent links; it
    terminates because, in every store a program can reach, the parent
    links are well founded: a span is created with a parent that already
    exists and its parent never changes.

    The loop is written with fuel, so that it runs by computation; the
    theorems give a fuel that is enough: one more than the number of
    spans in the store in general, one more than the depth of the stack
    when the context follows the stack discipline of [Stack]. *)

From S2P Require Import Prelude Span Objects Context Spec Invariants Reachable.
From S2P Require Import Isolation Stack.

Section drain.
Context {keys : TagKeys}.
Implicit Types (w : world) (r : sref) (self : cref) (c : Context) (s : Span)
  (st : list sref) (fuel : nat).

(** [while ctx.get_current_span(): ctx.close_span(ctx.get_current_span())],
    at most [fuel] iterations.  The result says whether the loop has
    ended ([true]) or the fuel has ([false]). *)
Fixpoint drain self fuel : M world bool :=
  match fuel with
  | O => ret false
  | S fuel' =>
      cur <- get_current_span self ;;
      if truthy cur then close_span self cur ;; drain self fuel'
      else ret true
  end.

(** The record of the context after the spans of [st] were closed in
    this order. *)
Fixpoint close_all w st c : Context :=
  match st with
  | [] => c
  | r :: st' =>
      match spans w !! r with
      | Some s => close_all w st' (close_span_ctx (Some r) (parent_of w s) c)
      | None => c
      end
  end.

(** The context once its trace has ended and no span is current. *)
Definition ended c : Context :=
  {| _active_span := None;
     _trace_root_span_id := VNone;
     _local_root_span := None;
     _trace_id := VNone;
     _active_span_id := VNone;
     _sampling_priority := _sampling_priority c;
     _dd_origin := _dd_origin c |}.

(** Every span of the store has a finite line of ancestors that ends
    in a span without parent. *)
Definition rooted w : Prop :=
  forall r, is_Some (spans w !! r) -> exists st, chain w (r :: st).

End drain.

(** ** Lines of ancestors *)

Section chains.
Implicit Types (w : world) (r : sref) (st : list sref).

Lemma chain_suffix w st1 st2 : chain w (st1 ++ st2) -> chain w st2.
Proof. induction st1 as [|r st1 IH]; [done|]. by intros [_ ?]; apply IH. Qed.

(** The line of ancestors of a span is determined by the span. *)
Lemma chain_functional w r st st' :
  chain w (r :: st) -> chain w (r :: st') -> st = st'.
Proof.
  revert r st'. induction st as [|r1 st IH]; intros r st' [Hr Hst] [Hr' Hst'];
    pose proof (has_parent_inj _ _ _ _ Hr Hr') as Hh.
  - by destruct st'.
  - destruct st' as [|r1' st']; simplify_eq/=. f_equal. by eapply IH.
Qed.

Lemma chain_NoDup w st : chain w st -> NoDup st.
Proof.
  induction st as [|r st IH]; [constructor|]. intros Hc.
  constructor; [|by apply IH, Hc]. intros (l1 & l2 & ->)%list_elem_of_split.
  pose proof (chain_suffix w (r :: l1) (r :: l2) Hc) as Hc2.
  pose proof (chain_functional _ _ _ _ Hc Hc2) as Heq.
  apply (f_equal length) in Heq. rewrite length_app in Heq. cbn in Heq. lia.
Qed.

Lemma chain_allocated w st r : chain w st -> r ∈ st -> is_Some (spans w !! r).
Proof.
  induction st as [|r0 st IH]; [by intros _ ?%elem_of_nil|].
  intros [(s & Hs & _)%has_parent_spec Hst] [->|?]%elem_of_cons; eauto.
Qed.

(** A line of ancestors is no longer than the store has spans. *)
Lemma chain_length w st : chain w st -> length st <= size (spans w).
Proof.
  intros Hc. rewrite <- size_dom. unfold size, set_size. cbn.
  apply submseteq_length, NoDup_submseteq; [by eapply chain_NoDup|].
  intros r Hr. apply elem_of_elements, elem_of_dom. by eapply chain_allocated.
Qed.

End chains.

(** ** The parent links are well founded in every reachable store *)

Section rooted.
Context {keys : TagKeys}.
Implicit Types (w : world) (r : sref) (s : Span) (a : call) (P : call -> Prop).

(** Only the creation of a span brings a span into being. *)
Lemma spec_call_new_span a w r s :
  spans w !! r = None -> spans (spec_call a w).2 !! r = Some s ->
  exists tid sid parent,
    a = CallNewSpan tid sid parent /\ s = Span__init__ tid sid parent.
Proof.
  intros Hr.
  destruct a as [| self v | self v | self | self [r0|] | self [r0|] |];
    cbn; repeat case_match; simplify_eq/=; try congruence.
  - intros (s0 & ? & _)%lookup_alter_root_inv. congruence.
  - intros (s0 & ? & _)%lookup_alter_root_inv. congruence.
  - intros [[<- <-]|[? ?]]%lookup_insert_Some; congruence.
  - intros [[<- <-]|[? ?]]%lookup_insert_Some; [eauto|congruence].
Qed.

Lemma rooted_spec_call w a :
  call_closed w a -> rooted w -> rooted (spec_call a w).2.
Proof.
  intros Ha Hw r [s' Hs']. pose proof (spec_call_extends a w) as Hext.
  destruct (spans w !! r) as [s|] eqn:Hs.
  { destruct (Hw r) as [st Hst]; [by eexists|]. exists st.
    by eapply chain_extends. }
  destruct (spec_call_new_span a w r s' Hs Hs') as (tid & sid & p & -> & ->).
  assert (Hr : has_parent (spec_call (CallNewSpan tid sid p) w).2 r p)
    by by apply has_parent_spec; eexists.
  destruct p as [p|]; [|by exists []].
  destruct (Hw p Ha) as [st Hst]. exists (p :: st).
  split; [done | by eapply chain_extends].
Qed.

Lemma rooted_empty : rooted empty_world.
Proof. by intros r [s Hs]. Qed.

Lemma reachable_rooted P w : reachable P w -> rooted w.
Proof.
  revert w. apply reachable_spec_ind; [apply rooted_empty|].
  intros w a _ Ha _. by apply rooted_spec_call.
Qed.

End rooted.

(** ** The equations of the loop *)

Section loop.
Context {keys : TagKeys}.
Implicit Types (w : world) (r : sref) (self : cref) (c : Context) (s : Span)
  (st : list sref) (fuel : nat).

Lemma drain_done self fuel w c :
  ctxs w !! self = Some c -> _active_span c = None ->
  drain self (S fuel) w = (Ok true, w).
Proof. intros Hc Ha. py_run. Qed.

Lemma drain_step self fuel w c r s :
  ctxs w !! self = Some c -> _active_span c = Some r ->
  spans w !! r = Some s -> ref_ok w (_parent s) ->
  drain self (S fuel) w =
    drain self fuel (upd_ctxs <[self := close_span_ctx (Some r) (parent_of w s) c]> w).
Proof.
  intros Hc Ha Hs Hp. cbn [drain].
  eapply run_seq; [by py_eval|]. cbn. rewrite Ha. cbn.
  eapply run_seq; [by apply close_span_exec|done].
Qed.

(** What the store of spans determines. *)
Lemma chain_spans w w' st : spans w = spans w' -> chain w st -> chain w' st.
Proof.
  intros Heq. induction st as [|r st IH]; [done|]. intros [Hr Hst].
  split; [|by apply IH]. unfold has_parent in *. by rewrite <- Heq.
Qed.

Lemma close_all_spans w w' st c :
  spans w = spans w' -> close_all w st c = close_all w' st c.
Proof.
  intros Heq. revert c. induction st as [|r st IH]; intros c; [done|].
  cbn. rewrite <- Heq. destruct (spans w !! r) as [s|]; [|done].
  unfold parent_of. by rewrite <- Heq, IH.
Qed.

(** The parent of the top of a line of ancestors is the next span. *)
Lemma chain_parent_of w r st s :
  chain w (r :: st) -> spans w !! r = Some s ->
  ref_ok w (_parent s) /\ fst <$> parent_of w s = head st.
Proof.
  intros [(s0 & Hs0 & Hp)%has_parent_spec Hst] Hs. simplify_eq.
  unfold parent_of. rewrite Hp. destruct st as [|r1 st]; [done|].
  destruct Hst as [(s1 & Hs1 & _)%has_parent_spec _]. cbn. rewrite Hs1. eauto.
Qed.

Lemma close_span_ctx_active span parent c :
  _active_span (close_span_ctx span parent c) = fst <$> parent.
Proof. unfold close_span_ctx, activate. by destruct parent as [[p sp]|]. Qed.

(** The loop closes a line of ancestors and ends. *)
Lemma drain_run self st : forall fuel w c,
  chain w st -> ctxs w !! self = Some c -> _active_span c = head st ->
  length st < fuel ->
  drain self fuel w =
    (Ok true, {| spans := spans w; ctxs := <[self := close_all w st c]> (ctxs w) |}).
Proof.
  induction st as [|r st IH]; intros [|fuel] w c Hch Hc Ha Hf; cbn in Hf; try lia.
  - rewrite (drain_done self fuel w c) by done. f_equal. apply world_eq; [done|].
    cbn. by rewrite insert_id.
  - pose proof Hch as [(s & Hs & _)%has_parent_spec Hst].
    destruct (chain_parent_of w r st s Hch Hs) as [Hp Hpar].
    rewrite (drain_step self fuel w c r s) by done.
    erewrite IH; [| by eapply chain_spans, Hst | apply lookup_insert_eq
                  | by rewrite close_span_ctx_active | lia].
    cbn. rewrite Hs, insert_insert_eq. do 3 f_equal. by apply close_all_spans.
Qed.

End loop.

(** ** Where the loop ends *)

Section outcome.
Context {keys : TagKeys}.
Implicit Types (w : world) (r : sref) (self : cref) (c : Context) (s : Span)
  (st : list sref) (fuel : nat) (P : call -> Prop).

Lemma close_all_cons w r st c s :
  spans w !! r = Some s ->
  close_all w (r :: st) c = close_all w st (close_span_ctx (Some r) (parent_of w s) c).
Proof. intros Hs. cbn [close_all]. by rewrite Hs. Qed.

Lemma close_all_active w st : forall c,
  chain w st -> _active_span c = head st ->
  _active_span (close_all w st c) = None.
Proof.
  induction st as [|r st IH]; intros c Hch Ha; [done|].
  pose proof Hch as [(s & Hs & _)%has_parent_spec Hst].
  rewrite (close_all_cons w r st c s Hs).
  apply IH; [done|]. rewrite close_span_ctx_active.
  by destruct (chain_parent_of w r st s Hch Hs).
Qed.

Lemma ended_activate parent c : ended (activate parent c) = ended c.
Proof. unfold activate. by destruct parent as [[p sp]|]. Qed.

Lemma close_all_ended w st : forall c,
  chain w st -> st <> [] -> _local_root_span c = last st ->
  close_all w st c = ended c.
Proof.
  induction st as [|r [|r1 st] IH]; intros c Hch Hne Hroot; [done|..];
    pose proof Hch as [(s & Hs & Hp)%has_parent_spec Hst];
    rewrite (close_all_cons w r _ c s Hs); unfold close_span_ctx; rewrite Hroot.
  - cbn. rewrite py_eq_refl. unfold parent_of. by rewrite Hp.
  - assert (py_eq (Some r) (last (r :: r1 :: st)) = false) as ->.
    { apply py_eq_false. intros Heq. by eapply chain_top_not_last. }
    rewrite IH, ?ended_activate; try done. by destruct (parent_of w s) as [[]|].
Qed.

(** C34. The shutdown loop terminates: in every store a program can
    reach, closing the current span of a context until there is none
    ends after at most as many iterations as the store has spans,
    whatever was done to the context before; no call of the loop raises,
    no span is written, and the context has no current span afterwards.
    Any fuel above the number of spans is enough. *)
Theorem drain_terminates P w self c fuel :
  reachable P w -> ctxs w !! self = Some c -> size (spans w) < fuel ->
  exists w', drain self fuel w = (Ok true, w') /\ spans w' = spans w /\
    get_current_span self w' = (Ok None, w').
Proof.
  intros Hw Hc Hf.
  assert (exists st, chain w st /\ _active_span c = head st) as (st & Hch & Ha).
  { destruct (_active_span c) as [r|] eqn:Ha; [|by exists []].
    destruct (reachable_world_inv _ _ Hw) as [Hinv _].
    destruct (Hinv _ _ Hc) as (_ & Hact & _). destruct (Hact r Ha) as (s & Hs & _).
    destruct (reachable_rooted P w Hw r) as [st Hst]; [by eexists|].
    by exists (r :: st). }
  pose proof (chain_length w st Hch). eexists. split_and!.
  - apply (drain_run self st); [done..|lia].
  - done.
  - unfold get_current_span. erewrite getattr_ctx_run by apply lookup_insert_eq.
    by rewrite close_all_active.
Qed.

(** C35. An open trace can always be ended: when the context holds a
    stack of open spans, the shutdown loop with one unit of fuel more
    than the depth of the stack closes them all, innermost first, and
    leaves the context with its trace ended: no current span, no root
    span, no trace id and no active span id; the sampling priority and
    the origin stay, and no span is written. *)
Theorem drain_ends_trace w self st c :
  repr w self st -> st <> [] -> ctxs w !! self = Some c ->
  drain self (S (length st)) w =
    (Ok true, {| spans := spans w; ctxs := <[self := ended c]> (ctxs w) |}).
Proof.
  intros [Hch Hr] Hne Hc. rewrite Hc in Hr. destruct Hr as [Ha Hroot].
  rewrite (drain_run self st _ w c) by (done || lia).
  by rewrite close_all_ended.
Qed.

End outcome.

(** ** The loop on the example trace *)

Section examples.
#[local] Existing Instance ddtrace_keys.

Lemma drain_terminates_witness :
  exists w', drain ex_self 3 ex_w2 = (Ok true, w') /\ spans w' = spans ex_w2 /\
    get_current_span ex_self w' = (Ok None, w').
Proof.
  refine (drain_terminates proper_call ex_w2 ex_self (ex_ctx_at ex_child 2) 3
            ex_w2_reachable eq_refl _).
  by compute_done.
Defined.

Lemma drain_ends_trace_witness :
  drain ex_self 3 ex_w2 =
    (Ok true,
     {| spans := spans ex_w2;
        ctxs := <[ex_self := ended (ex_ctx_at ex_child 2)]> (ctxs ex_w2) |}).
Proof.
  refine (drain_ends_trace ex_w2 ex_self [ex_child; ex_root] (ex_ctx_at ex_child 2)
            _ _ eq_refl).
  - by compute_done.
  - done.
Defined.

End examples.
