(* ===== verification/Scoped.v ===== *)
(** * Scoped: a span opened and closed around a block

    The way instrumentation uses the context: a span is added, the
    traced block runs, and the span is closed whatever the block did
    (the [with] statement of the tracer, or [try ... finally]).  The
    law of this file is the round trip behind the stack discipline: a
    scoped span leaves the context exactly as it found it, provided the
    block does, so scoped spans nest and the work of other execution
    units may run inside them. *)

From S2P Require Import Prelude Span Objects Context Spec Invariants Reachable.

Section scoped.
Context {keys : TagKeys}.
Implicit Types (w : world) (r p child : sref) (self : cref) (c : Context)
  (s : Span).

(** [ctx.add_span(span); try: body finally: ctx.close_span(span)] *)
Definition scoped {A} self child (body : M world A) : M world A :=
  add_span self (Some child) ;;
  finally body (close_span self (Some child)).

(** A program that, run in [w], removes no object, changes the identity
    of no span and leaves context [self] as it found it. *)
Definition restores {A} self (prog : M world A) w : Prop :=
  w ⊑ exec prog w /\ ctxs (exec prog w) !! self = ctxs w !! self.

(** ** The context after the round trip *)

(** Making a child of the current span current and then its parent
    again gives back the record of the context, when the identifiers
    of the context were those of the current span. *)
Lemma bracket_ctx c child p sc sp sp' :
  _active_span c = Some p -> _parent sc = Some p ->
  _local_root_span c <> Some child ->
  _trace_id c = Span.trace_id sp -> _active_span_id c = Span.span_id sp ->
  same_identity sp sp' ->
  close_span_ctx (Some child) (Some (p, sp')) (add_span_ctx child sc c) = c.
Proof.
  intros Ha Hp Hroot Ht Hi (Ht' & Hi' & _).
  unfold close_span_ctx, add_span_ctx, activate. rewrite Hp. cbn.
  rewrite (proj2 (py_eq_false _ _)) by (intros Heq; by apply Hroot).
  destruct c; cbn in *. congruence.
Qed.

Lemma restores_ret {A} self (x : A) w : restores self (ret x) w.
Proof. by split. Qed.

Lemma extends_upd_ctxs w self c : w ⊑ upd_ctxs <[self := c]> w.
Proof. split; cbn; auto with py. Qed.

Lemma extends_add_span w self r c s :
  spans w !! r = Some s ->
  w ⊑ {| spans := <[r := add_span_span self c s]> (spans w);
         ctxs := <[self := add_span_ctx r s c]> (ctxs w) |}.
Proof.
  intros Hs. split; cbn; [|auto with py].
  eapply spans_extend_insert; [done | apply add_span_span_identity].
Qed.

(** C19. A scoped span is a round trip: when the context has a current
    span whose identifiers it holds, a child of that span is added,
    a block runs and the child is closed, whatever the outcome of the
    block, then the context is exactly as it was before, no object was
    removed and no span changed identity, and the outcome is that of
    the block; provided the block itself leaves the context as it
    found it.  The conclusion has the form of the premise on the block:
    scoped spans nest. *)
Theorem scoped_restores {A} w self c child p sc sp (body : M world A) :
  ctxs w !! self = Some c -> _active_span c = Some p -> spans w !! p = Some sp ->
  _trace_id c = Span.trace_id sp -> _active_span_id c = Span.span_id sp ->
  spans w !! child = Some sc -> _parent sc = Some p ->
  _local_root_span c <> Some child ->
  restores self body (exec (add_span self (Some child)) w) ->
  restores self (scoped self child body) w /\
  eval (scoped self child body) w = eval body (exec (add_span self (Some child)) w).
Proof.
  intros Hc Ha Hsp Ht Hi Hsc Hp Hroot.
  pose proof (add_span_exec w self child c sc Hc Hsc) as Hadd.
  pose proof (extends_add_span w self child c sc Hsc) as Hw1.
  rewrite (exec_intro _ _ _ _ Hadd). set (w1 := {| spans := _; ctxs := _ |}) in *.
  intros [Hw2 Hself]. unfold eval at 2. unfold exec in Hw2, Hself.
  destruct (body w1) as [res w2] eqn:Hb. cbn in Hw2, Hself |- *.
  rewrite lookup_insert_eq in Hself.
  destruct (extends_parent_of w w2 child p sc sp) as (sc' & sp' & Hsc' & Hr & Hpar & Hid);
    [by etrans|done..|].
  pose proof (close_span_exec w2 self child _ sc' Hself Hsc' Hr) as Hclose.
  rewrite Hpar, (bracket_ctx c child p sc sp sp') in Hclose by done.
  assert (scoped self child body w = (res, upd_ctxs <[self := c]> w2)) as Hrun
    by (eapply run_seq; [exact Hadd | by eapply run_finally]).
  unfold restores, exec, eval. rewrite Hrun. cbn. rewrite lookup_insert_eq.
  split_and!; try done. etrans; [|apply extends_upd_ctxs]. by etrans.
Qed.

End scoped.

(** ** In reachable stores *)

Section reachable.
Context {keys : TagKeys}.
Implicit Types (w : world) (p child : sref) (self : cref) (c : Context) (s sc : Span).

(** In a store reached by callers that never pass [None], the
    premises of the round trip on the identifiers and on the root span
    hold by the invariants: a context that has a current span holds its
    identifiers, and a span that has a parent is not the root span. *)
Lemma reachable_scoped_premises w self c child p sc :
  reachable proper_call w ->
  ctxs w !! self = Some c -> _active_span c = Some p ->
  spans w !! child = Some sc -> _parent sc = Some p ->
  exists sp, spans w !! p = Some sp /\
    _trace_id c = Span.trace_id sp /\ _active_span_id c = Span.span_id sp /\
    _local_root_span c <> Some child.
Proof.
  intros Hw Hc Ha Hsc Hp.
  destruct (reachable_world_inv _ _ Hw) as [Hinv _].
  destruct (Hinv _ _ Hc) as (_ & Hact & Hroot).
  destruct (Hact p Ha) as (sp & Hsp & Hi).
  destruct (reachable_ctx_invariant proper_call trace_coherent w Hw _ _ Hc p Ha)
    as (sp' & Hsp' & Ht).
  exists sp. split_and!; [done|congruence|done|].
  intros Hr. destruct (Hroot child Hr) as (s & Hs & Hnone). congruence.
Qed.

End reachable.

(** ** Two nested scoped spans *)

Section examples.
#[local] Existing Instance ddtrace_keys.

Definition ex_inner : sref := SRef 3.

(** The example store after [add_span(root)], with a span to be opened
    under the child span. *)
Definition ex_w1_inner : world :=
  upd_spans <[ex_inner := Span__init__ (VInt 42) (VInt 3) (Some ex_child)]> ex_w1.

Definition ex_nested : M world unit :=
  scoped ex_self ex_child (scoped ex_self ex_inner (ret tt)).

Lemma scoped_restores_witness :
  restores ex_self ex_nested ex_w1_inner /\
  eval ex_nested ex_w1_inner =
    eval (scoped ex_self ex_inner (ret tt))
      (exec (add_span ex_self (Some ex_child)) ex_w1_inner).
Proof.
  refine (scoped_restores ex_w1_inner ex_self (ex_ctx_at ex_root 1) ex_child ex_root
            ex_child_span ex_root_span' _
            eq_refl eq_refl eq_refl eq_refl eq_refl eq_refl eq_refl _ _).
  - by intros [=].
  - refine (proj1 (scoped_restores (exec (add_span ex_self (Some ex_child)) ex_w1_inner)
                     ex_self (ex_ctx_at ex_child 2) ex_inner ex_child
                     (Span__init__ (VInt 42) (VInt 3) (Some ex_child))
                     (set__context (Some ex_self) ex_child_span) (ret tt)
                     eq_refl eq_refl eq_refl eq_refl eq_refl eq_refl eq_refl _ _)).
    + by intros [=].
    + apply restores_ret.
Defined.

End examples.
